(** * NexusMusicBot: the YouTube backend and the playback command handlers

    A shallow embedding of [src/platforms/_youtube.py] (class [YouTubeData])
    and of the command handlers of [src/modules/funcs.py], followed by the
    properties of the specification that were checked against them.

    Conventions of the embedding.
    - Python [str] is [string]; text is read as ASCII (the word class and
      the case folding of the regular expressions, the digits and the blanks
      of [int] are the ASCII ones).
    - A Python call either returns or raises: [outcome].  [except Exception]
      catches every exception but the ones that only derive from
      [BaseException] (task cancellation).
    - JSON-like payloads that come from collaborators are dynamically typed
      values [pyval]; using one at the wrong type raises as Python does.
    - Collaborators that are not part of the two files (HTTP client, search
      library, downloader, chat cache, admin check, voice engine, argument
      extraction) are oracles collected in the records [Net] and [World].
    - A handler run is the sequence of its interactions with the
      collaborators, in program order: a [trace].  Asking the cache or the
      admin check, and sending a reply, are taken to succeed; a call that
      acts on the engine or on the cache may raise.
    - [_fetch_data] and [search] call each other; the recursion is bounded
      by the depth of the call stack, which the entry points take as an
      argument.
    - The handlers of the settings, of the queue and of the buttons have
      collaborators of their own, the record [Desk]; in their runs every
      call that acts may raise, sending a text included.
    - [Fallible] embeds the playback commands and [seek_song] once more
      with nothing taken to succeed: there a question and a reply may
      raise as well. *)

From Stdlib Require Import String Ascii List ZArith Lia Bool.
Import ListNotations.

Local Open Scope string_scope.
Local Open Scope list_scope.
Local Open Scope Z_scope.

(* ================================================================== *)
(** * Python values, exceptions and string primitives                  *)
(* ================================================================== *)

Module Py.

(** The exception classes that the modelled code can meet. *)
Inductive exn : Type :=
| IndexError
| KeyError
| ValueError
| TypeError
| AttributeError
| RecursionError                 (* the call stack is exhausted *)
| LibraryError (name : string)   (* any other subclass of [Exception] *)
| CancelledError.                (* derives from [BaseException] only *)

Definition is_Exception (e : exn) : bool :=
  match e with CancelledError => false | _ => true end.

Definition is_KeyError (e : exn) : bool :=
  match e with KeyError => true | _ => false end.

Inductive outcome (A : Type) : Type :=
| Ret (a : A)
| Raise (e : exn).
Arguments Ret {A} a.
Arguments Raise {A} e.

Definition bind {A B} (m : outcome A) (k : A -> outcome B) : outcome B :=
  match m with
  | Ret a => k a
  | Raise e => Raise e
  end.

(** [try: body  except Exception: handler]. *)
Definition try_except {A} (body : outcome A) (handler : exn -> outcome A)
  : outcome A :=
  match body with
  | Ret a => Ret a
  | Raise e => if is_Exception e then handler e else Raise e
  end.

Definition returns {A} (m : outcome A) : bool :=
  match m with Ret _ => true | Raise _ => false end.

(** [[f(x) for x in xs]]: left to right, the first exception ends it. *)
Fixpoint comprehension {A B} (f : A -> outcome B) (xs : list A)
  : outcome (list B) :=
  match xs with
  | [] => Ret []
  | x :: xs' =>
      bind (f x) (fun y =>
      bind (comprehension f xs') (fun ys => Ret (y :: ys)))
  end.

(** ** Strings *)

Definition str_truthy (s : string) : bool :=
  match s with EmptyString => false | String _ _ => true end.

(** [sub in s]. *)
Fixpoint str_in (sub s : string) : bool :=
  prefix sub s ||
  match s with
  | EmptyString => false
  | String _ s' => str_in sub s'
  end.

(** [s.split(sep)] for a non-empty [sep] (every call site passes a
    literal): scan from the left, cut at each occurrence of [sep], and
    resume after it.  [skip] counts the characters of a separator that are
    still to be dropped, [cur] is the piece being read. *)
Fixpoint split_go (sep : string) (skip : nat) (cur s : string) : list string :=
  match s with
  | EmptyString => [cur]
  | String c s' =>
      match skip with
      | S k => split_go sep k cur s'
      | O =>
          if prefix sep s
          then cur :: split_go sep (Nat.pred (String.length sep)) EmptyString s'
          else split_go sep O (cur ++ String c EmptyString)%string s'
      end
  end.

Definition split (sep s : string) : list string :=
  split_go sep O EmptyString s.

(** [l[i]] with Python's negative indices. *)
Definition index {A} (l : list A) (i : Z) : outcome A :=
  let n := Z.of_nat (List.length l) in
  let j := if i <? 0 then i + n else i in
  if (j <? 0) || (n <=? j) then Raise IndexError
  else match nth_error l (Z.to_nat j) with
       | Some a => Ret a
       | None => Raise IndexError
       end.

(** ** [int(s)] on text

    Blanks are stripped at both ends, one sign may follow, then decimal
    digits, where one underscore may stand between two digits.  Anything
    else is a [ValueError], and so is a numeral of more than
    [int_max_str_digits] digits (the interpreter's default limit). *)

Definition is_space (c : ascii) : bool :=
  let n := nat_of_ascii c in
  ((9 <=? n) && (n <=? 13) || (n =? 32))%nat.

Definition is_digit (c : ascii) : bool :=
  let n := nat_of_ascii c in ((48 <=? n) && (n <=? 57))%nat.

Definition digit_val (c : ascii) : Z := Z.of_nat (nat_of_ascii c) - 48.

Fixpoint lstrip (l : list ascii) : list ascii :=
  match l with
  | c :: l' => if is_space c then lstrip l' else l
  | [] => []
  end.

Definition strip (l : list ascii) : list ascii :=
  rev (lstrip (rev (lstrip l))).

Definition int_max_str_digits : nat := 4300.

(** [prev] tells whether the previous character was a digit; [acc] is the
    value and [n] the number of digits read so far. *)
Fixpoint int_digits (prev : bool) (acc : Z) (n : nat) (l : list ascii)
  : option (Z * nat) :=
  match l with
  | [] => if prev then Some (acc, n) else None
  | c :: l' =>
      if is_digit c then int_digits true (10 * acc + digit_val c) (S n) l'
      else if Ascii.eqb c "_" && prev then int_digits false acc n l'
      else None
  end.

Definition int_unsigned (l : list ascii) : outcome Z :=
  match int_digits false 0 O l with
  | Some (v, n) =>
      if (int_max_str_digits <? n)%nat then Raise ValueError else Ret v
  | None => Raise ValueError
  end.

Definition int_of_str (s : string) : outcome Z :=
  match strip (list_ascii_of_string s) with
  | c :: l' =>
      if Ascii.eqb c "-" then bind (int_unsigned l') (fun v => Ret (- v))
      else if Ascii.eqb c "+" then int_unsigned l'
      else int_unsigned (c :: l')
  | [] => Raise ValueError
  end.

(** ** Dynamically typed payloads *)

#[local] Set Warnings "-register-all".

Inductive pyval : Type :=
| VNone
| VBool (b : bool)
| VInt (z : Z)     (* a number; a float acts as one in all that is done here *)
| VStr (s : string)
| VList (l : list pyval)
| VDict (d : list (string * pyval)).

Definition truthy (v : pyval) : bool :=
  match v with
  | VNone => false
  | VBool b => b
  | VInt z => negb (z =? 0)
  | VStr s => str_truthy s
  | VList l => match l with [] => false | _ => true end
  | VDict d => match d with [] => false | _ => true end
  end.

Fixpoint lookup (k : string) (d : list (string * pyval)) : option pyval :=
  match d with
  | [] => None
  | (k', v) :: d' => if String.eqb k k' then Some v else lookup k d'
  end.

(** [v.get(k, default)]: only a dict has the method. *)
Definition get (v : pyval) (k : string) (default : pyval) : outcome pyval :=
  match v with
  | VDict d => Ret (match lookup k d with Some x => x | None => default end)
  | _ => Raise AttributeError
  end.

Definition chars (s : string) : list pyval :=
  map (fun c => VStr (String c EmptyString)) (list_ascii_of_string s).

(** [v[i]] for an integer [i]; the keys of the dicts are strings, so an
    integer is never one of them. *)
Definition subscript_int (v : pyval) (i : Z) : outcome pyval :=
  match v with
  | VList l => index l i
  | VStr s => index (chars s) i
  | VDict _ => Raise KeyError
  | _ => Raise TypeError
  end.

(** [v[k]] for a string [k]. *)
Definition subscript_str (v : pyval) (k : string) : outcome pyval :=
  match v with
  | VDict d => match lookup k d with Some x => Ret x | None => Raise KeyError end
  | _ => Raise TypeError
  end.

(** [k in v] for a string [k]. *)
Definition contains_str (k : string) (v : pyval) : outcome bool :=
  match v with
  | VDict d => Ret (match lookup k d with Some _ => true | None => false end)
  | VList l =>
      Ret (existsb (fun x => match x with
                             | VStr s => String.eqb k s
                             | _ => false
                             end) l)
  | VStr s => Ret (str_in k s)
  | _ => Raise TypeError
  end.

(** [for x in v]. *)
Definition iterate (v : pyval) : outcome (list pyval) :=
  match v with
  | VList l => Ret l
  | VStr s => Ret (chars s)
  | VDict d => Ret (map (fun kv => VStr (fst kv)) d)
  | _ => Raise TypeError
  end.

(** ** Regular expressions by lists of successes

    A pattern maps the text to the remainders it can leave, the preferred
    one first, as the backtracking matcher of [re] tries them. *)

Definition re : Type := string -> list string.

Definition lower (c : ascii) : ascii :=
  let n := nat_of_ascii c in
  if ((65 <=? n) && (n <=? 90))%nat then ascii_of_nat (n + 32) else c.

(** A literal, compared without case ([re.IGNORECASE]). *)
Fixpoint lit (p : string) : re :=
  fun s =>
    match p with
    | EmptyString => [s]
    | String a p' =>
        match s with
        | String c s' => if Ascii.eqb (lower a) (lower c) then lit p' s' else []
        | EmptyString => []
        end
    end.

Definition seq (r1 r2 : re) : re := fun s => flat_map r2 (r1 s).
Definition alt (r1 r2 : re) : re := fun s => r1 s ++ r2 s.
Definition opt (r : re) : re := fun s => r s ++ [s].

(** [[cls]*], greedy. *)
Fixpoint many (cls : ascii -> bool) (s : string) : list string :=
  match s with
  | String c s' => if cls c then many cls s' ++ [s] else [s]
  | EmptyString => [s]
  end.

(** [[cls]+], greedy. *)
Definition many1 (cls : ascii -> bool) : re :=
  fun s =>
    match s with
    | String c s' => if cls c then many cls s' else []
    | EmptyString => []
    end.

Definition one (cls : ascii -> bool) : re :=
  fun s =>
    match s with
    | String c s' => if cls c then [s'] else []
    | EmptyString => []
    end.

(** [pattern.match(s)] as a truth value: a match at the start of [s]. *)
Definition re_match (r : re) (s : string) : bool :=
  match r s with [] => false | _ :: _ => true end.

Definition take (n : nat) (s : string) : string := substring 0 n s.

(** [re.search(pattern, s)]: the match at the leftmost position that has
    one; [Some] of the matched text ([match.group()]). *)
Fixpoint re_search (r : re) (s : string) : option string :=
  match r s with
  | rest :: _ => Some (take (String.length s - String.length rest) s)
  | [] =>
      match s with
      | String _ s' => re_search r s'
      | EmptyString => None
      end
  end.

(** [\w] and [\d]. *)
Definition is_word (c : ascii) : bool :=
  let n := nat_of_ascii c in
  (is_digit c || ((65 <=? n) && (n <=? 90)) || ((97 <=? n) && (n <=? 122))
   || (n =? 95))%nat.

(** ** Vocabulary for the patterns *)

(** At most one remainder. *)
Definition det (r : re) : Prop :=
  forall s, r s = [] \/ exists s', r s = [s'].

(** A match starts with one of the characters [cs], up to case. *)
Definition first_in (cs : list ascii) (r : re) : Prop :=
  forall s, r s <> [] ->
  exists c s', s = String c s' /\ existsb (Ascii.eqb (lower c)) cs = true.

(** No text is matched by both. *)
Definition excl (r1 r2 : re) : Prop :=
  forall s, r1 s = [] \/ r2 s = [].

Definition apart (cs1 cs2 : list ascii) : bool :=
  forallb (fun c => negb (existsb (Ascii.eqb c) cs2)) cs1.

(** Every match of [r] on a text cut at its first [a] is a match on the
    part before the cut. *)
Definition stays_before (a : ascii) (r : re) : Prop :=
  forall head rest s', str_in (String a EmptyString) head = false ->
  In s' (r (head ++ String a rest)%string) ->
  exists h', s' = (h' ++ String a rest)%string
             /\ str_in (String a EmptyString) h' = false /\ In h' (r head).

(** The literal [p] has no [a] in it, up to case. *)
Definition avoids (a : ascii) (p : string) : bool :=
  forallb (fun c => negb (Ascii.eqb (lower c) (lower a)))
          (list_ascii_of_string p).

(** A numeral: decimal digits, at least one, and no more of them than
    [int] accepts. *)
Definition numeral (s : string) : bool :=
  let l := list_ascii_of_string s in
  forallb is_digit l && negb (Nat.eqb (List.length l) 0)
  && (List.length l <=? int_max_str_digits)%nat.

(** The number that the digits [l] write in base ten, after [acc]. *)
Definition decimal (acc : Z) (l : list ascii) : Z :=
  fold_left (fun a c => 10 * a + digit_val c) l acc.

Definition value (s : string) : Z := decimal 0 (list_ascii_of_string s).
(** No exception of class [Exception] leaves the call. *)
Definition contained {A} (o : outcome A) : Prop :=
  forall e, o = Raise e -> is_Exception e = false.

End Py.

(* ================================================================== *)
(** * [src/platforms/_youtube.py]: class [YouTubeData]                 *)
(* ================================================================== *)

Module YouTube.
Import Py.

(** The dict literal that [_format_track] and [_get_youtube_url] build,
    key by key. *)
Record TrackDict : Type := mkTrackDict {
  td_id : pyval;
  td_name : pyval;
  td_duration : Z;
  td_artist : pyval;
  td_cover : pyval;
  td_year : Z;
  td_platform : string
}.

(** The classes of [dataclass.py], read off the keyword arguments they are
    built with here; building one does not validate anything. *)
Record MusicTrack : Type := mkMusicTrack {
  id : pyval;
  name : pyval;
  duration : Z;
  artist : pyval;
  cover : pyval;
  year : Z;
  platform : string
}.

Record PlatformTracks : Type := mkPlatformTracks { tracks : list MusicTrack }.

Record TrackInfo : Type := mkTrackInfo {
  ti_cdnurl : string;
  ti_key : string;
  ti_name : pyval;
  ti_artist : pyval;
  ti_tc : pyval;
  ti_album : string;
  ti_cover : pyval;
  ti_lyrics : string;
  ti_duration : Z;
  ti_year : Z
}.

(** The collaborators of the backend: what each call answers. *)
Record Net : Type := mkNet {
  (* [HttpxClient.make_request(url)] *)
  make_request : string -> outcome pyval;
  (* [VideosSearch(query, limit=5).next()] *)
  videos_search_next : string -> outcome pyval;
  (* [Playlist.getVideos(url)] *)
  playlist_getVideos : string -> outcome pyval;
  (* [YouTubeDownload(track).process()] *)
  youtube_download : TrackInfo -> outcome (option string)
}.

(** The object: [self.query] ([self.client] is the oracle [make_request]). *)
Record YouTubeData : Type := mkYouTubeData { query : option string }.

Definition word_or_dash (c : ascii) : bool := is_word c || Ascii.eqb c "-".

(** [(https?://)?(www\.)?(youtube\.com|music\.youtube\.com)/] *)
Definition site (tail : re) : re :=
  seq (opt (seq (lit "http") (seq (opt (lit "s")) (lit "://"))))
 (seq (opt (lit "www."))
 (seq (alt (lit "youtube.com") (lit "music.youtube.com"))
 (seq (lit "/") tail))).

Definition YOUTUBE_VIDEO_PATTERN : re :=
  site (seq (alt (lit "watch?v=") (lit "shorts/")) (many1 word_or_dash)).

Definition YOUTUBE_PLAYLIST_PATTERN : re :=
  site (seq (lit "playlist?list=") (many1 word_or_dash)).

Definition __init__ (query : option string) : outcome YouTubeData :=
  match query with
  | None => Ret (mkYouTubeData None)
  | Some q =>
      if negb (str_truthy q) then Ret (mkYouTubeData None)
      else if str_truthy q && str_in "&" q
      then bind (index (split "&" q) 0) (fun q0 => Ret (mkYouTubeData (Some q0)))
      else Ret (mkYouTubeData (Some q))
  end.

Definition is_valid (url : option string) : bool :=
  match url with
  | Some u =>
      if str_truthy u
      then re_match YOUTUBE_VIDEO_PATTERN u || re_match YOUTUBE_PLAYLIST_PATTERN u
      else false
  | None => false
  end.

Definition _duration_to_seconds (duration : pyval) : outcome Z :=
  if negb (truthy duration) then Ret 0
  else
    match duration with
    | VStr s =>
        match split ":" s with
        | [h; m; sec] =>
            bind (int_of_str h) (fun hours =>
            bind (int_of_str m) (fun minutes =>
            bind (int_of_str sec) (fun seconds =>
            Ret (hours * 3600 + minutes * 60 + seconds))))
        | [m; sec] =>
            bind (int_of_str m) (fun minutes =>
            bind (int_of_str sec) (fun seconds =>
            Ret (minutes * 60 + seconds)))
        | _ => Ret 0
        end
    | _ => Raise AttributeError
    end.

Definition _format_track (track_data : pyval) : outcome TrackDict :=
  bind (get track_data "id" VNone) (fun v_id =>
  bind (get track_data "title" VNone) (fun v_name =>
  bind (get track_data "duration" (VStr "0:00")) (fun d =>
  bind (_duration_to_seconds d) (fun v_duration =>
  bind (get track_data "channel" (VDict [])) (fun channel =>
  bind (get channel "name" (VStr "Unknown")) (fun v_artist =>
  bind (get track_data "thumbnails" (VList [VDict []])) (fun thumbnails =>
  bind (subscript_int thumbnails (-1)) (fun last =>
  bind (get last "url" (VStr EmptyString)) (fun v_cover =>
  Ret (mkTrackDict v_id v_name v_duration v_artist v_cover 0 "youtube")))))))))).

(** [MusicTrack] built from the keywords of the dict [track]. *)
Definition MusicTrack_of (t : TrackDict) : MusicTrack :=
  mkMusicTrack (td_id t) (td_name t) (td_duration t) (td_artist t)
               (td_cover t) (td_year t) (td_platform t).

Definition _get_youtube_url (net : Net) (url : string)
  : outcome (option (list TrackDict)) :=
  let _url :=
    ("https://www.youtube.com/oembed?url=" ++ url ++ "&format=json")%string in
  bind (make_request net _url) (fun data =>
  if negb (truthy data) then Ret None
  else
    bind (index (split "v=" url) 1) (fun v_id =>
    bind (get data "title" VNone) (fun v_name =>
    bind (get data "author_name" (VStr EmptyString)) (fun v_artist =>
    bind (get data "thumbnail_url" (VStr EmptyString)) (fun v_cover =>
    Ret (Some [mkTrackDict (VStr v_id) v_name 0 v_artist v_cover 0 "youtube"])))))).

Definition _get_playlist (net : Net) (url : string)
  : outcome (option (list TrackDict)) :=
  match playlist_getVideos net url with
  | Raise e =>
      if is_KeyError e then Ret None
      else if is_Exception e then Ret None
      else Raise e
  | Ret playlist =>
      if truthy playlist
      then
        bind (get playlist "videos" (VList [])) (fun videos =>
        bind (iterate videos) (fun vs =>
        bind (comprehension _format_track vs) (fun results =>
        Ret (Some results))))
      else Ret None
  end.

(** What [_fetch_data] hands back: a dict from the two URL branches, or
    the [PlatformTracks] of [search] from the last one. *)
Inductive fetched : Type :=
| FDict (results : list TrackDict)
| FTracks (pt : PlatformTracks).

(** [_create_platform_tracks]: a dict built here is [{"results": ...}], so
    it is true and has the key.  Testing ["results" in data] on a
    [PlatformTracks] object is taken to raise [TypeError]; the entry points
    never get there ([fetch_valid_is_dict]). *)
Definition _create_platform_tracks (data : fetched)
  : outcome (option PlatformTracks) :=
  match data with
  | FDict results => Ret (Some (mkPlatformTracks (map MusicTrack_of results)))
  | FTracks _ => Raise TypeError
  end.

(** [self._create_platform_tracks(data) if data else None]. *)
Definition finish (data : option fetched) : outcome (option PlatformTracks) :=
  match data with
  | Some d => _create_platform_tracks d
  | None => Ret None
  end.

(** The free-text branch of [search]. *)
Definition search_text (net : Net) (q : string)
  : outcome (option (list TrackDict)) :=
  try_except
    (bind (videos_search_next net q) (fun results =>
     bind (contains_str "result" results) (fun has =>
     if has
     then
       bind (subscript_str results "result") (fun r =>
       bind (iterate r) (fun vs =>
       bind (comprehension _format_track vs) (fun rs => Ret (Some rs))))
     else Ret None)))
    (fun _ => Ret None).

(** [_fetch_data] and [search] call each other; [depth] is the number of
    stack frames left, and running out of them is [RecursionError]. *)
Fixpoint _fetch_data (depth : nat) (net : Net) (self : YouTubeData)
  (url : string) : outcome (option fetched) :=
  match depth with
  | O => Raise RecursionError
  | S d =>
      if re_match YOUTUBE_VIDEO_PATTERN url
      then bind (_get_youtube_url net url) (fun r => Ret (option_map FDict r))
      else if re_match YOUTUBE_PLAYLIST_PATTERN url
      then bind (_get_playlist net url) (fun r => Ret (option_map FDict r))
      else bind (search d net self) (fun r => Ret (option_map FTracks r))
  end
with search (depth : nat) (net : Net) (self : YouTubeData)
  : outcome (option PlatformTracks) :=
  match depth with
  | O => Raise RecursionError
  | S d =>
      match query self with
      | None => Ret None
      | Some q =>
          if negb (str_truthy q) then Ret None
          else if is_valid (Some q)
          then bind (_fetch_data d net self q) finish
          else bind (search_text net q)
                    (fun data => finish (option_map FDict data))
      end
  end.

Definition get_info (depth : nat) (net : Net) (self : YouTubeData)
  : outcome (option PlatformTracks) :=
  match depth with
  | O => Raise RecursionError
  | S d =>
      if negb (is_valid (query self)) then Ret None
      else
        match query self with
        | Some q => bind (_fetch_data d net self q) finish
        | None => Raise TypeError   (* not reached: [is_valid None] is false *)
        end
  end.

Definition str_of_query (q : option string) : string :=
  match q with Some s => s | None => "None" end.

Definition get_track (net : Net) (self : YouTubeData)
  : outcome (option TrackInfo) :=
  let url :=
    ("https://youtube.com/watch?v=" ++ str_of_query (query self))%string in
  try_except
    (bind (_get_youtube_url net url) (fun data =>
     match data with
     | None => Ret None
     | Some results =>
         bind (index results 0) (fun track_data =>
         Ret (Some (mkTrackInfo "None" "None" (td_name track_data)
                      (td_artist track_data) (td_id track_data) "YouTube"
                      (td_cover track_data) "None"
                      (td_duration track_data) 0)))
     end))
    (fun _ => Ret None).

Definition download_track (net : Net) (track : TrackInfo)
  : outcome (option string) :=
  try_except (youtube_download net track) (fun _ => Ret None).

Definition get_recommendations : outcome (option PlatformTracks) := Ret None.

(** ** Vocabulary and sample payloads *)

(** The part of the two patterns before the path. *)
Definition site_prefix : re :=
  seq (opt (seq (lit "http") (seq (opt (lit "s")) (lit "://"))))
 (seq (opt (lit "www."))
 (seq (alt (lit "youtube.com") (lit "music.youtube.com"))
      (lit "/"))).

(** The entry can be parsed: [_format_track] returns on it. *)
Definition parses (v : pyval) : bool := returns (_format_track v).

(** The shape of an entry that can be parsed: a dict whose duration, when
    it has one, is read by [_duration_to_seconds], whose channel, when it
    has one, is a dict, and whose thumbnails, when it has the key, end
    with a dict. *)
Definition well_formed (v : pyval) : bool :=
  match v with
  | VDict d =>
      match lookup "duration" d with
      | Some x => returns (_duration_to_seconds x)
      | None => true
      end
      && match lookup "channel" d with
         | Some (VDict _) | None => true
         | Some _ => false
         end
      && match lookup "thumbnails" d with
         | Some th =>
             match subscript_int th (-1) with
             | Ret (VDict _) => true
             | _ => false
             end
         | None => true
         end
  | _ => false
  end.

(** The track [t] stands for the listed entry [v]: its id and title, year
    0 and the platform tag. *)
Definition listed_as (v : pyval) (t : MusicTrack) : Prop :=
  get v "id" VNone = Ret (id t) /\ get v "title" VNone = Ret (name t)
  /\ year t = 0 /\ platform t = "youtube".

Definition unreachable {A} : outcome A := Raise (LibraryError "not called").

Definition oembed_answers : Net :=
  mkNet (fun _ => Ret (VDict [("title", VStr "Short clip");
                              ("author_name", VStr "Channel")]))
        (fun _ => unreachable) (fun _ => unreachable) (fun _ => unreachable).

Definition entry (vid title clock : string) : pyval :=
  VDict [("id", VStr vid); ("title", VStr title); ("duration", VStr clock);
         ("channel", VDict [("name", VStr "Channel")]);
         ("thumbnails",
          VList [VDict [("url", VStr "https://i.ytimg.com/a.jpg")]])].

Definition two_videos : Net :=
  mkNet (fun _ => unreachable) (fun _ => unreachable)
        (fun _ => Ret (VDict [("videos",
           VList [entry "v1" "First" "3:45"; entry "v2" "Second" "1:02:03"])]))
        (fun _ => unreachable).

Definition bare_entry : pyval :=
  VDict [("id", VStr "v2"); ("title", VStr "Second");
         ("duration", VStr "4:10");
         ("channel", VDict [("name", VStr "Channel")]);
         ("thumbnails", VList [])].

Definition no_thumbnail : Net :=
  mkNet (fun _ => unreachable) (fun _ => unreachable)
        (fun _ => Ret (VDict [("videos",
           VList [entry "v1" "First" "3:45"; bare_entry])]))
        (fun _ => unreachable).

End YouTube.

(* ================================================================== *)
(** * [src/modules/funcs.py]: the command handlers                     *)
(* ================================================================== *)

Module Funcs.
Import Py.

(** The fields of a queued track that the handlers read. *)
Record CachedTrack : Type := mkCachedTrack {
  name : string;
  user : string;
  duration : Z;
  loop : Z;
  file_path : string
}.

(** The fields of [types.Message] that the handlers read:
    [msg.chat.id], [msg.from_user.id], [msg.from_user.mention], [msg.text]. *)
Record Message : Type := mkMessage {
  chat_id : Z;
  from_user_id : Z;
  mention : string;
  text : string
}.

(** Floating-point numbers are kept symbolic: [float_of lit] is
    [float(lit)] and [round2 x] is [round(x, 2)]. *)
Inductive pyfloat : Type := float_of (lit : string).
Inductive rounded : Type := round2 (x : pyfloat).

(** The methods of the voice engine [src.pytgcalls.call]. *)
Inductive Call : Type :=
| call_played_time (chat : Z)
| call_seek_stream (chat : Z) (path : string) (seek_to total : Z)
| call_speed_change (chat : Z) (speed : rounded)
| call_end (chat : Z)
| call_pause (chat : Z)
| call_resume (chat : Z)
| call_mute (chat : Z)
| call_unmute (chat : Z)
| call_change_volume (chat : Z) (vol : Z)
| call_play_next (chat : Z).

(** The texts sent with [msg.reply_text]. *)
Inductive Reply : Type :=
| NoSongPlaying                 (* No song is currently playing. *)
| MustBeAdmin                   (* You must be an admin to use this command. *)
| NeedAdmin                     (* You need to be an admin to use this ... *)
| NoSongInChat                  (* No song is currently playing in this chat! *)
| NoSongPlayingHere             (* No song is playing in this chat! *)
| Done (success_msg who : string)          (* {success_msg} ... Requested by *)
| Failed (fail_msg : string) (e : exn)     (* {fail_msg} Error: {e} *)
| WentWrong (e : exn)           (* Something went wrong... Error: {e} *)
| SeekUsage                     (* Usage: /seek seconds ... *)
| SeekTooShort                  (* Invalid input! Seconds must be greater ... *)
| SeekPastEnd (total : Z)       (* Cannot seek past the song duration *)
| Seeked (seek_to : Z) (who : string)      (* Seeked to {seek_to} seconds *)
| SpeedUsage                    (* Usage: /speed speed (... 0.5 and 4.0) *)
| SpeedChanged (speed : rounded) (who : string)
| RemoveUsage                   (* Usage: /remove track number ... *)
| QueueEmpty                    (* The queue is empty. No tracks to remove. *)
| InvalidTrackNumber (len : nat)   (* Invalid track number! ... {len} tracks. *)
| TrackRemoved (who : string)   (* Track removed from queue *)
| StreamEnded (who : string)    (* Stream Ended *)
| VolumeUsage                   (* Usage: /volume 1-200 *)
| UseMute                       (* Use /mute to mute the song. *)
| VolumeOutOfRange              (* Volume must be between 1 and 200. *)
| VolumeSet (vol : Z) (who : string)       (* Stream volume set to {vol} *)
| SongSkipped (who : string).   (* Song skipped *)

(** The replies that turn a request down. *)
Definition is_rejection (r : Reply) : bool :=
  match r with
  | NoSongPlaying | MustBeAdmin | NeedAdmin | NoSongInChat
  | NoSongPlayingHere | SeekUsage | SeekTooShort | SeekPastEnd _
  | SpeedUsage | RemoveUsage | QueueEmpty | InvalidTrackNumber _
  | VolumeUsage | UseMute | VolumeOutOfRange => true
  | _ => false
  end.

(** What a handler does to the outside, one event per call. *)
Inductive Event : Type :=
| ask_is_active (chat : Z)             (* chat_cache.is_active *)
| ask_is_admin (chat who : Z)          (* is_admin *)
| ask_current_song (chat : Z)          (* chat_cache.get_current_song *)
| ask_queue (chat : Z)                 (* chat_cache.get_queue *)
| cache_remove_track (chat : Z) (track_num : Z)
| engine (c : Call)
| del_msg
| reply (r : Reply)
| log_error (e : exn).

(** The collaborators of the handlers: what each one answers, and which
    of the calls that act on the outside raise. *)
Record World : Type := mkWorld {
  (* [extract_argument(text, enforce_digit=True)] of [play_helpers] *)
  extract_argument : string -> option string;
  is_active : Z -> bool;
  is_admin : Z -> Z -> bool;
  get_current_song : Z -> option CachedTrack;
  get_queue : Z -> list CachedTrack;
  played_time : Z -> outcome Z;
  fails : Event -> option exn
}.

(** A run: the events in program order, and how the run ended. *)
Definition M (A : Type) : Type := (list Event * outcome A)%type.

Definition ret {A} (a : A) : M A := ([], Ret a).

Definition mbind {A B} (m : M A) (k : A -> M B) : M B :=
  match m with
  | (t, Ret a) => let (t', o) := k a in (t ++ t', o)
  | (t, Raise e) => (t, Raise e)
  end.

Notation "x <- c ;; k" := (mbind c (fun x => k))
  (at level 61, c at next level, right associativity).
Notation "c ;;; k" := (mbind c (fun _ => k))
  (at level 61, right associativity).

Definition lift {A} (o : outcome A) : M A := ([], o).

(** A call that answers. *)
Definition ask {A} (e : Event) (answer : A) : M A := ([e], Ret answer).

(** A call that acts, and may raise. *)
Definition perform (w : World) (e : Event) : M unit :=
  ([e], match fails w e with Some x => Raise x | None => Ret tt end).

(** A call to the engine that answers, or raises. *)
Definition query_engine {A} (c : Call) (answer : outcome A) : M A :=
  ([engine c], answer).

Definition reply_text (r : Reply) : M unit := ([reply r], Ret tt).

(** [LOGGER.error(...)]. *)
Definition logger_error (e : exn) : M unit := ([log_error e], Ret tt).

(** [try: body  except Exception as e: handler]. *)
Definition try_catch {A} (body : M A) (handler : exn -> M A) : M A :=
  match body with
  | (t, Ret a) => (t, Ret a)
  | (t, Raise e) =>
      if is_Exception e then let (t', o) := handler e in (t ++ t', o)
      else (t, Raise e)
  end.

Definition trace {A} (m : M A) : list Event := fst m.

Definition opt_truthy (args : option string) : bool :=
  match args with Some s => str_truthy s | None => false end.

Definition str_of (args : option string) : string :=
  match args with Some s => s | None => EmptyString end.

(** [is_admin_or_reply] returns the chat id, or the message it sent. *)
Inductive id_or_message : Type := ChatId (chat : Z) | SentMessage.

Definition is_admin_or_reply (w : World) (msg : Message) : M id_or_message :=
  let chat := chat_id msg in
  active <- ask (ask_is_active chat) (is_active w chat) ;;
  if negb active then reply_text NoSongPlaying ;;; ret SentMessage
  else
    admin <- ask (ask_is_admin chat (from_user_id msg))
                 (is_admin w chat (from_user_id msg)) ;;
    if negb admin then reply_text MustBeAdmin ;;; ret SentMessage
    else ret (ChatId chat).

Definition handle_playback_action (w : World) (msg : Message)
  (action : Z -> Call) (success_msg fail_msg : string) : M unit :=
  r <- is_admin_or_reply w msg ;;
  match r with
  | SentMessage => ret tt
  | ChatId chat =>
      try_catch
        (perform w (engine (action chat)) ;;;
         reply_text (Done success_msg (mention msg)))
        (fun e => logger_error e ;;;
                  reply_text (Failed fail_msg e))
  end.

Definition seek_song (w : World) (msg : Message) : M unit :=
  let chat := chat_id msg in
  if 0 <? chat then ret tt
  else
    let args := extract_argument w (text msg) in
    if negb (opt_truthy args) then reply_text SeekUsage
    else
      seek_time <- lift (int_of_str (str_of args)) ;;
      if seek_time <? 20 then reply_text SeekTooShort
      else
        curr_song <- ask (ask_current_song chat) (get_current_song w chat) ;;
        match curr_song with
        | None => reply_text NoSongInChat
        | Some song =>
            curr_dur <- query_engine (call_played_time chat)
                                     (played_time w chat) ;;
            let seek_to := curr_dur + seek_time in
            if duration song <=? seek_to
            then reply_text (SeekPastEnd (duration song))
            else
              try_catch
                (perform w (engine (call_seek_stream chat (file_path song)
                                      seek_to (duration song))) ;;;
                 reply_text (Seeked seek_to (mention msg)))
                (fun e => logger_error e ;;;
                          reply_text (WentWrong e))
        end.

(** [[-+]?\d*\.?\d+] *)
Definition number_pattern : re :=
  seq (opt (one (fun c => Ascii.eqb c "-" || Ascii.eqb c "+")))
 (seq (many is_digit)
 (seq (opt (lit "."))
      (many1 is_digit))).

Definition extract_number (text : string) : option pyfloat :=
  match re_search number_pattern text with
  | Some group => Some (float_of group)
  | None => None
  end.

Definition change_speed (w : World) (msg : Message) : M unit :=
  let chat := chat_id msg in
  if 0 <? chat then ret tt
  else
    match extract_number (text msg) with
    | None => reply_text SpeedUsage
    | Some args =>
        admin <- ask (ask_is_admin chat (from_user_id msg))
                     (is_admin w chat (from_user_id msg)) ;;
        if negb admin then reply_text NeedAdmin
        else
          active <- ask (ask_is_active chat) (is_active w chat) ;;
          if negb active then reply_text NoSongInChat
          else
            let speed := round2 args in
            try_catch
              (perform w (engine (call_speed_change chat speed)) ;;;
               reply_text (SpeedChanged speed (mention msg)))
              (fun e => logger_error e ;;;
                        reply_text (WentWrong e))
    end.

Definition remove_song (w : World) (msg : Message) : M unit :=
  let chat := chat_id msg in
  if 0 <? chat then ret tt
  else
    let args := extract_argument w (text msg) in
    admin <- ask (ask_is_admin chat (from_user_id msg))
                 (is_admin w chat (from_user_id msg)) ;;
    if negb admin then reply_text NeedAdmin
    else
      active <- ask (ask_is_active chat) (is_active w chat) ;;
      if negb active then reply_text NoSongPlayingHere
      else if negb (opt_truthy args) then reply_text RemoveUsage
      else
        track_num <- lift (int_of_str (str_of args)) ;;
        _queue <- ask (ask_queue chat) (get_queue w chat) ;;
        match _queue with
        | [] => reply_text QueueEmpty
        | _ :: _ =>
            if (track_num <=? 0) || (Z.of_nat (List.length _queue) <? track_num)
            then reply_text (InvalidTrackNumber (List.length _queue))
            else
              try_catch
                (perform w (cache_remove_track chat track_num) ;;;
                 reply_text (TrackRemoved (mention msg)))
                (fun e => logger_error e ;;;
                          reply_text (WentWrong e))
        end.

Definition stop_song (w : World) (msg : Message) : M unit :=
  r <- is_admin_or_reply w msg ;;
  match r with
  | SentMessage => ret tt
  | ChatId chat =>
      try_catch
        (perform w (engine (call_end chat)) ;;;
         reply_text (StreamEnded (mention msg)))
        (fun e => logger_error e ;;;
                  reply_text (Failed "Failed to stop the song." e))
  end.

Definition pause_song (w : World) (msg : Message) : M unit :=
  handle_playback_action w msg call_pause
    "⏸️ <b>Stream Paused</b> 🥺" "Failed to pause the song".

Definition resume (w : World) (msg : Message) : M unit :=
  handle_playback_action w msg call_resume
    "🎶 <b>Stream Resumed</b> 💫" "Failed to resume the song".

Definition mute_song (w : World) (msg : Message) : M unit :=
  handle_playback_action w msg call_mute
    "🔇 <b>Stream Muted</b>" "Failed to mute the song".

Definition unmute_song (w : World) (msg : Message) : M unit :=
  handle_playback_action w msg call_unmute
    "🔊 <b>Stream Unmuted</b>" "Failed to unmute the song".

Definition volume (w : World) (msg : Message) : M unit :=
  r <- is_admin_or_reply w msg ;;
  match r with
  | SentMessage => ret tt
  | ChatId chat =>
      let args := extract_argument w (text msg) in
      if negb (opt_truthy args) then reply_text VolumeUsage
      else
        vol_int <- lift (int_of_str (str_of args)) ;;
        if vol_int =? 0 then reply_text UseMute
        else if negb ((1 <=? vol_int) && (vol_int <=? 200))
        then reply_text VolumeOutOfRange
        else
          try_catch
            (perform w (engine (call_change_volume chat vol_int)) ;;;
             reply_text (VolumeSet vol_int (mention msg)))
            (fun e => logger_error e ;;;
                      reply_text (Failed "Failed to change volume." e))
  end.

Definition skip_song (w : World) (msg : Message) : M unit :=
  r <- is_admin_or_reply w msg ;;
  match r with
  | SentMessage => ret tt
  | ChatId chat =>
      try_catch
        (perform w del_msg ;;;
         perform w (engine (call_play_next chat)) ;;;
         reply_text (SongSkipped (mention msg)))
        (fun e => logger_error e ;;;
                  reply_text (Failed "Failed to skip the song." e))
  end.

(** ** Reading a trace *)

Fixpoint engine_calls (t : list Event) : list Call :=
  match t with
  | engine c :: t' => c :: engine_calls t'
  | _ :: t' => engine_calls t'
  | [] => []
  end.

Definition is_seek (c : Call) : bool :=
  match c with call_seek_stream _ _ _ _ => true | _ => false end.

Definition seek_calls (t : list Event) : list Call :=
  filter is_seek (engine_calls t).

Fixpoint removals (t : list Event) : list (Z * Z) :=
  match t with
  | cache_remove_track chat n :: t' => (chat, n) :: removals t'
  | _ :: t' => removals t'
  | [] => []
  end.

Fixpoint replies (t : list Event) : list Reply :=
  match t with
  | reply r :: t' => r :: replies t'
  | _ :: t' => replies t'
  | [] => []
  end.

(** The run turned the request down: it answered, and only with
    rejections. *)
Definition rejected (t : list Event) : bool :=
  match replies t with
  | [] => false
  | rs => forallb is_rejection rs
  end.

(** The commands that start with [is_admin_or_reply]. *)
Definition playback_commands : list (World -> Message -> M unit) :=
  [stop_song; pause_song; resume; mute_song; unmute_song; volume; skip_song].

(** Modelled from the spec: the per-chat playback state of section 4.4
    ([Idle], [Playing], [Paused]), which the handlers do not keep; the
    cache only knows the active flag, set while a stream is attached to
    the voice engine. *)
Inductive PlaybackState : Type := Idle | Playing | Paused.

Definition active_flag (st : PlaybackState) : bool :=
  match st with Idle => false | Playing | Paused => true end.

(** ** Vocabulary and sample chats *)

(** The integer that the command was given: [int(args)]. *)
Definition argument_int (w : World) (msg : Message) : outcome Z :=
  int_of_str (str_of (extract_argument w (text msg))).

(** The chat is active and the sender is an admin. *)
Definition passes_check (w : World) (msg : Message) : bool :=
  is_active w (chat_id msg) && is_admin w (chat_id msg) (from_user_id msg).

Definition in_volume_range (v : Z) : bool := (1 <=? v) && (v <=? 200).

Definition in_queue_range (i : Z) (len : nat) : bool :=
  (1 <=? i) && (i <=? Z.of_nat len).

Definition song : CachedTrack :=
  mkCachedTrack "Song" "@alice" 180 0 "/tmp/song.mp3".

Definition next_song : CachedTrack :=
  mkCachedTrack "Next" "@bob" 200 0 "/tmp/next.mp3".

(** A chat that plays [song], 60 seconds in, with [next_song] queued;
    every sender is an admin, no call fails, and the argument of the
    command is [arg]. *)
Definition playing_world (arg : string) : World :=
  mkWorld (fun _ => Some arg) (fun _ => true) (fun _ _ => true)
          (fun _ => Some song) (fun _ => [song; next_song])
          (fun _ => Ret 60) (fun _ => None).

(** The same chat with the stream paused: still attached, so active. *)
Definition paused_world : World :=
  mkWorld (fun _ => None) (fun _ => active_flag Paused) (fun _ _ => true)
          (fun _ => Some song) (fun _ => [song; next_song])
          (fun _ => Ret 60) (fun _ => None).

(** A chat where nothing plays. *)
Definition quiet_world : World :=
  mkWorld (fun _ => Some "50") (fun _ => false) (fun _ _ => true)
          (fun _ => None) (fun _ => []) (fun _ => Ret 0) (fun _ => None).

Definition group_message (text : string) : Message :=
  mkMessage (-1001) 42 "@alice" text.

Definition private_message (text : string) : Message :=
  mkMessage 1001 42 "@alice" text.

End Funcs.

(* ================================================================== *)
(** * Further vocabulary for the properties below                      *)
(* ================================================================== *)

Module Notions.
Import Py YouTube.

(** A match of [r] on a text is still one when the text goes on. *)
Definition extends (r : re) : Prop :=
  forall s s' x, In s' (r s) -> In (s' ++ x)%string (r (s ++ x)%string).

(** The oEmbed address that [_get_youtube_url] asks for. *)
Definition oembed (url : string) : string :=
  ("https://www.youtube.com/oembed?url=" ++ url ++ "&format=json")%string.

(** [d.get(k, default)] on the items [d] of a dict. *)
Definition item (d : list (string * pyval)) (k : string) (default : pyval)
  : pyval :=
  match lookup k d with Some x => x | None => default end.

(** The one track that [_get_youtube_url] builds from the oEmbed answer
    [d] for the video [ident]. *)
Definition oembed_track (ident : string) (d : list (string * pyval))
  : MusicTrack :=
  mkMusicTrack (VStr ident) (item d "title" VNone) 0
               (item d "author_name" (VStr EmptyString))
               (item d "thumbnail_url" (VStr EmptyString)) 0 "youtube".

(** A search that answers with two well-formed entries. *)
Definition search_answers : Net :=
  mkNet (fun _ => unreachable)
        (fun _ => Ret (VDict [("result",
           VList [entry "v1" "First" "3:45"; entry "v2" "Second" "1:02:03"])]))
        (fun _ => unreachable) (fun _ => unreachable).

(** A search whose second entry lacks the fields of a track. *)
Definition search_with_bare_entry : Net :=
  mkNet (fun _ => unreachable)
        (fun _ => Ret (VDict [("result",
           VList [entry "v1" "First" "3:45"; bare_entry])]))
        (fun _ => unreachable) (fun _ => unreachable).

(** A playlist whose answer has no [videos] key. *)
Definition playlist_without_videos : Net :=
  mkNet (fun _ => unreachable) (fun _ => unreachable)
        (fun _ => Ret (VDict [("info", VDict [("title", VStr "Mix")])]))
        (fun _ => unreachable).

(** The exceptions that reading a payload raises: a missing index or key,
    a text that is no number, a value of the wrong type. *)
Definition parse_error (e : exn) : bool :=
  match e with
  | IndexError | KeyError | ValueError | TypeError | AttributeError => true
  | _ => false
  end.

(** No connection: every collaborator raises. *)
Definition offline : Net :=
  mkNet (fun _ => Raise (LibraryError "ConnectError"))
        (fun _ => Raise (LibraryError "ConnectError"))
        (fun _ => Raise (LibraryError "ConnectError"))
        (fun _ => Raise (LibraryError "ConnectError")).

(** A track as [get_track] returns it. *)
Definition some_track : TrackInfo :=
  mkTrackInfo "None" "None" (VStr "Song") (VStr "Channel") (VStr "abc")
              "YouTube" (VStr EmptyString) "None" 0 0.

End Notions.

Module Numbers.
Import Py.

(** The text holds a decimal digit. *)
Fixpoint has_digit (s : string) : bool :=
  match s with
  | EmptyString => false
  | String c s' => is_digit c || has_digit s'
  end.

Fixpoint all_digits (s : string) : bool :=
  match s with
  | EmptyString => true
  | String c s' => is_digit c && all_digits s'
  end.

(** What is left of [s] after its leading digits. *)
Fixpoint after_digits (s : string) : string :=
  match s with
  | String c s' => if is_digit c then after_digits s' else s
  | EmptyString => EmptyString
  end.

(** Digits, or digits (maybe none), a point and digits; one digit at
    least. *)
Definition unsigned_literal (s : string) : bool :=
  match after_digits s with
  | EmptyString => str_truthy s
  | String c frac => Ascii.eqb c "." && str_truthy frac && all_digits frac
  end.

Definition is_sign (c : ascii) : bool := Ascii.eqb c "-" || Ascii.eqb c "+".

(** A decimal literal that [float] reads: an optional sign, then an
    unsigned literal. *)
Definition float_literal (g : string) : bool :=
  match g with
  | String c g' => if is_sign c then unsigned_literal g' else unsigned_literal g
  | EmptyString => false
  end.

(** [g] occurs in [s]. *)
Definition occurs_in (g s : string) : Prop :=
  exists before after, s = (before ++ g ++ after)%string.

End Numbers.

Module Failures.
Import Py Funcs.

(** The questions about the sender's rights and the state of the chat. *)
Definition asks_permission (e : Event) : bool :=
  match e with
  | ask_is_admin _ _ | ask_is_active _ => true
  | _ => false
  end.

Definition is_none {A} (o : option A) : bool :=
  match o with None => true | Some _ => false end.

(** [playing_world] with a voice engine whose every call raises [e]. *)
Definition broken_engine (e : exn) : World :=
  mkWorld (fun _ => Some "30") (fun _ => true) (fun _ _ => true)
          (fun _ => Some song) (fun _ => [song; next_song])
          (fun _ => Ret 60)
          (fun ev => match ev with engine _ => Some e | _ => None end).

(** [playing_world] where the engine has lost the call: it cannot tell
    the played time. *)
Definition lost_call : World :=
  mkWorld (fun _ => Some "30") (fun _ => true) (fun _ _ => true)
          (fun _ => Some song) (fun _ => [song; next_song])
          (fun _ => Raise (LibraryError "NotInCallError")) (fun _ => None).

End Failures.

(* ================================================================== *)
(** * The playback commands when every awaited call may raise          *)
(* ================================================================== *)

(** In [Funcs] a question to the cache or to the admin check and the
    sending of a reply are taken to succeed.  Here they are awaited calls
    like the others: [fails] says for every event whether the call
    raises, a question and a reply included.  The handlers are the ones of
    [Funcs], line by line; they agree with them in a world where questions
    and replies do not fail.  [extract_argument] and [LOGGER.error] are
    plain calls, not awaited ones, and are taken to return. *)

Module Fallible.
Import Py Funcs.

(** A question that is answered, unless the call raises. *)
Definition asking {A} (w : World) (e : Event) (answer : A) : M A :=
  perform w e ;;; ret answer.

Definition reply_text (w : World) (r : Reply) : M unit :=
  perform w (reply r).

Definition is_admin_or_reply (w : World) (msg : Message) : M id_or_message :=
  let chat := chat_id msg in
  active <- asking w (ask_is_active chat) (is_active w chat) ;;
  if negb active then reply_text w NoSongPlaying ;;; ret SentMessage
  else
    admin <- asking w (ask_is_admin chat (from_user_id msg))
                    (is_admin w chat (from_user_id msg)) ;;
    if negb admin then reply_text w MustBeAdmin ;;; ret SentMessage
    else ret (ChatId chat).

Definition handle_playback_action (w : World) (msg : Message)
  (action : Z -> Call) (success_msg fail_msg : string) : M unit :=
  r <- is_admin_or_reply w msg ;;
  match r with
  | SentMessage => ret tt
  | ChatId chat =>
      try_catch
        (perform w (engine (action chat)) ;;;
         reply_text w (Done success_msg (mention msg)))
        (fun e => logger_error e ;;;
                  reply_text w (Failed fail_msg e))
  end.

Definition stop_song (w : World) (msg : Message) : M unit :=
  r <- is_admin_or_reply w msg ;;
  match r with
  | SentMessage => ret tt
  | ChatId chat =>
      try_catch
        (perform w (engine (call_end chat)) ;;;
         reply_text w (StreamEnded (mention msg)))
        (fun e => logger_error e ;;;
                  reply_text w (Failed "Failed to stop the song." e))
  end.

Definition pause_song (w : World) (msg : Message) : M unit :=
  handle_playback_action w msg call_pause
    "⏸️ <b>Stream Paused</b> 🥺" "Failed to pause the song".

Definition resume (w : World) (msg : Message) : M unit :=
  handle_playback_action w msg call_resume
    "🎶 <b>Stream Resumed</b> 💫" "Failed to resume the song".

Definition mute_song (w : World) (msg : Message) : M unit :=
  handle_playback_action w msg call_mute
    "🔇 <b>Stream Muted</b>" "Failed to mute the song".

Definition unmute_song (w : World) (msg : Message) : M unit :=
  handle_playback_action w msg call_unmute
    "🔊 <b>Stream Unmuted</b>" "Failed to unmute the song".

Definition skip_song (w : World) (msg : Message) : M unit :=
  r <- is_admin_or_reply w msg ;;
  match r with
  | SentMessage => ret tt
  | ChatId chat =>
      try_catch
        (perform w del_msg ;;;
         perform w (engine (call_play_next chat)) ;;;
         reply_text w (SongSkipped (mention msg)))
        (fun e => logger_error e ;;;
                  reply_text w (Failed "Failed to skip the song." e))
  end.

Definition seek_song (w : World) (msg : Message) : M unit :=
  let chat := chat_id msg in
  if 0 <? chat then ret tt
  else
    let args := extract_argument w (text msg) in
    if negb (opt_truthy args) then reply_text w SeekUsage
    else
      seek_time <- lift (int_of_str (str_of args)) ;;
      if seek_time <? 20 then reply_text w SeekTooShort
      else
        curr_song <- asking w (ask_current_song chat)
                            (get_current_song w chat) ;;
        match curr_song with
        | None => reply_text w NoSongInChat
        | Some song =>
            curr_dur <- query_engine (call_played_time chat)
                                     (played_time w chat) ;;
            let seek_to := curr_dur + seek_time in
            if duration song <=? seek_to
            then reply_text w (SeekPastEnd (duration song))
            else
              try_catch
                (perform w (engine (call_seek_stream chat (file_path song)
                                      seek_to (duration song))) ;;;
                 reply_text w (Seeked seek_to (mention msg)))
                (fun e => logger_error e ;;;
                          reply_text w (WentWrong e))
        end.

(** ** Vocabulary and sample chats *)

(** The commands whose calls that act all lie in a [try] block. *)
Definition guarded_commands : list (World -> Message -> M unit) :=
  [stop_song; pause_song; resume; mute_song; unmute_song; skip_song].

(** The calls that these handlers make inside a [try] block: the calls
    that act on the engine, the deletion of the command message and the
    reply that tells of success. *)
Definition guarded (e : Event) : bool :=
  match e with
  | engine (call_played_time _) => false
  | engine _ | del_msg => true
  | reply (Done _ _) | reply (StreamEnded _) | reply (SongSkipped _)
  | reply (Seeked _ _) => true
  | _ => false
  end.

(** Questions and replies. *)
Definition talks (e : Event) : bool :=
  match e with
  | ask_is_active _ | ask_is_admin _ _ | ask_current_song _ | ask_queue _
  | reply _ => true
  | _ => false
  end.

(** The world of [Funcs]: no question and no reply fails. *)
Definition obliging (w : World) : Prop :=
  forall e, talks e = true -> fails w e = None.

(** Only calls inside the [try] blocks fail, and with an [Exception]. *)
Definition only_guarded_fail (w : World) : Prop :=
  forall ev e, fails w ev = Some e -> guarded ev = true /\ is_Exception e = true.

Fixpoint last_event (t : list Event) : option Event :=
  match t with
  | [] => None
  | [e] => Some e
  | _ :: t' => last_event t'
  end.

(** The reply went through. *)
Definition delivered (w : World) (t : list Event) (r : Reply) : Prop :=
  In (reply r) t /\ fails w (reply r) = None.

(** [playing_world] where Telegram refuses every reply. *)
Definition no_replies : World :=
  mkWorld (fun _ => Some "30") (fun _ => true) (fun _ _ => true)
          (fun _ => Some song) (fun _ => [song; next_song])
          (fun _ => Ret 60)
          (fun ev => match ev with
                     | reply _ => Some (LibraryError "RPCError")
                     | _ => None
                     end).

End Fallible.

(* ================================================================== *)
(** * [src/modules/funcs.py]: the settings, the queue and the buttons  *)
(* ================================================================== *)

(** The handlers [set_play_type], [modify_loop], [clear_queue] and
    [callback_query].  They talk to more collaborators than the playback
    commands do: the database, the loop count and the queue of the cache,
    the buttons under a message, the platform lookup and [play_music].
    Their runs are sequences of [Effect]s.  The [try] blocks of
    [callback_query] enclose the answers to the user, so here every call
    that acts on the outside may raise, sending a text included; asking
    the cache or the admin check is still taken to succeed. *)

Module Controls.
Import Py Funcs.

Inductive LoopAction : Type :=
| disabled                      (* disabled *)
| changed_to (loop : Z).        (* changed to {loop} times *)

(** The keyboards of [src.modules.utils]. *)
Inductive Markup : Type := PauseButton | ResumeButton.

(** The texts that these handlers send and that [Reply] does not have. *)
Inductive Text : Type :=
| PlayTypeUsage                 (* Usage: /setPlayType 0/1 ... *)
| InvalidPlayType               (* Invalid option! Please use: ... *)
| PlayTypeSet (play_type : Z)   (* Play type set to {play_type} *)
| PlayTypeFailed                (* Failed to set play type. Please try again. *)
| LoopUsage                     (* Usage: /loop times ... *)
| LoopSet (action : LoopAction) (who : string)  (* Loop {action} ... Action by *)
| QueueAlreadyEmpty             (* The queue is already empty! *)
| QueueCleared (who : string)   (* Queue cleared ... Action by *)
| NothingPlaying                (* Nothing is currently playing in this chat. *)
| Skipped                       (* Song skipped *)
| NextNotFound                  (* Error: Next song not found to play. *)
| StreamStopped (first_name : string)    (* Stream stopped: ... Requested by *)
| StopError                     (* Error stopping the stream. Please try again. *)
| StreamPaused (first_name : string)     (* Stream paused: ... Requested by *)
| PauseError                    (* Error pausing the stream. Please try again. *)
| StreamResumed (first_name : string)    (* Stream resumed: ... Requested by *)
| ResumeError                   (* Error resuming the stream. Please try again. *)
| PlayingFor (first_name : string)       (* Playing song for {first_name} *)
| Searching (first_name : string)        (* Searching ... Requested by *)
| InvalidPlatform (platform : string)    (* Error: Invalid Platform WTF ? *)
| SongNotFound.                 (* Error: Song not found on Spotify. ... *)

(** The message that [edit_text] works on: the message under the button,
    or the one that the first [edit_text] returned. *)
Inductive Handle : Type := message_message | reply_message.

Inductive Effect : Type :=
| did (e : Event)               (* what the playback commands do as well *)
| db_set_play_type (chat play_type : Z)
| cache_set_loop_count (chat loop : Z)
| cache_clear_chat (chat : Z)
| reply_with (t : Text)         (* msg.reply_text *)
| answer (t : Text)             (* message.answer(..., show_alert=True) *)
| edit_text (msg : Handle) (t : Text) (markup : option Markup)
| del_message                   (* del_msg(message.message) *)
| log_warning (e : exn)
| log_info (data : string)
| wrapper_get_info (url : string)  (* MusicServiceWrapper(url).get_info() *)
| play_music (song : YouTube.PlatformTracks) (first_name : string).

(** The collaborators: the ones of the playback commands, which of the
    other calls raise, [_get_platform_url] of [src.modules.play] and
    [MusicServiceWrapper(url).get_info()]. *)
Record Desk : Type := mkDesk {
  world : World;
  breaks : Effect -> option exn;
  _get_platform_url : string -> string -> option string;
  get_info : string -> outcome (option YouTube.PlatformTracks)
}.

(** The fields of [types.CallbackQuery] that the handler reads: [data],
    [message.chat.id], [message.caption] and [from_user.first_name]. *)
Record CallbackQuery : Type := mkCallbackQuery {
  data : string;
  message_chat_id : Z;
  caption : option string;
  first_name : string
}.

Definition Run (A : Type) : Type := (list Effect * outcome A)%type.

Definition done {A} (a : A) : Run A := ([], Ret a).

Definition and_then {A B} (m : Run A) (k : A -> Run B) : Run B :=
  match m with
  | (t, Ret a) => let (t', o) := k a in (t ++ t', o)
  | (t, Raise e) => (t, Raise e)
  end.

Declare Scope run_scope.
Delimit Scope run_scope with run.
Notation "x <- c ;; k" := (and_then c (fun x => k))
  (at level 61, c at next level, right associativity) : run_scope.
Notation "c ;;; k" := (and_then c (fun _ => k))
  (at level 61, right associativity) : run_scope.
Local Open Scope run_scope.

Definition raises (d : Desk) (e : Effect) : option exn :=
  match e with
  | did ev => fails (world d) ev
  | _ => breaks d e
  end.

(** A call that acts, and may raise. *)
Definition act (d : Desk) (e : Effect) : Run unit :=
  ([e], match raises d e with Some x => Raise x | None => Ret tt end).

(** A call that answers. *)
Definition asked {A} (e : Event) (a : A) : Run A := ([did e], Ret a).

(** A line in the log. *)
Definition note (e : Effect) : Run unit := ([e], Ret tt).

Definition of_outcome {A} (o : outcome A) : Run A := ([], o).

(** [try: body  except Exception as e: handler]. *)
Definition attempt {A} (body : Run A) (handler : exn -> Run A) : Run A :=
  match body with
  | (t, Ret a) => (t, Ret a)
  | (t, Raise e) =>
      if is_Exception e then let (t', o) := handler e in (t ++ t', o)
      else (t, Raise e)
  end.

Definition effects {A} (r : Run A) : list Effect := fst r.

Definition set_play_type (d : Desk) (msg : Message) : Run unit :=
  let chat := chat_id msg in
  if 0 <? chat then done tt
  else
    let play_type := extract_argument (world d) (text msg) in
    if negb (opt_truthy play_type) then act d (reply_with PlayTypeUsage)
    else
      play_type <- of_outcome (int_of_str (str_of play_type)) ;;
      if negb ((play_type =? 0) || (play_type =? 1))
      then act d (reply_with InvalidPlayType)
      else
        attempt
          (act d (db_set_play_type chat play_type) ;;;
           act d (reply_with (PlayTypeSet play_type)))
          (fun e => note (did (log_error e)) ;;;
                    act d (reply_with PlayTypeFailed)).

Definition modify_loop (d : Desk) (msg : Message) : Run unit :=
  let chat := chat_id msg in
  if 0 <? chat then done tt
  else
    let args := extract_argument (world d) (text msg) in
    admin <- asked (ask_is_admin chat (from_user_id msg))
                   (is_admin (world d) chat (from_user_id msg)) ;;
    if negb admin then act d (did (reply NeedAdmin))
    else
      active <- asked (ask_is_active chat) (is_active (world d) chat) ;;
      if negb active then act d (did (reply NoSongInChat))
      else if negb (opt_truthy args) then act d (reply_with LoopUsage)
      else
        loop <- of_outcome (int_of_str (str_of args)) ;;
        attempt
          (act d (cache_set_loop_count chat loop) ;;;
           let action := if loop =? 0 then disabled else changed_to loop in
           act d (reply_with (LoopSet action (mention msg))))
          (fun e => note (did (log_error e)) ;;;
                    act d (did (reply (WentWrong e)))).

Definition clear_queue (d : Desk) (msg : Message) : Run unit :=
  let chat := chat_id msg in
  if 0 <? chat then done tt
  else
    admin <- asked (ask_is_admin chat (from_user_id msg))
                   (is_admin (world d) chat (from_user_id msg)) ;;
    if negb admin then act d (did (reply NeedAdmin))
    else
      active <- asked (ask_is_active chat) (is_active (world d) chat) ;;
      if negb active then act d (did (reply NoSongInChat))
      else
        _queue <- asked (ask_queue chat) (get_queue (world d) chat) ;;
        match _queue with
        | [] => act d (reply_with QueueAlreadyEmpty)
        | _ :: _ =>
            attempt
              (act d (cache_clear_chat chat) ;;;
               act d (reply_with (QueueCleared (mention msg))))
              (fun e => note (did (log_error e)) ;;;
                        act d (did (reply (WentWrong e))))
        end.

(** [s.split(sep, maxsplit)] for a non-empty [sep]: as [split_go], with
    [maxsplit] cuts at most; the text after the last cut is one piece. *)
Fixpoint split_max_go (sep : string) (maxsplit skip : nat) (cur s : string)
  : list string :=
  match s with
  | EmptyString => [cur]
  | String c s' =>
      match skip with
      | S k => split_max_go sep maxsplit k cur s'
      | O =>
          match maxsplit with
          | O => [(cur ++ s)%string]
          | S m =>
              if prefix sep s
              then cur :: split_max_go sep m (Nat.pred (String.length sep))
                                       EmptyString s'
              else split_max_go sep maxsplit O
                                (cur ++ String c EmptyString)%string s'
          end
      end
  end.

Definition split_max (sep : string) (maxsplit : nat) (s : string)
  : list string :=
  split_max_go sep maxsplit O EmptyString s.

(** [_, b, c = pieces]. *)
Definition unpack3 (pieces : list string) : outcome (string * string) :=
  match pieces with
  | [_; b; c] => Ret (b, c)
  | _ => Raise ValueError
  end.

(** The local function [send_response] of [callback_query]. *)
Definition send_response (d : Desk) (q : CallbackQuery) (msg : Text)
  (alert delete : bool) (markup : option Markup) : Run unit :=
  if alert then
    act d (answer msg) ;;;
    if delete then act d del_message else done tt
  else if opt_truthy (caption q) then
    act d (edit_text message_message msg markup)
  else
    act d (edit_text message_message msg markup) ;;;
    if delete then act d del_message else done tt.

(** The last branch of [callback_query], after [data] has been taken
    apart. *)
Definition play_song (d : Desk) (q : CallbackQuery) (platform song_id : string)
  : Run unit :=
  let user := first_name q in
  act d (answer (PlayingFor user)) ;;;
  act d (edit_text message_message (Searching user) None) ;;;
  let url := _get_platform_url d platform song_id in
  if negb (opt_truthy url)
  then act d (edit_text reply_message (InvalidPlatform platform) None)
  else
    _song <- ([wrapper_get_info (str_of url)], get_info d (str_of url)) ;;
    match _song with
    | Some song => act d (play_music song user)
    | None => act d (edit_text reply_message SongNotFound None)
    end.

Definition callback_query (d : Desk) (q : CallbackQuery) : Run unit :=
  let chat := message_chat_id q in
  let user := first_name q in
  if String.eqb (data q) "play_skip" then
    active <- asked (ask_is_active chat) (is_active (world d) chat) ;;
    if negb active then send_response d q NothingPlaying true false None
    else
      attempt
        (act d (did (engine (call_play_next chat))) ;;;
         send_response d q Skipped false true None)
        (fun e => note (log_warning e) ;;;
                  send_response d q NextNotFound true false None)
  else if String.eqb (data q) "play_stop" then
    active <- asked (ask_is_active chat) (is_active (world d) chat) ;;
    if negb active
    then send_response d q (StreamStopped user) false false None
    else
      attempt
        (act d (cache_clear_chat chat) ;;;
         act d (did (engine (call_end chat))) ;;;
         send_response d q (StreamStopped user) false false None)
        (fun e => note (log_warning e) ;;;
                  send_response d q StopError true false None)
  else if String.eqb (data q) "play_pause" then
    active <- asked (ask_is_active chat) (is_active (world d) chat) ;;
    if negb active then send_response d q NothingPlaying true false None
    else
      attempt
        (act d (did (engine (call_pause chat))) ;;;
         send_response d q (StreamPaused user) false false (Some PauseButton))
        (fun e => note (log_warning e) ;;;
                  send_response d q PauseError true false None)
  else if String.eqb (data q) "play_resume" then
    active <- asked (ask_is_active chat) (is_active (world d) chat) ;;
    if negb active then send_response d q NothingPlaying true false None
    else
      attempt
        (act d (did (engine (call_resume chat))) ;;;
         send_response d q (StreamResumed user) false false
                       (Some ResumeButton))
        (fun e => note (log_warning e) ;;;
                  send_response d q ResumeError true false None)
  else
    note (log_info (data q)) ;;;
    pieces <- of_outcome (unpack3 (split_max "_" 2 (data q))) ;;
    play_song d q (fst pieces) (snd pieces).

(** ** Reading a run *)

Fixpoint calls (t : list Effect) : list Call :=
  match t with
  | did (engine c) :: t' => c :: calls t'
  | _ :: t' => calls t'
  | [] => []
  end.

Definition asks_admin (e : Effect) : bool :=
  match e with did (ask_is_admin _ _) => true | _ => false end.

Definition asks_leave (e : Effect) : bool :=
  match e with
  | did (ask_is_admin _ _) | did (ask_is_active _) => true
  | _ => false
  end.

(** The four buttons under a playing message, and the call to the engine
    that each stands for. *)
Definition button_call (data : string) (chat : Z) : option Call :=
  if String.eqb data "play_skip" then Some (call_play_next chat)
  else if String.eqb data "play_stop" then Some (call_end chat)
  else if String.eqb data "play_pause" then Some (call_pause chat)
  else if String.eqb data "play_resume" then Some (call_resume chat)
  else None.

Fixpoint count (a : ascii) (s : string) : nat :=
  match s with
  | EmptyString => O
  | String c s' => ((if Ascii.eqb c a then 1 else 0) + count a s')%nat
  end.

(** ** Sample desks *)

(** A desk at [w] where no call fails, the platform [youtube] is known
    and the song is found. *)
Definition front_desk (w : World) : Desk :=
  mkDesk w (fun _ => None)
         (fun platform song_id =>
            if String.eqb platform "youtube"
            then Some ("https://youtube.com/watch?v=" ++ song_id)%string
            else None)
         (fun _ => Ret (Some (YouTube.mkPlatformTracks []))).

(** The same desk where the queue of the cache cannot be cleared. *)
Definition stuck_cache (w : World) : Desk :=
  mkDesk w (fun e => match e with
                     | cache_clear_chat _ => Some (LibraryError "CacheError")
                     | _ => None
                     end)
         (fun _ _ => None) (fun _ => Ret None).

Definition button (data : string) (caption : option string) : CallbackQuery :=
  mkCallbackQuery data (-1001) caption "Alice".

End Controls.

(* ================================================================== *)
(** * Facts about the string primitives                                *)
(* ================================================================== *)

Section StringFacts.
Import Py.

Lemma append_empty_r (s : string) : (s ++ EmptyString)%string = s.
Proof. induction s as [|c s IH]; simpl; [reflexivity | now rewrite IH]. Qed.

Lemma append_assoc (a b c : string) :
  ((a ++ b) ++ c)%string = (a ++ (b ++ c))%string.
Proof. induction a as [|x a IH]; simpl; [reflexivity | now rewrite IH]. Qed.

Lemma str_in_cons (sub : string) (c : ascii) (s : string) :
  str_in sub (String c s) = false ->
  prefix sub (String c s) = false /\ str_in sub s = false.
Proof. simpl str_in. intros H. apply orb_false_iff in H. exact H. Qed.

(** A text without the separator is one piece. *)
Lemma split_go_absent (sep : string) :
  forall s cur, str_in sep s = false ->
  split_go sep O cur s = [(cur ++ s)%string].
Proof.
  induction s as [|c s IH]; intros cur H.
  - simpl. now rewrite append_empty_r.
  - destruct (str_in_cons _ _ _ H) as [Hp Hs].
    cbn [split_go]. rewrite Hp. rewrite (IH _ Hs).
    now rewrite append_assoc.
Qed.

Lemma split_absent (sep s : string) :
  str_in sep s = false -> split sep s = [s].
Proof. intros H. unfold split. now rewrite split_go_absent. Qed.

Lemma prefix_one (a c : ascii) (s : string) :
  prefix (String a EmptyString) (String c s) = Ascii.eqb a c.
Proof.
  simpl. destruct (ascii_dec a c) as [->|n].
  - rewrite Ascii.eqb_refl. now destruct s.
  - symmetry. now apply Ascii.eqb_neq.
Qed.

(** With a one-character separator, the first piece is the text before
    its first occurrence. *)
Lemma split_go_first (a : ascii) (rest : string) :
  forall head cur, str_in (String a EmptyString) head = false ->
  split_go (String a EmptyString) O cur (head ++ String a rest)%string
  = (cur ++ head)%string :: split_go (String a EmptyString) O EmptyString rest.
Proof.
  induction head as [|c head IH]; intros cur H.
  - cbn [append split_go]. rewrite prefix_one, Ascii.eqb_refl.
    now rewrite append_empty_r.
  - destruct (str_in_cons _ _ _ H) as [Hp Hs].
    rewrite prefix_one in Hp.
    cbn [append split_go]. rewrite prefix_one, Hp.
    rewrite (IH _ Hs). now rewrite append_assoc.
Qed.

Lemma split_first (a : ascii) (head rest : string) :
  str_in (String a EmptyString) head = false ->
  split (String a EmptyString) (head ++ String a rest)%string
  = head :: split (String a EmptyString) rest.
Proof. intros H. unfold split. now rewrite split_go_first. Qed.

Lemma str_in_found (a : ascii) (head rest : string) :
  str_in (String a EmptyString) (head ++ String a rest)%string = true.
Proof.
  induction head as [|c head IH].
  - cbn [append str_in]. now rewrite prefix_one, Ascii.eqb_refl.
  - cbn [append]. cbn [str_in]. change (String c head ++ String a rest)%string
      with (String c (head ++ String a rest)) in *.
    rewrite IH. apply orb_true_r.
Qed.

End StringFacts.

Section Numerals.
Import Py.

Lemma digit_not_space (c : ascii) : is_digit c = true -> is_space c = false.
Proof.
  unfold is_digit, is_space. intros H.
  apply andb_true_iff in H as [H1 H2].
  apply Nat.leb_le in H1. apply Nat.leb_le in H2.
  apply orb_false_iff. split.
  - apply andb_false_iff. right. apply Nat.leb_gt. lia.
  - apply Nat.eqb_neq. lia.
Qed.

Lemma digit_not_sign (c : ascii) :
  is_digit c = true -> Ascii.eqb c "-" = false /\ Ascii.eqb c "+" = false.
Proof.
  intros H. split; apply Ascii.eqb_neq; intros ->; discriminate.
Qed.

Lemma digit_not_colon (c : ascii) :
  is_digit c = true -> Ascii.eqb ":" c = false.
Proof. intros H. apply Ascii.eqb_neq. intros <-. discriminate. Qed.

Lemma lstrip_digit_first (c : ascii) (l : list ascii) :
  is_digit c = true -> lstrip (c :: l) = c :: l.
Proof. intros H. cbn [lstrip]. now rewrite (digit_not_space c H). Qed.

Lemma strip_digits (l : list ascii) :
  forallb is_digit l = true -> strip l = l.
Proof.
  intros H. unfold strip.
  assert (H1 : lstrip l = l).
  { destruct l as [|c l]; [reflexivity|]. cbn [forallb] in H.
    apply andb_true_iff in H as [Hc _]. now apply lstrip_digit_first. }
  rewrite H1.
  assert (H2 : lstrip (rev l) = rev l).
  { destruct (rev l) as [|c r] eqn:E; [reflexivity|].
    apply lstrip_digit_first.
    rewrite forallb_forall in H. apply H. apply in_rev. rewrite E. now left. }
  rewrite H2. apply rev_involutive.
Qed.

Lemma int_digits_decimal (l : list ascii) :
  forallb is_digit l = true ->
  forall prev acc n,
    (prev = true \/ l <> []) ->
    int_digits prev acc n l = Some (decimal acc l, (n + List.length l)%nat).
Proof.
  induction l as [|c l IH]; intros H prev acc n Hp.
  - destruct Hp as [->|Hp]; [|now elim Hp]. cbn. now rewrite Nat.add_0_r.
  - cbn [forallb] in H. apply andb_true_iff in H as [Hc Hl].
    cbn [int_digits]. rewrite Hc. rewrite (IH Hl true _ _ (or_introl eq_refl)).
    cbn [decimal fold_left List.length]. f_equal. f_equal. lia.
Qed.

(** [int] reads a numeral as the number it writes. *)
Lemma int_of_numeral (s : string) :
  numeral s = true -> int_of_str s = Ret (value s).
Proof.
  unfold numeral, int_of_str, value. intros H.
  apply andb_true_iff in H as [H Hmax]. apply andb_true_iff in H as [Hd Hne].
  rewrite (strip_digits _ Hd).
  destruct (list_ascii_of_string s) as [|c l] eqn:E; [discriminate|].
  assert (Hc : is_digit c = true)
    by (cbn [forallb] in Hd; now apply andb_true_iff in Hd as [Hc _]).
  destruct (digit_not_sign c Hc) as [Hm Hp]. rewrite Hm, Hp.
  unfold int_unsigned.
  rewrite (int_digits_decimal (c :: l) Hd false 0 0%nat)
    by (right; discriminate).
  cbn [Nat.add].
  apply Nat.leb_le in Hmax.
  destruct (Nat.ltb_spec int_max_str_digits (List.length (c :: l))) as [?|_];
    [lia | reflexivity].
Qed.

Lemma numeral_without_colon (s : string) :
  numeral s = true -> str_in ":" s = false.
Proof.
  unfold numeral. intros H.
  apply andb_true_iff in H as [H _]. apply andb_true_iff in H as [Hd _].
  induction s as [|c s IH]; [reflexivity|].
  cbn [list_ascii_of_string forallb] in Hd.
  apply andb_true_iff in Hd as [Hc Hs].
  cbn [str_in]. rewrite prefix_one, (digit_not_colon c Hc), (IH Hs).
  reflexivity.
Qed.

End Numerals.

(* ================================================================== *)
(** * Patterns that match in one way at most                           *)
(* ================================================================== *)

Section Deterministic.
Import Py.

Lemma det_lit (p : string) : det (lit p).
Proof.
  induction p as [|a p IH]; intros s.
  - right. now exists s.
  - destruct s as [|c s]; [now left|]. cbn [lit].
    destruct (Ascii.eqb (lower a) (lower c)); [apply IH | now left].
Qed.

Lemma det_seq (r1 r2 : re) : det r1 -> det r2 -> det (seq r1 r2).
Proof.
  intros H1 H2 s. unfold seq.
  destruct (H1 s) as [E|[s' E]]; rewrite E; cbn [flat_map].
  - now left.
  - rewrite app_nil_r. apply H2.
Qed.

Lemma det_alt (r1 r2 : re) : det r1 -> det r2 -> excl r1 r2 -> det (alt r1 r2).
Proof.
  intros H1 H2 Hx s. unfold alt.
  destruct (Hx s) as [E|E]; rewrite E.
  - apply H2.
  - rewrite app_nil_r. apply H1.
Qed.

Lemma seq_opt (r x : re) (s : string) :
  seq (opt r) x s = alt (seq r x) x s.
Proof.
  unfold seq, opt, alt. rewrite flat_map_app. cbn [flat_map].
  now rewrite app_nil_r.
Qed.

Lemma det_seq_opt (r x : re) :
  det r -> det x -> excl (seq r x) x -> det (seq (opt r) x).
Proof.
  intros H1 H2 Hx s. rewrite seq_opt.
  apply det_alt; auto using det_seq.
Qed.

Lemma first_in_lit (a : ascii) (p : string) :
  first_in [lower a] (lit (String a p)).
Proof.
  intros s H. destruct s as [|c s]; [now elim H|]. cbn [lit] in H.
  exists c, s. split; [reflexivity|]. cbn [existsb].
  destruct (Ascii.eqb_spec (lower a) (lower c)) as [E|E]; [|now elim H].
  rewrite <- E, Ascii.eqb_refl. reflexivity.
Qed.

Lemma first_in_seq (cs : list ascii) (r1 r2 : re) :
  first_in cs r1 -> first_in cs (seq r1 r2).
Proof.
  intros H s Hs. apply H. intros E. apply Hs. unfold seq. now rewrite E.
Qed.

Lemma first_in_alt (cs1 cs2 : list ascii) (r1 r2 : re) :
  first_in cs1 r1 -> first_in cs2 r2 -> first_in (cs1 ++ cs2) (alt r1 r2).
Proof.
  intros H1 H2 s Hs. unfold alt in Hs.
  destruct (r1 s) as [|x l] eqn:E1.
  - destruct (H2 s Hs) as (c & s' & -> & Hc). exists c, s'.
    split; [reflexivity|]. rewrite existsb_app, Hc. apply orb_true_r.
  - destruct (H1 s) as (c & s' & -> & Hc); [now rewrite E1|]. exists c, s'.
    split; [reflexivity|]. now rewrite existsb_app, Hc.
Qed.

Lemma first_in_seq_opt (cs1 cs2 : list ascii) (r x : re) :
  first_in cs1 r -> first_in cs2 x -> first_in (cs1 ++ cs2) (seq (opt r) x).
Proof.
  intros H1 H2 s Hs. rewrite seq_opt in Hs.
  exact (first_in_alt cs1 cs2 _ _ (first_in_seq _ _ _ H1) H2 s Hs).
Qed.

Lemma apart_excl (cs1 cs2 : list ascii) (r1 r2 : re) :
  first_in cs1 r1 -> first_in cs2 r2 -> apart cs1 cs2 = true -> excl r1 r2.
Proof.
  intros H1 H2 Ha s.
  destruct (r1 s) as [|x1 l1] eqn:E1; [now left|].
  destruct (r2 s) as [|x2 l2] eqn:E2; [now right|]. exfalso.
  destruct (H1 s) as (c & s' & -> & Hc1); [now rewrite E1|].
  destruct (H2 (String c s')) as (c' & s'' & [= <- <-] & Hc2); [now rewrite E2|].
  apply existsb_exists in Hc1 as (a & Ia & Ea).
  apply Ascii.eqb_eq in Ea. subst a.
  unfold apart in Ha. rewrite forallb_forall in Ha.
  specialize (Ha _ Ia). now rewrite Hc2 in Ha.
Qed.

Lemma seq_assoc (r1 r2 r3 : re) (s : string) :
  seq r1 (seq r2 r3) s = seq (seq r1 r2) r3 s.
Proof.
  unfold seq. induction (r1 s) as [|x l IH]; [reflexivity|].
  cbn [flat_map]. now rewrite flat_map_app, IH.
Qed.

End Deterministic.

Section Patterns.
Import Py YouTube.

Lemma site_factors (tail : re) (s : string) :
  site tail s = seq site_prefix tail s.
Proof.
  unfold site, site_prefix.
  rewrite <- !seq_assoc. unfold seq at 1 3.
  apply flat_map_ext. intros s1.
  rewrite <- !seq_assoc. unfold seq at 1 3.
  apply flat_map_ext. intros s2.
  now rewrite <- !seq_assoc.
Qed.

Lemma det_site_prefix : det site_prefix.
Proof.
  assert (Hhost : det (seq (alt (lit "youtube.com") (lit "music.youtube.com"))
                           (lit "/"))).
  { apply det_seq; [|apply det_lit].
    apply det_alt; try apply det_lit.
    eapply apart_excl; [apply first_in_lit | apply first_in_lit | reflexivity]. }
  assert (Fhost : first_in ["y"; "m"]%char
            (seq (alt (lit "youtube.com") (lit "music.youtube.com")) (lit "/"))).
  { apply first_in_seq.
    exact (first_in_alt _ _ _ _ (first_in_lit "y" _) (first_in_lit "m" _)). }
  assert (Hwww : det (seq (opt (lit "www."))
            (seq (alt (lit "youtube.com") (lit "music.youtube.com")) (lit "/")))).
  { apply det_seq_opt; [apply det_lit | exact Hhost|].
    eapply apart_excl;
      [apply first_in_seq, first_in_lit | exact Fhost | reflexivity]. }
  assert (Fwww : first_in ["w"; "y"; "m"]%char (seq (opt (lit "www."))
            (seq (alt (lit "youtube.com") (lit "music.youtube.com")) (lit "/")))).
  { exact (first_in_seq_opt _ _ _ _ (first_in_lit "w" _) Fhost). }
  unfold site_prefix. apply det_seq_opt; [|exact Hwww|].
  - apply det_seq; [apply det_lit|].
    apply det_seq_opt; try apply det_lit.
    eapply apart_excl;
      [apply first_in_seq, first_in_lit | apply first_in_lit | reflexivity].
  - eapply apart_excl;
      [apply first_in_seq, first_in_seq, first_in_lit | exact Fwww | reflexivity].
Qed.

(** A playlist URL is never taken for a video URL: the paths start with
    different letters. *)
Lemma playlist_url_is_not_video (url : string) :
  re_match YOUTUBE_PLAYLIST_PATTERN url = true ->
  re_match YOUTUBE_VIDEO_PATTERN url = false.
Proof.
  unfold re_match, YOUTUBE_PLAYLIST_PATTERN, YOUTUBE_VIDEO_PATTERN.
  rewrite !site_factors. unfold seq at 1 3.
  destruct (det_site_prefix url) as [E|[r E]]; rewrite E; cbn [flat_map].
  - discriminate.
  - rewrite !app_nil_r. intros Hp.
    assert (Hx : excl (seq (lit "playlist?list=") (many1 word_or_dash))
                      (seq (alt (lit "watch?v=") (lit "shorts/"))
                           (many1 word_or_dash))).
    { eapply apart_excl.
      - apply first_in_seq, first_in_lit.
      - apply first_in_seq.
        exact (first_in_alt _ _ _ _ (first_in_lit "w" _) (first_in_lit "s" _)).
      - reflexivity. }
    destruct (Hx r) as [E1|E1]; rewrite E1 in *; [discriminate | reflexivity].
Qed.

(** X3.  The two patterns never accept the same URL, so [_fetch_data]
    sends every playlist URL to [_get_playlist] and every video URL to
    [_get_youtube_url]. *)
Theorem url_patterns_are_disjoint (url : string) :
  (re_match YOUTUBE_PLAYLIST_PATTERN url = true ->
   re_match YOUTUBE_VIDEO_PATTERN url = false)
  /\ (re_match YOUTUBE_VIDEO_PATTERN url = true ->
      re_match YOUTUBE_PLAYLIST_PATTERN url = false).
Proof.
  split; [apply playlist_url_is_not_video|].
  intros Hv. destruct (re_match YOUTUBE_PLAYLIST_PATTERN url) eqn:Hp;
    [|reflexivity].
  rewrite (playlist_url_is_not_video url Hp) in Hv. discriminate.
Qed.

Lemma url_patterns_are_disjoint_example :
  re_match YOUTUBE_VIDEO_PATTERN "https://music.youtube.com/playlist?list=PL1"
  = false
  /\ re_match YOUTUBE_PLAYLIST_PATTERN "youtube.com/watch?v=abc" = false.
Proof.
  split.
  - exact (proj1 (url_patterns_are_disjoint
                    "https://music.youtube.com/playlist?list=PL1") eq_refl).
  - exact (proj2 (url_patterns_are_disjoint "youtube.com/watch?v=abc") eq_refl).
Defined.

End Patterns.

(* ================================================================== *)
(** * Matches that end before a given character                        *)
(* ================================================================== *)

Section Truncation.
Import Py.

Variable a : ascii.

Lemma stays_before_lit (p : string) :
  avoids a p = true -> stays_before a (lit p).
Proof.
  unfold avoids. induction p as [|x p IH]; intros Hp head rest s' Hh Hin.
  - cbn [lit In] in *. destruct Hin as [<-|[]]. exists head. auto.
  - cbn [list_ascii_of_string forallb] in Hp.
    apply andb_true_iff in Hp as [Hx Hp].
    destruct head as [|c head].
    + cbn [append lit] in Hin.
      apply negb_true_iff in Hx. rewrite Hx in Hin. contradiction.
    + destruct (str_in_cons _ _ _ Hh) as [_ Hh'].
      cbn [append lit] in *.
      destruct (Ascii.eqb (lower x) (lower c)); [|contradiction].
      exact (IH Hp head rest s' Hh' Hin).
Qed.

Lemma stays_before_seq (r1 r2 : re) :
  stays_before a r1 -> stays_before a r2 -> stays_before a (seq r1 r2).
Proof.
  intros H1 H2 head rest s' Hh Hin. unfold seq in *.
  apply in_flat_map in Hin as (m & Hm & Hs).
  destruct (H1 head rest m Hh Hm) as (hm & -> & Hhm & Him).
  destruct (H2 hm rest s' Hhm Hs) as (h' & -> & Hh' & Hi').
  exists h'. repeat split; auto. apply in_flat_map. eauto.
Qed.

Lemma stays_before_alt (r1 r2 : re) :
  stays_before a r1 -> stays_before a r2 -> stays_before a (alt r1 r2).
Proof.
  intros H1 H2 head rest s' Hh Hin. unfold alt in *.
  apply in_app_or in Hin as [Hin|Hin].
  - destruct (H1 head rest s' Hh Hin) as (h' & -> & Hh' & Hi').
    exists h'. repeat split; auto. apply in_or_app. now left.
  - destruct (H2 head rest s' Hh Hin) as (h' & -> & Hh' & Hi').
    exists h'. repeat split; auto. apply in_or_app. now right.
Qed.

Lemma stays_before_opt (r : re) : stays_before a r -> stays_before a (opt r).
Proof.
  intros H head rest s' Hh Hin. unfold opt in *.
  apply in_app_or in Hin as [Hin|[<-|[]]].
  - destruct (H head rest s' Hh Hin) as (h' & -> & Hh' & Hi').
    exists h'. repeat split; auto. apply in_or_app. now left.
  - exists head. repeat split; auto. apply in_or_app. right. now left.
Qed.

Lemma stays_before_many (cls : ascii -> bool) :
  cls a = false ->
  forall head rest s', str_in (String a EmptyString) head = false ->
  In s' (many cls (head ++ String a rest)%string) ->
  exists h', s' = (h' ++ String a rest)%string
             /\ str_in (String a EmptyString) h' = false
             /\ In h' (many cls head).
Proof.
  intros Ha. induction head as [|c head IH]; intros rest s' Hh Hin.
  - cbn [append many] in *. rewrite Ha in Hin. destruct Hin as [<-|[]].
    exists EmptyString. repeat split; auto. now left.
  - destruct (str_in_cons _ _ _ Hh) as [_ Hh'].
    cbn [append many] in *. destruct (cls c).
    + apply in_app_or in Hin as [Hin|[<-|[]]].
      * destruct (IH rest s' Hh' Hin) as (h' & -> & Hh'' & Hi').
        exists h'. repeat split; auto. apply in_or_app. now left.
      * exists (String c head). repeat split; auto.
        apply in_or_app. right. now left.
    + destruct Hin as [<-|[]]. exists (String c head).
      repeat split; auto. now left.
Qed.

Lemma stays_before_many1 (cls : ascii -> bool) :
  cls a = false -> stays_before a (many1 cls).
Proof.
  intros Ha head rest s' Hh Hin. destruct head as [|c head].
  - cbn [append many1] in Hin. rewrite Ha in Hin. contradiction.
  - destruct (str_in_cons _ _ _ Hh) as [_ Hh'].
    cbn [append many1] in *. destruct (cls c); [|contradiction].
    exact (stays_before_many cls Ha head rest s' Hh' Hin).
Qed.

Lemma stays_before_match (r : re) (head rest : string) :
  stays_before a r -> str_in (String a EmptyString) head = false ->
  re_match r (head ++ String a rest)%string = true -> re_match r head = true.
Proof.
  intros H Hh. unfold re_match.
  destruct (r (head ++ String a rest)%string) as [|s' l] eqn:E; [discriminate|].
  intros _. destruct (H head rest s' Hh) as (h' & _ & _ & Hi).
  - rewrite E. now left.
  - destruct (r head); [contradiction | reflexivity].
Qed.

(** A text that holds [a] is cut at the first one. *)
Lemma cut_at_first (s : string) :
  str_in (String a EmptyString) s = true ->
  exists head rest, s = (head ++ String a rest)%string
                    /\ str_in (String a EmptyString) head = false.
Proof.
  induction s as [|c s IH]; [discriminate|].
  cbn [str_in]. rewrite prefix_one.
  destruct (Ascii.eqb_spec a c) as [<-|Hne].
  - intros _. exists EmptyString, s. split; reflexivity.
  - cbn [orb]. intros H. destruct (IH H) as (head & rest & -> & Hh).
    exists (String c head), rest. split; [reflexivity|].
    cbn [str_in]. rewrite prefix_one, Hh.
    destruct (Ascii.eqb_spec a c); [contradiction | reflexivity].
Qed.

End Truncation.

(* ================================================================== *)
(** * The YouTube backend                                              *)
(* ================================================================== *)

Section Backend.
Import Py YouTube.

(** ** The constructor *)

Lemma init_without_ampersand (s : string) :
  str_truthy s = true -> str_in "&" s = false ->
  __init__ (Some s) = Ret (mkYouTubeData (Some s)).
Proof.
  intros Ht Hn. unfold __init__. rewrite Ht, Hn. reflexivity.
Qed.

Lemma init_with_ampersand (head rest : string) :
  str_in "&" head = false ->
  __init__ (Some (head ++ "&" ++ rest)%string) = Ret (mkYouTubeData (Some head)).
Proof.
  intros Hn. unfold __init__.
  assert (Ht : str_truthy (head ++ "&" ++ rest)%string = true)
    by (destruct head; reflexivity).
  rewrite Ht. cbn [negb andb].
  change ("&" ++ rest)%string with (String "&" rest).
  rewrite str_in_found, (split_first _ _ _ Hn). reflexivity.
Qed.

(** C9.  The constructor keeps [None] for an absent or empty query, the
    query itself when it has no ampersand, and otherwise only the text
    before the first ampersand; [is_valid], [get_info] and [search] then
    run on the stored text. *)
Theorem init_stores_query_before_ampersand :
  __init__ None = Ret (mkYouTubeData None)
  /\ __init__ (Some EmptyString) = Ret (mkYouTubeData None)
  /\ (forall s, str_truthy s = true -> str_in "&" s = false ->
        __init__ (Some s) = Ret (mkYouTubeData (Some s)))
  /\ (forall s, str_in "&" s = true ->
      exists head rest,
        s = (head ++ "&" ++ rest)%string
        /\ str_in "&" head = false
        /\ __init__ (Some s) = Ret (mkYouTubeData (Some head))
        /\ (forall depth net,
              bind (__init__ (Some s)) (get_info depth net)
              = get_info depth net (mkYouTubeData (Some head))
              /\ bind (__init__ (Some s)) (search depth net)
                 = search depth net (mkYouTubeData (Some head)))
        /\ bind (__init__ (Some s)) (fun self => Ret (is_valid (query self)))
           = Ret (is_valid (Some head))).
Proof.
  split; [reflexivity|]. split; [reflexivity|].
  split; [exact init_without_ampersand|].
  intros s Hs. destruct (cut_at_first "&" s Hs) as (head & rest & -> & Hn).
  exists head, rest. split; [reflexivity|]. split; [exact Hn|].
  change (head ++ String "&" rest)%string with (head ++ "&" ++ rest)%string.
  rewrite (init_with_ampersand head rest Hn).
  repeat split; reflexivity.
Qed.

Lemma init_stores_query_before_ampersand_example :
  (exists head rest,
     "https://youtube.com/watch?v=abc&list=PL1&index=2"
     = (head ++ "&" ++ rest)%string
     /\ str_in "&" head = false
     /\ __init__ (Some "https://youtube.com/watch?v=abc&list=PL1&index=2")
        = Ret (mkYouTubeData (Some head)))
  /\ __init__ (Some "never gonna give you up")
     = Ret (mkYouTubeData (Some "never gonna give you up")).
Proof.
  split.
  - destruct (proj2 (proj2 (proj2 init_stores_query_before_ampersand))
                "https://youtube.com/watch?v=abc&list=PL1&index=2" eq_refl)
      as (head & rest & H1 & H2 & H3 & _).
    exists head, rest. auto.
  - exact (proj1 (proj2 (proj2 init_stores_query_before_ampersand))
             "never gonna give you up" eq_refl eq_refl).
Defined.

Lemma init_cuts_watch_url :
  __init__ (Some "https://youtube.com/watch?v=abc&list=PL1&index=2")
  = Ret (mkYouTubeData (Some "https://youtube.com/watch?v=abc")).
Proof. reflexivity. Qed.

(** ** Durations *)

Lemma truthy_with_colon (a b : string) :
  truthy (VStr (a ++ ":" ++ b)%string) = true.
Proof. destruct a; reflexivity. Qed.

(** Texts of three and of two fields that [int] reads. *)
Lemma duration_of_fields :
  (forall h m s H M S0,
      str_in ":" h = false -> str_in ":" m = false -> str_in ":" s = false ->
      int_of_str h = Ret H -> int_of_str m = Ret M -> int_of_str s = Ret S0 ->
      _duration_to_seconds (VStr (h ++ ":" ++ m ++ ":" ++ s)%string)
      = Ret (H * 3600 + M * 60 + S0))
  /\ (forall m s M S0,
      str_in ":" m = false -> str_in ":" s = false ->
      int_of_str m = Ret M -> int_of_str s = Ret S0 ->
      _duration_to_seconds (VStr (m ++ ":" ++ s)%string) = Ret (M * 60 + S0)).
Proof.
  split.
  - intros h m s H M S0 Hh Hm Hs EH EM ES.
    unfold _duration_to_seconds. rewrite truthy_with_colon. cbn [negb].
    change (":" ++ m ++ ":" ++ s)%string with (String ":" (m ++ String ":" s)).
    rewrite (split_first _ _ _ Hh), (split_first _ _ _ Hm),
      (split_absent _ _ Hs).
    rewrite EH, EM, ES. reflexivity.
  - intros m s M S0 Hm Hs EM ES.
    unfold _duration_to_seconds. rewrite truthy_with_colon. cbn [negb].
    change (":" ++ s)%string with (String ":" s).
    rewrite (split_first _ _ _ Hm), (split_absent _ _ Hs).
    rewrite EM, ES. reflexivity.
Qed.

(** X2.  On a clock text H:MM:SS, three numerals between colons, the
    result is [H * 3600 + MM * 60 + SS]; on MM:SS it is [MM * 60 + SS]; on
    the empty text and on every text without a colon it is 0. *)
Theorem duration_of_clock_text :
  (forall h m s,
      numeral h = true -> numeral m = true -> numeral s = true ->
      _duration_to_seconds (VStr (h ++ ":" ++ m ++ ":" ++ s)%string)
      = Ret (value h * 3600 + value m * 60 + value s))
  /\ (forall m s,
      numeral m = true -> numeral s = true ->
      _duration_to_seconds (VStr (m ++ ":" ++ s)%string)
      = Ret (value m * 60 + value s))
  /\ _duration_to_seconds (VStr EmptyString) = Ret 0
  /\ (forall s, str_in ":" s = false -> _duration_to_seconds (VStr s) = Ret 0).
Proof.
  split; [|split; [|split]].
  - intros h m s Hh Hm Hs.
    apply (proj1 duration_of_fields);
      auto using numeral_without_colon, int_of_numeral.
  - intros m s Hm Hs.
    apply (proj2 duration_of_fields);
      auto using numeral_without_colon, int_of_numeral.
  - reflexivity.
  - intros s Hs. unfold _duration_to_seconds.
    destruct (truthy (VStr s)); [|reflexivity]. cbn [negb].
    now rewrite (split_absent _ _ Hs).
Qed.

Lemma duration_of_clock_text_example :
  _duration_to_seconds (VStr "1:02:03") = Ret 3723
  /\ _duration_to_seconds (VStr "3:45") = Ret 225
  /\ _duration_to_seconds (VStr "LIVE") = Ret 0.
Proof.
  split; [|split].
  - exact (proj1 duration_of_clock_text "1" "02" "03"
             eq_refl eq_refl eq_refl).
  - exact (proj1 (proj2 duration_of_clock_text) "3" "45" eq_refl eq_refl).
  - exact (proj2 (proj2 (proj2 duration_of_clock_text)) "LIVE" eq_refl).
Defined.

(** C3.  A text of two or three fields with a field that is not a numeral
    is not normalised to 0: [int] raises [ValueError] and nothing catches
    it. *)
Theorem duration_with_bad_field_raises :
  _duration_to_seconds (VStr "1:xx") = Raise ValueError
  /\ _duration_to_seconds (VStr "12:") = Raise ValueError
  /\ _duration_to_seconds (VStr "1:02:3s") = Raise ValueError
  /\ _duration_to_seconds (VStr "1.5:00") = Raise ValueError.
Proof. repeat split; reflexivity. Qed.

End Backend.

Section Boundary.
Import Py YouTube.

(** ** What crosses the boundary of the backend *)

Lemma try_except_contained {A} (body : outcome A) (handler : exn -> outcome A) :
  (forall e, contained (handler e)) -> contained (try_except body handler).
Proof.
  intros Hh e. unfold try_except.
  destruct body as [a|e0]; [discriminate|].
  destruct (is_Exception e0) eqn:E.
  - apply Hh.
  - intros [= <-]. exact E.
Qed.

Lemma ret_contained {A} (a : A) : contained (Ret a).
Proof. intros e H. discriminate. Qed.

Lemma search_text_contained (net : Net) (q : string) :
  contained (search_text net q).
Proof. apply try_except_contained. intros; apply ret_contained. Qed.

(** On a query that [is_valid] accepts, [_fetch_data] takes one of its two
    URL branches: it never hands back the [PlatformTracks] of [search], and
    it needs one stack frame only. *)
Lemma fetch_valid_is_dict (depth : nat) (net : Net) (self : YouTubeData)
  (q : string) :
  is_valid (Some q) = true ->
  _fetch_data (S depth) net self q = _fetch_data 1 net self q
  /\ forall pt, _fetch_data (S depth) net self q <> Ret (Some (FTracks pt)).
Proof.
  cbn [is_valid _fetch_data]. intros Hv.
  destruct (str_truthy q); [|discriminate].
  destruct (re_match YOUTUBE_VIDEO_PATTERN q).
  - split; [reflexivity|]. intros pt.
    destruct (_get_youtube_url net q) as [[r|]|e]; discriminate.
  - cbn [orb] in Hv. rewrite Hv. split; [reflexivity|]. intros pt.
    destruct (_get_playlist net q) as [[r|]|e]; discriminate.
Qed.

Lemma video_pattern_needs_text (url : string) :
  re_match YOUTUBE_VIDEO_PATTERN url = true -> str_truthy url = true.
Proof. destruct url; [discriminate | reflexivity]. Qed.

(** C1.  [get_info] has no [try], and neither has the URL branch of
    [search]: on a URL that the video pattern accepts and that has no [v=]
    in it (the [shorts/] form), [url.split("v=")[1]] raises [IndexError]
    as soon as the oEmbed request has answered, and the exception leaves
    the backend. *)
Theorem get_info_raises_on_video_url_without_v
  (depth : nat) (net : Net) (url : string) (data : pyval) :
  re_match YOUTUBE_VIDEO_PATTERN url = true ->
  str_in "&" url = false ->
  str_in "v=" url = false ->
  make_request net
    ("https://www.youtube.com/oembed?url=" ++ url ++ "&format=json")%string
  = Ret data ->
  truthy data = true ->
  bind (__init__ (Some url)) (get_info (S (S depth)) net) = Raise IndexError
  /\ bind (__init__ (Some url)) (search (S (S depth)) net) = Raise IndexError.
Proof.
  intros Hm Hamp Hv Hreq Hdata.
  rewrite (init_without_ampersand url (video_pattern_needs_text url Hm) Hamp).
  assert (Hfetch : _fetch_data (S depth) net (mkYouTubeData (Some url)) url
                   = Raise IndexError).
  { cbn [_fetch_data]. rewrite Hm.
    unfold _get_youtube_url. rewrite Hreq. cbn [bind]. rewrite Hdata.
    cbn [negb]. rewrite (split_absent _ _ Hv). reflexivity. }
  assert (Hvalid : is_valid (Some url) = true).
  { cbn [is_valid]. now rewrite (video_pattern_needs_text url Hm), Hm. }
  split.
  - cbn [bind get_info query]. rewrite Hvalid. cbn [negb].
    now rewrite Hfetch.
  - cbn [bind search query]. rewrite (video_pattern_needs_text url Hm).
    cbn [negb]. rewrite Hvalid. now rewrite Hfetch.
Qed.

Lemma get_info_raises_on_shorts_url :
  is_valid (Some "https://youtube.com/shorts/abc") = true
  /\ bind (__init__ (Some "https://youtube.com/shorts/abc"))
          (get_info 2 oembed_answers) = Raise IndexError
  /\ bind (__init__ (Some "https://youtube.com/shorts/abc"))
          (search 2 oembed_answers) = Raise IndexError.
Proof.
  split; [reflexivity|].
  destruct (get_info_raises_on_video_url_without_v 0 oembed_answers
              "https://youtube.com/shorts/abc" _
              eq_refl eq_refl eq_refl eq_refl eq_refl) as (H1 & H2).
  split; [exact H1 | exact H2].
Defined.

End Boundary.

Section Playlists.
Import Py YouTube.

(** ** Playlists *)

Lemma playlist_pattern_needs_text (url : string) :
  re_match YOUTUBE_PLAYLIST_PATTERN url = true -> str_truthy url = true.
Proof. destruct url; [discriminate | reflexivity]. Qed.

Lemma playlist_pattern_stays_before_ampersand :
  stays_before "&" YOUTUBE_PLAYLIST_PATTERN.
Proof.
  unfold YOUTUBE_PLAYLIST_PATTERN, site.
  repeat first
    [ apply stays_before_seq | apply stays_before_opt | apply stays_before_alt
    | apply stays_before_lit; reflexivity
    | apply stays_before_many1; reflexivity ].
Qed.

(** The constructor keeps a playlist URL a playlist URL. *)
Lemma init_keeps_playlist_url (raw : string) :
  re_match YOUTUBE_PLAYLIST_PATTERN raw = true ->
  exists url, __init__ (Some raw) = Ret (mkYouTubeData (Some url))
              /\ re_match YOUTUBE_PLAYLIST_PATTERN url = true.
Proof.
  intros Hp. destruct (str_in "&" raw) eqn:Hamp.
  - destruct (cut_at_first "&" raw Hamp) as (head & rest & -> & Hh).
    exists head. split.
    + exact (init_with_ampersand head rest Hh).
    + exact (stays_before_match "&" _ head rest
               playlist_pattern_stays_before_ampersand Hh Hp).
  - exists raw. split; [|exact Hp].
    exact (init_without_ampersand raw (playlist_pattern_needs_text raw Hp) Hamp).
Qed.

(** [get_info] on a stored playlist URL is [_get_playlist]. *)
Lemma get_info_playlist (depth : nat) (net : Net) (url : string) :
  re_match YOUTUBE_PLAYLIST_PATTERN url = true ->
  get_info (S (S depth)) net (mkYouTubeData (Some url))
  = bind (_get_playlist net url) (fun r => finish (option_map FDict r)).
Proof.
  intros Hp. cbn [get_info query is_valid].
  rewrite (playlist_pattern_needs_text url Hp), Hp, orb_true_r. cbn [negb].
  cbn [_fetch_data]. rewrite (playlist_url_is_not_video url Hp), Hp.
  destruct (_get_playlist net url); reflexivity.
Qed.

(** What a formatted entry holds. *)
Lemma format_track_fields (v : pyval) (t : TrackDict) :
  _format_track v = Ret t -> listed_as v (MusicTrack_of t).
Proof.
  unfold _format_track, listed_as. intros H.
  destruct (get v "id" VNone) as [a|]; [|discriminate]; cbn [bind] in H.
  destruct (get v "title" VNone) as [b|]; [|discriminate]; cbn [bind] in H.
  destruct (get v "duration" (VStr "0:00")) as [d|]; [|discriminate];
    cbn [bind] in H.
  destruct (_duration_to_seconds d) as [n|]; [|discriminate]; cbn [bind] in H.
  destruct (get v "channel" (VDict [])) as [ch|]; [|discriminate];
    cbn [bind] in H.
  destruct (get ch "name" (VStr "Unknown")) as [ar|]; [|discriminate];
    cbn [bind] in H.
  destruct (get v "thumbnails" (VList [VDict []])) as [th|]; [|discriminate];
    cbn [bind] in H.
  destruct (subscript_int th (-1)) as [la|]; [|discriminate]; cbn [bind] in H.
  destruct (get la "url" (VStr EmptyString)) as [co|]; [|discriminate];
    cbn [bind] in H.
  injection H as <-. repeat split; reflexivity.
Qed.

(** The entries that can be parsed are the well-formed ones. *)
Lemma parses_iff_well_formed (v : pyval) : parses v = well_formed v.
Proof.
  unfold parses, well_formed, _format_track.
  destruct v as [| | | |l|d]; try reflexivity. cbn [get bind].
  destruct (lookup "duration" d) as [x|].
  - destruct (_duration_to_seconds x) as [n|e]; [|reflexivity].
    cbn [bind returns andb].
    destruct (lookup "channel" d) as [[| | | | |c]|]; try reflexivity;
      cbn [get bind];
      (destruct (lookup "thumbnails" d) as [th|];
       [destruct (subscript_int th (-1)) as [[| | | | |u]|e]; reflexivity
       |reflexivity]).
  - cbn [bind returns andb].
    destruct (lookup "channel" d) as [[| | | | |c]|]; try reflexivity;
      cbn [get bind];
      (destruct (lookup "thumbnails" d) as [th|];
       [destruct (subscript_int th (-1)) as [[| | | | |u]|e]; reflexivity
       |reflexivity]).
Qed.

(** A comprehension whose calls all return keeps length and order. *)
Lemma comprehension_returns {A B} (f : A -> outcome B) (xs : list A) :
  Forall (fun x => returns (f x) = true) xs ->
  exists ys, comprehension f xs = Ret ys
    /\ Forall2 (fun x y => f x = Ret y) xs ys.
Proof.
  induction 1 as [|x xs Hx _ IH].
  - exists []. split; [reflexivity | constructor].
  - destruct IH as (ys & E & F). cbn [comprehension].
    destruct (f x) as [y|] eqn:Ex; [|discriminate]. cbn [bind]. rewrite E.
    exists (y :: ys). split; [reflexivity|]. constructor; assumption.
Qed.

(** X25.  A playlist URL is stored as a playlist URL, and when the source
    lists the entries [videos] for it, each of them well formed, [get_info]
    returns a [PlatformTracks] with one track per entry, in the order of
    the listing, each with the entry's id and title, year 0 and the
    platform tag. *)
Theorem playlist_tracks_in_listing_order
  (depth : nat) (net : Net) (raw : string) :
  re_match YOUTUBE_PLAYLIST_PATTERN raw = true ->
  exists url,
    __init__ (Some raw) = Ret (mkYouTubeData (Some url))
    /\ re_match YOUTUBE_PLAYLIST_PATTERN url = true
    /\ forall listing videos,
         playlist_getVideos net url = Ret (VDict listing) ->
         lookup "videos" listing = Some (VList videos) ->
         Forall (fun v => well_formed v = true) videos ->
         exists pt,
           bind (__init__ (Some raw)) (get_info (S (S depth)) net)
           = Ret (Some pt)
           /\ Forall2 listed_as videos (tracks pt).
Proof.
  intros Hraw. destruct (init_keeps_playlist_url raw Hraw) as (url & Hinit & Hp).
  exists url. split; [exact Hinit|]. split; [exact Hp|].
  intros listing videos Hget Hvid Hwf. rewrite Hinit. cbn [bind].
  assert (Hfmt : Forall (fun v => returns (_format_track v) = true) videos).
  { eapply Forall_impl; [|exact Hwf]. intros v Hv.
    change (parses v = true). now rewrite parses_iff_well_formed. }
  rewrite (get_info_playlist depth net url Hp).
  unfold _get_playlist. rewrite Hget.
  assert (Htr : truthy (VDict listing) = true)
    by (destruct listing; [discriminate | reflexivity]).
  rewrite Htr. cbn [get]. rewrite Hvid. cbn [bind iterate].
  destruct (comprehension_returns _format_track videos Hfmt) as (rs & E & F).
  rewrite E. cbn [bind option_map finish _create_platform_tracks].
  eexists. split; [reflexivity|]. cbn [tracks].
  clear E Hfmt Hwf Hvid. induction F as [|v r vs rs' Hv _ IH]; cbn [map].
  - constructor.
  - constructor; [exact (format_track_fields v r Hv) | exact IH].
Qed.

Lemma playlist_tracks_in_listing_order_example :
  exists pt,
    bind (__init__ (Some "https://youtube.com/playlist?list=PL1&si=x"))
         (get_info 2 two_videos) = Ret (Some pt)
    /\ Forall2 listed_as
         [entry "v1" "First" "3:45"; entry "v2" "Second" "1:02:03"]
         (tracks pt).
Proof.
  destruct (playlist_tracks_in_listing_order 0 two_videos
              "https://youtube.com/playlist?list=PL1&si=x" eq_refl)
    as (url & Hinit & _ & H).
  injection Hinit as <-.
  apply (H _ _ eq_refl eq_refl). repeat constructor.
Defined.

(** The entries of a playlist are formatted outside the [try] of
    [_get_playlist]: an entry that is not well formed, here one whose
    thumbnail list is empty, makes [get_info] raise. *)
Lemma playlist_with_bare_entry_raises :
  well_formed bare_entry = false
  /\ bind (__init__ (Some "https://youtube.com/playlist?list=PL1"))
          (get_info 2 no_thumbnail) = Raise IndexError.
Proof. split; reflexivity. Qed.

End Playlists.

(* ================================================================== *)
(** * The command handlers                                             *)
(* ================================================================== *)

(** Splits every test that the run of a handler depends on. *)
Ltac split_run :=
  repeat (cbn [Funcs.mbind Funcs.ask Funcs.reply_text Funcs.ret Funcs.lift
               Funcs.perform Funcs.try_catch Funcs.trace fst snd
               Funcs.logger_error Funcs.query_engine
               app negb Funcs.engine_calls Funcs.seek_calls Funcs.removals
               Funcs.replies Funcs.rejected
               forallb Funcs.is_rejection filter Funcs.is_seek andb orb] in *;
          match goal with
          | |- context [match Funcs.fails ?w ?e with _ => _ end] =>
              destruct (Funcs.fails w e) as [?x|] eqn:?
          | |- context [if Py.is_Exception ?x then _ else _] =>
              destruct (Py.is_Exception x) eqn:?
          end).

Section Handlers.
Import Py Funcs.

Lemma trace_ask_bind {A B} (e : Event) (a : A) (k : A -> M B) :
  trace (mbind (ask e a) k) = e :: trace (k a).
Proof. unfold mbind, ask, trace. now destruct (k a). Qed.

Lemma argument_int_truthy (w : World) (msg : Message) (v : Z) :
  argument_int w msg = Ret v ->
  opt_truthy (extract_argument w (text msg)) = true.
Proof.
  unfold argument_int.
  destruct (extract_argument w (text msg)) as [[|c s]|]; cbn; try discriminate.
  reflexivity.
Qed.

(** ** [is_admin_or_reply] and the commands behind it *)

Lemma check_inactive (w : World) (msg : Message) :
  is_active w (chat_id msg) = false ->
  is_admin_or_reply w msg
  = ([ask_is_active (chat_id msg); reply NoSongPlaying], Ret SentMessage).
Proof. intros H. unfold is_admin_or_reply. cbn. rewrite H. reflexivity. Qed.

Lemma check_not_admin (w : World) (msg : Message) :
  is_active w (chat_id msg) = true ->
  is_admin w (chat_id msg) (from_user_id msg) = false ->
  is_admin_or_reply w msg
  = ([ask_is_active (chat_id msg);
      ask_is_admin (chat_id msg) (from_user_id msg); reply MustBeAdmin],
     Ret SentMessage).
Proof.
  intros H1 H2. unfold is_admin_or_reply. cbn. rewrite H1. cbn. rewrite H2.
  reflexivity.
Qed.

Lemma check_passed (w : World) (msg : Message) :
  is_active w (chat_id msg) = true ->
  is_admin w (chat_id msg) (from_user_id msg) = true ->
  is_admin_or_reply w msg
  = ([ask_is_active (chat_id msg);
      ask_is_admin (chat_id msg) (from_user_id msg)],
     Ret (ChatId (chat_id msg))).
Proof.
  intros H1 H2. unfold is_admin_or_reply. cbn. rewrite H1. cbn. rewrite H2.
  reflexivity.
Qed.

Lemma check_asks_activity_first (w : World) (msg : Message) {B} (k : id_or_message -> M B) :
  exists rest,
    trace (mbind (is_admin_or_reply w msg) k)
    = ask_is_active (chat_id msg) :: rest.
Proof.
  unfold is_admin_or_reply.
  destruct (is_active w (chat_id msg)); cbn;
    [destruct (is_admin w (chat_id msg) (from_user_id msg)); cbn|];
    match goal with |- context [k ?x] => destruct (k x) end;
    eexists; reflexivity.
Qed.

(** C10.  Each of stop, pause, resume, mute, unmute, volume and skip asks
    the cache first whether the chat is active; when it is not, the run is
    that question and the reply that nothing is playing: no call to the
    voice engine, and the admin check is never reached. *)
Theorem inactive_chat_is_turned_down_first
  (w : World) (msg : Message) (command : World -> Message -> M unit) :
  In command playback_commands ->
  (exists rest, trace (command w msg) = ask_is_active (chat_id msg) :: rest)
  /\ (is_active w (chat_id msg) = false ->
      command w msg
      = ([ask_is_active (chat_id msg); reply NoSongPlaying], Ret tt)
      /\ engine_calls (trace (command w msg)) = []
      /\ rejected (trace (command w msg)) = true
      /\ forall who,
           ~ In (ask_is_admin (chat_id msg) who) (trace (command w msg))).
Proof.
  intros Hin.
  assert (Hshape : exists k, command w msg = mbind (is_admin_or_reply w msg) k
                    /\ k SentMessage = ret tt).
  { cbn in Hin.
    destruct Hin as [<-|[<-|[<-|[<-|[<-|[<-|[<-|[]]]]]]]];
      eexists; (split; [reflexivity | reflexivity]). }
  destruct Hshape as (k & -> & Hk). split; [apply check_asks_activity_first|].
  intros Hoff. rewrite (check_inactive w msg Hoff).
  cbn [mbind]. rewrite Hk. cbn.
  repeat split. intros who [H|[H|[]]]; discriminate.
Qed.

Lemma inactive_chat_is_turned_down_first_example :
  volume quiet_world (group_message "/volume 50")
  = ([ask_is_active (-1001); reply NoSongPlaying], Ret tt).
Proof.
  exact (proj1 (proj2 (inactive_chat_is_turned_down_first quiet_world
           (group_message "/volume 50") volume
           (or_intror (or_intror (or_intror (or_intror (or_intror
              (or_introl eq_refl)))))))
           eq_refl)).
Defined.

End Handlers.

Section Playback.
Import Py Funcs.

(** ** Pause and resume *)

(** What [handle_playback_action] asks of the engine. *)
Lemma playback_action_calls (w : World) (msg : Message) (action : Z -> Call)
  (ok ko : string) :
  engine_calls (trace (handle_playback_action w msg action ok ko))
  = if passes_check w msg then [action (chat_id msg)] else [].
Proof.
  unfold handle_playback_action, passes_check.
  destruct (is_active w (chat_id msg)) eqn:Ha.
  - destruct (is_admin w (chat_id msg) (from_user_id msg)) eqn:Hb.
    + rewrite (check_passed w msg Ha Hb). split_run; reflexivity.
    + rewrite (check_not_admin w msg Ha Hb). reflexivity.
  - rewrite (check_inactive w msg Ha). reflexivity.
Qed.

Lemma playback_action_rejected (w : World) (msg : Message) (action : Z -> Call)
  (ok ko : string) :
  passes_check w msg = false ->
  rejected (trace (handle_playback_action w msg action ok ko)) = true.
Proof.
  unfold handle_playback_action, passes_check.
  destruct (is_active w (chat_id msg)) eqn:Ha.
  - destruct (is_admin w (chat_id msg) (from_user_id msg)) eqn:Hb.
    + discriminate.
    + rewrite (check_not_admin w msg Ha Hb). reflexivity.
  - rewrite (check_inactive w msg Ha). reflexivity.
Qed.

(** C8, as the handlers have it.  Whatever state the chat is in, the
    handlers see its active flag only.  Pause and resume are turned down,
    with no call to the engine, when the chat is idle or the sender is not
    an admin; on a chat that is not idle an admin's pause is one
    [call.pause] and an admin's resume one [call.resume], be the stream
    playing or paused. *)
Theorem pause_and_resume_depend_on_active_flag_only
  (w : World) (msg : Message) (st : PlaybackState) :
  is_active w (chat_id msg) = active_flag st ->
  (st = Idle \/ is_admin w (chat_id msg) (from_user_id msg) = false ->
     engine_calls (trace (pause_song w msg)) = []
     /\ engine_calls (trace (resume w msg)) = []
     /\ rejected (trace (pause_song w msg)) = true
     /\ rejected (trace (resume w msg)) = true)
  /\ (st <> Idle ->
      is_admin w (chat_id msg) (from_user_id msg) = true ->
      engine_calls (trace (pause_song w msg)) = [call_pause (chat_id msg)]
      /\ engine_calls (trace (resume w msg)) = [call_resume (chat_id msg)]).
Proof.
  intros Hst. unfold pause_song, resume. rewrite !playback_action_calls.
  split.
  - intros Hoff.
    assert (Hpass : passes_check w msg = false).
    { unfold passes_check. rewrite Hst.
      destruct Hoff as [-> | ->]; [reflexivity | apply andb_false_r]. }
    rewrite Hpass. repeat split; auto using playback_action_rejected.
  - intros Hon Hadmin.
    assert (Hpass : passes_check w msg = true).
    { unfold passes_check. rewrite Hst, Hadmin.
      destruct st; [contradiction | reflexivity | reflexivity]. }
    rewrite Hpass. split; reflexivity.
Qed.

Lemma pause_and_resume_depend_on_active_flag_only_example :
  engine_calls (trace (pause_song paused_world (group_message "/pause")))
  = [call_pause (-1001)]
  /\ engine_calls (trace (resume paused_world (group_message "/resume")))
     = [call_resume (-1001)].
Proof.
  split.
  - apply (proj2 (pause_and_resume_depend_on_active_flag_only paused_world
                    (group_message "/pause") Paused eq_refl));
      [discriminate | reflexivity].
  - apply (proj2 (pause_and_resume_depend_on_active_flag_only paused_world
                    (group_message "/resume") Paused eq_refl));
      [discriminate | reflexivity].
Defined.

(** C8 as stated fails: a pause asked of a chat that is already paused,
    and a resume asked of a chat that is playing, are not turned down;
    they go to the engine and are reported as done. *)
Lemma pause_while_paused_reaches_engine :
  (Paused <> Playing
   /\ is_active paused_world (-1001) = active_flag Paused
   /\ pause_song paused_world (group_message "/pause")
      = ([ask_is_active (-1001); ask_is_admin (-1001) 42;
          engine (call_pause (-1001));
          reply (Done "⏸️ <b>Stream Paused</b> 🥺" "@alice")], Ret tt)
   /\ rejected (trace (pause_song paused_world (group_message "/pause")))
      = false)
  /\ (Playing <> Paused
      /\ is_active (playing_world "0") (-1001) = active_flag Playing
      /\ resume (playing_world "0") (group_message "/resume")
         = ([ask_is_active (-1001); ask_is_admin (-1001) 42;
             engine (call_resume (-1001));
             reply (Done "🎶 <b>Stream Resumed</b> 💫" "@alice")], Ret tt)
      /\ rejected (trace (resume (playing_world "0") (group_message "/resume")))
         = false).
Proof. repeat split; discriminate. Qed.

(** ** Volume *)

(** The calls of [volume], case by case. *)
Lemma volume_calls (w : World) (msg : Message) :
  engine_calls (trace (volume w msg))
  = if passes_check w msg
    then match argument_int w msg with
         | Ret v => if in_volume_range v
                    then [call_change_volume (chat_id msg) v] else []
         | Raise _ => []
         end
    else [].
Proof.
  unfold volume, passes_check.
  destruct (is_active w (chat_id msg)) eqn:Ha;
    [destruct (is_admin w (chat_id msg) (from_user_id msg)) eqn:Hb|].
  - rewrite (check_passed w msg Ha Hb). cbn [mbind andb].
    destruct (opt_truthy (extract_argument w (text msg))) eqn:Ht.
    + cbn [negb]. fold (argument_int w msg).
      destruct (argument_int w msg) as [v|e]; [|reflexivity].
      cbn [lift mbind]. unfold in_volume_range.
      destruct (Z.eqb_spec v 0) as [->|E0]; [reflexivity|].
      destruct ((1 <=? v) && (v <=? 200)); [|reflexivity].
      split_run; reflexivity.
    + destruct (argument_int w msg) as [v|e] eqn:Hv; [|reflexivity].
      rewrite (argument_int_truthy w msg v Hv) in Ht. discriminate.
  - rewrite (check_not_admin w msg Ha Hb). reflexivity.
  - rewrite (check_inactive w msg Ha). reflexivity.
Qed.

Lemma volume_rejected (w : World) (msg : Message) (v : Z) :
  argument_int w msg = Ret v -> in_volume_range v = false ->
  rejected (trace (volume w msg)) = true.
Proof.
  intros Hv Hr. unfold volume.
  destruct (is_active w (chat_id msg)) eqn:Ha;
    [destruct (is_admin w (chat_id msg) (from_user_id msg)) eqn:Hb|].
  - rewrite (check_passed w msg Ha Hb). cbn [mbind].
    rewrite (argument_int_truthy w msg v Hv). cbn [negb].
    fold (argument_int w msg). rewrite Hv. cbn [lift mbind].
    destruct (Z.eqb_spec v 0) as [->|E0]; [reflexivity|].
    unfold in_volume_range in Hr. rewrite Hr. reflexivity.
  - rewrite (check_not_admin w msg Ha Hb). reflexivity.
  - rewrite (check_inactive w msg Ha). reflexivity.
Qed.

Lemma in_volume_range_spec (v : Z) :
  in_volume_range v = true <-> 1 <= v <= 200.
Proof. unfold in_volume_range. lia. Qed.

(** C4.  Volume 0, and any volume outside 1..200, is turned down without
    a call to the engine, in every state of the chat; a call to the engine
    is [change_volume] with the requested value, which is then in 1..200;
    such a value, asked by an admin of an active chat, does reach it; and
    what an admin of an active chat is told for volume 0 is to use mute. *)
Theorem volume_reaches_engine_only_in_range (w : World) (msg : Message) :
  (forall v, argument_int w msg = Ret v -> v = 0 \/ v < 1 \/ 200 < v ->
     engine_calls (trace (volume w msg)) = []
     /\ rejected (trace (volume w msg)) = true)
  /\ (forall c, In c (engine_calls (trace (volume w msg))) ->
      exists v, argument_int w msg = Ret v /\ 1 <= v <= 200
                /\ c = call_change_volume (chat_id msg) v)
  /\ (forall v, argument_int w msg = Ret v -> 1 <= v <= 200 ->
      is_active w (chat_id msg) = true ->
      is_admin w (chat_id msg) (from_user_id msg) = true ->
      engine_calls (trace (volume w msg)) = [call_change_volume (chat_id msg) v])
  /\ (argument_int w msg = Ret 0 ->
      is_active w (chat_id msg) = true ->
      is_admin w (chat_id msg) (from_user_id msg) = true ->
      replies (trace (volume w msg)) = [UseMute]).
Proof.
  rewrite volume_calls. split; [|split; [|split]].
  - intros v Hv Hout. rewrite Hv.
    assert (Hr : in_volume_range v = false)
      by (unfold in_volume_range; lia).
    rewrite Hr. split; [now destruct (passes_check w msg)|].
    exact (volume_rejected w msg v Hv Hr).
  - intros c Hc.
    destruct (passes_check w msg); [|contradiction].
    destruct (argument_int w msg) as [v|e]; [|contradiction].
    destruct (in_volume_range v) eqn:Hr; [|contradiction].
    destruct Hc as [<-|[]]. exists v.
    apply in_volume_range_spec in Hr. auto.
  - intros v Hv Hin Ha Hb. unfold passes_check. rewrite Ha, Hb, Hv.
    apply in_volume_range_spec in Hin. now rewrite Hin.
  - intros Hv Ha Hb. unfold volume. rewrite (check_passed w msg Ha Hb).
    cbn [mbind]. rewrite (argument_int_truthy w msg 0 Hv). cbn [negb].
    fold (argument_int w msg). rewrite Hv. reflexivity.
Qed.

Lemma volume_reaches_engine_only_in_range_example :
  engine_calls (trace (volume (playing_world "250")
                              (group_message "/volume 250"))) = []
  /\ rejected (trace (volume (playing_world "250")
                             (group_message "/volume 250"))) = true.
Proof.
  apply (proj1 (volume_reaches_engine_only_in_range (playing_world "250")
                  (group_message "/volume 250")) 250 eq_refl).
  right; right; reflexivity.
Defined.

End Playback.

Section Requests.
Import Py Funcs.

(** ** Seek *)

(** C2, for the chats the handler serves.  In a group chat (the handler
    ignores positive chat ids) with a current song of duration [D] and an
    engine that reports [E] seconds played, a seek by [d] is turned down
    without a seek call when [d < 20] or [E + d >= D]; otherwise the run
    has exactly one seek call, to [E + d] with total [D]. *)
Theorem seek_checks_delta_and_target
  (w : World) (msg : Message) (song : CachedTrack) (d E : Z) :
  chat_id msg <= 0 ->
  argument_int w msg = Ret d ->
  get_current_song w (chat_id msg) = Some song ->
  played_time w (chat_id msg) = Ret E ->
  (d < 20 \/ duration song <= E + d ->
     seek_calls (trace (seek_song w msg)) = []
     /\ rejected (trace (seek_song w msg)) = true)
  /\ (20 <= d -> E + d < duration song ->
      seek_calls (trace (seek_song w msg))
      = [call_seek_stream (chat_id msg) (file_path song) (E + d)
                          (duration song)]).
Proof.
  intros Hgroup Hd Hsong Hplayed. unfold seek_song.
  destruct (Z.ltb_spec 0 (chat_id msg)) as [?|_]; [lia|].
  rewrite (argument_int_truthy w msg d Hd). cbn [negb].
  fold (argument_int w msg). rewrite Hd. cbn [lift mbind].
  destruct (Z.ltb_spec d 20) as [Hlt|Hge].
  { split; [intros _; split; reflexivity | lia]. }
  cbn [ask mbind]. rewrite Hsong, Hplayed. cbn [mbind query_engine].
  destruct (Z.leb_spec (duration song) (E + d)) as [Hpast|Hin].
  { split; [intros _; split; reflexivity | lia]. }
  split; [lia|]. intros _ _. split_run; reflexivity.
Qed.

Lemma seek_checks_delta_and_target_example :
  seek_calls (trace (seek_song (playing_world "30") (group_message "/seek 30")))
  = [call_seek_stream (-1001) "/tmp/song.mp3" 90 180].
Proof.
  apply (proj2 (seek_checks_delta_and_target (playing_world "30")
                  (group_message "/seek 30")
                  song 30 60
                  ltac:(cbn; lia) eq_refl eq_refl eq_refl));
    cbn; lia.
Defined.

(** C2 as stated fails on a chat with a positive id: the same request,
    with a current song, 60 of 180 seconds played and a delta of 30, gets
    no seek call and no reply. *)
Lemma seek_in_private_chat_is_ignored :
  get_current_song (playing_world "30") 1001
  = Some song
  /\ played_time (playing_world "30") 1001 = Ret 60
  /\ argument_int (playing_world "30") (private_message "/seek 30") = Ret 30
  /\ 20 <= 30 /\ 60 + 30 < 180
  /\ seek_song (playing_world "30") (private_message "/seek 30") = ([], Ret tt)
  /\ seek_calls (trace (seek_song (playing_world "30")
                          (private_message "/seek 30"))) = [].
Proof. repeat split; try reflexivity; lia. Qed.

(** ** Speed *)

(** C5.  [change_speed] has no range check: whatever number the text holds,
    an admin's request in an active group chat is one [speed_change] call
    with that number rounded to two places. *)
Theorem speed_is_passed_on_unchecked
  (w : World) (msg : Message) (x : pyfloat) :
  chat_id msg <= 0 ->
  extract_number (text msg) = Some x ->
  is_admin w (chat_id msg) (from_user_id msg) = true ->
  is_active w (chat_id msg) = true ->
  engine_calls (trace (change_speed w msg))
  = [call_speed_change (chat_id msg) (round2 x)].
Proof.
  intros Hgroup Hx Hadmin Hactive. unfold change_speed.
  destruct (Z.ltb_spec 0 (chat_id msg)) as [?|_]; [lia|].
  rewrite Hx. cbn [ask mbind]. rewrite Hadmin. cbn [negb mbind ask].
  rewrite Hactive. cbn [negb]. split_run; reflexivity.
Qed.

Lemma speed_ten_is_passed_on :
  extract_number "/speed 10" = Some (float_of "10")
  /\ change_speed (playing_world "30") (group_message "/speed 10")
     = ([ask_is_admin (-1001) 42; ask_is_active (-1001);
         engine (call_speed_change (-1001) (round2 (float_of "10")));
         reply (SpeedChanged (round2 (float_of "10")) "@alice")], Ret tt)
  /\ engine_calls (trace (change_speed (playing_world "30")
                                       (group_message "/speed 10")))
     = [call_speed_change (-1001) (round2 (float_of "10"))].
Proof.
  split; [reflexivity|]. split; [reflexivity|].
  exact (speed_is_passed_on_unchecked (playing_world "30")
           (group_message "/speed 10") (float_of "10")
           ltac:(cbn; lia) eq_refl eq_refl eq_refl).
Defined.

(** ** Remove *)

Lemma remove_not_in_range (w : World) (msg : Message) (i : Z) :
  argument_int w msg = Ret i ->
  in_queue_range i (List.length (get_queue w (chat_id msg))) = false ->
  removals (trace (remove_song w msg)) = []
  /\ forallb is_rejection (replies (trace (remove_song w msg))) = true
  /\ (chat_id msg <= 0 -> rejected (trace (remove_song w msg)) = true).
Proof.
  intros Hi Hr. unfold remove_song.
  destruct (Z.ltb_spec 0 (chat_id msg)) as [Hpos|_].
  { repeat split. intros ?. lia. }
  cbn [ask mbind].
  destruct (is_admin w (chat_id msg) (from_user_id msg)); cbn [negb];
    [|repeat split].
  cbn [ask mbind].
  destruct (is_active w (chat_id msg)); cbn [negb]; [|repeat split].
  rewrite (argument_int_truthy w msg i Hi). cbn [negb].
  fold (argument_int w msg). rewrite Hi. cbn [lift mbind ask].
  destruct (get_queue w (chat_id msg)) as [|t q] eqn:Hq; [repeat split|].
  unfold in_queue_range in Hr.
  assert (Hout : (i <=? 0) || (Z.of_nat (List.length (t :: q)) <? i) = true)
    by lia.
  rewrite Hout. repeat split.
Qed.

(** C6.  With a queue of [L] tracks, an index [i <= 0] or [i > L] is turned
    down and nothing is removed; a removal in the run is the removal of
    the requested index, which is then in [1..L]; and such an index, given
    by an admin of an active group chat, is removed. *)
Theorem remove_checks_index (w : World) (msg : Message) :
  (forall i, argument_int w msg = Ret i ->
     i <= 0 \/ Z.of_nat (List.length (get_queue w (chat_id msg))) < i ->
     removals (trace (remove_song w msg)) = []
     /\ forallb is_rejection (replies (trace (remove_song w msg))) = true
     /\ (chat_id msg <= 0 -> rejected (trace (remove_song w msg)) = true))
  /\ (forall chat n, In (chat, n) (removals (trace (remove_song w msg))) ->
      chat = chat_id msg /\ argument_int w msg = Ret n
      /\ 1 <= n <= Z.of_nat (List.length (get_queue w (chat_id msg))))
  /\ (forall i, argument_int w msg = Ret i ->
      1 <= i <= Z.of_nat (List.length (get_queue w (chat_id msg))) ->
      chat_id msg <= 0 ->
      is_admin w (chat_id msg) (from_user_id msg) = true ->
      is_active w (chat_id msg) = true ->
      removals (trace (remove_song w msg)) = [(chat_id msg, i)]).
Proof.
  split; [|split].
  - intros i Hi Hout. apply (remove_not_in_range w msg i Hi).
    unfold in_queue_range. lia.
  - intros chat n. unfold remove_song.
    destruct (Z.ltb_spec 0 (chat_id msg)) as [Hpos|_]; [contradiction|].
    cbn [ask mbind].
    destruct (is_admin w (chat_id msg) (from_user_id msg)); cbn [negb];
      [|contradiction].
    cbn [ask mbind].
    destruct (is_active w (chat_id msg)); cbn [negb]; [|contradiction].
    destruct (opt_truthy (extract_argument w (text msg))); cbn [negb];
      [|contradiction].
    fold (argument_int w msg).
    destruct (argument_int w msg) as [i|e]; [|contradiction].
    cbn [lift mbind ask].
    destruct (get_queue w (chat_id msg)) as [|t q] eqn:Hq; [contradiction|].
    destruct (Z.leb_spec i 0) as [?|Hlo]; [contradiction|].
    destruct (Z.ltb_spec (Z.of_nat (List.length (t :: q))) i) as [?|Hhi];
      [contradiction|].
    cbn [orb]. split_run; cbn [In]; intros [[= <- <-]|[]];
      (split; [reflexivity|]; split; [reflexivity|lia]).
  - intros i Hi Hin Hgroup Hadmin Hactive. unfold remove_song.
    destruct (Z.ltb_spec 0 (chat_id msg)) as [?|_]; [lia|].
    cbn [ask mbind]. rewrite Hadmin. cbn [negb ask mbind]. rewrite Hactive.
    cbn [negb]. rewrite (argument_int_truthy w msg i Hi). cbn [negb].
    fold (argument_int w msg). rewrite Hi. cbn [lift mbind ask].
    destruct (get_queue w (chat_id msg)) as [|t q] eqn:Hq;
      [cbn [List.length] in Hin; lia|].
    assert (Hok : (i <=? 0) || (Z.of_nat (List.length (t :: q)) <? i) = false)
      by lia.
    rewrite Hok. split_run; reflexivity.
Qed.

Lemma remove_checks_index_example :
  removals (trace (remove_song (playing_world "3")
                               (group_message "/remove 3"))) = []
  /\ rejected (trace (remove_song (playing_world "3")
                                  (group_message "/remove 3"))) = true.
Proof.
  destruct (proj1 (remove_checks_index (playing_world "3")
                     (group_message "/remove 3")) 3 eq_refl
              ltac:(right; cbn; lia)) as (H1 & _ & H3).
  split; [exact H1 | apply H3; cbn; lia].
Defined.

End Requests.

(* ================================================================== *)
(** * More on the patterns and on [split]                              *)
(* ================================================================== *)

Section Extension.
Import Py Notions.

Lemma extends_lit (p : string) : extends (lit p).
Proof.
  induction p as [|a p IH]; intros s s' x Hin.
  - cbn [lit In] in *. destruct Hin as [<-|[]]. now left.
  - destruct s as [|c s]; [contradiction|]. cbn [append lit] in *.
    destruct (Ascii.eqb (lower a) (lower c)); [|contradiction].
    now apply IH.
Qed.

Lemma extends_seq (r1 r2 : re) :
  extends r1 -> extends r2 -> extends (seq r1 r2).
Proof.
  intros H1 H2 s s' x Hin. unfold seq in *.
  apply in_flat_map in Hin as (m & Hm & Hs).
  apply in_flat_map. exists (m ++ x)%string. split; auto.
Qed.

Lemma extends_alt (r1 r2 : re) :
  extends r1 -> extends r2 -> extends (alt r1 r2).
Proof.
  intros H1 H2 s s' x Hin. unfold alt in *.
  apply in_app_or in Hin as [Hin|Hin]; apply in_or_app; auto.
Qed.

Lemma extends_opt (r : re) : extends r -> extends (opt r).
Proof.
  intros H s s' x Hin. unfold opt in *.
  apply in_app_or in Hin as [Hin|[<-|[]]]; apply in_or_app; auto.
  right. now left.
Qed.

Lemma many_has_whole (cls : ascii -> bool) (s : string) : In s (many cls s).
Proof.
  destruct s as [|c s]; cbn [many]; [now left|].
  destruct (cls c); [apply in_or_app; right|]; now left.
Qed.

Lemma extends_many (cls : ascii -> bool) :
  forall s s' x, In s' (many cls s) ->
  In (s' ++ x)%string (many cls (s ++ x)%string).
Proof.
  induction s as [|c s IH]; intros s' x Hin.
  - cbn [many In] in Hin. destruct Hin as [<-|[]]. apply many_has_whole.
  - cbn [append many] in *. destruct (cls c).
    + apply in_app_or in Hin as [Hin|[<-|[]]]; apply in_or_app;
        [left; now apply IH | right; now left].
    + destruct Hin as [<-|[]]. now left.
Qed.

Lemma extends_many1 (cls : ascii -> bool) : extends (many1 cls).
Proof.
  intros s s' x Hin. destruct s as [|c s]; [contradiction|].
  cbn [append many1] in *. destruct (cls c); [|contradiction].
  now apply extends_many.
Qed.

Lemma extends_match (r : re) (s x : string) :
  extends r -> re_match r s = true -> re_match r (s ++ x)%string = true.
Proof.
  intros H. unfold re_match. destruct (r s) as [|s' l] eqn:E; [discriminate|].
  intros _. assert (Hin : In (s' ++ x)%string (r (s ++ x)%string))
    by (apply H; rewrite E; now left).
  destruct (r (s ++ x)%string); [contradiction | reflexivity].
Qed.

(** Cutting a text at its first [a] does not change whether [r] matches,
    when the matches of [r] hold no [a]. *)
Lemma cut_keeps_match (a : ascii) (r : re) (head rest : string) :
  stays_before a r -> extends r ->
  str_in (String a EmptyString) head = false ->
  re_match r (head ++ String a rest)%string = re_match r head.
Proof.
  intros Hs He Hh.
  destruct (re_match r head) eqn:E1.
  - now apply extends_match.
  - destruct (re_match r (head ++ String a rest)%string) eqn:E2;
      [|reflexivity].
    rewrite (stays_before_match a r head rest Hs Hh E2) in E1. discriminate.
Qed.

Lemma split_go_cons (sep cur : string) (c : ascii) (s : string) :
  split_go sep O cur (String c s)
  = if prefix sep (String c s)
    then cur :: split_go sep (Nat.pred (String.length sep)) EmptyString s
    else split_go sep O (cur ++ String c EmptyString)%string s.
Proof. reflexivity. Qed.

Lemma split_go_skip (sep cur : string) (k : nat) (c : ascii) (s : string) :
  split_go sep (S k) cur (String c s) = split_go sep k cur s.
Proof. reflexivity. Qed.

Lemma prefix_two (a b : ascii) (s : string) :
  prefix (String a (String b EmptyString)) (String a (String b s)) = true.
Proof.
  cbn [prefix].
  destruct (ascii_dec a a) as [_|n]; [|now elim n].
  destruct (ascii_dec b b) as [_|n]; [|now elim n].
  now destruct s.
Qed.

(** With a separator of two different characters, the first piece of
    [split] is the text before its first occurrence. *)
Lemma split_go_first2 (a b : ascii) (rest : string) :
  a <> b ->
  forall head cur,
    str_in (String a (String b EmptyString)) head = false ->
    split_go (String a (String b EmptyString)) O cur
             (head ++ String a (String b rest))%string
    = (cur ++ head)%string
      :: split_go (String a (String b EmptyString)) O EmptyString rest.
Proof.
  intros Hab. induction head as [|c head IH]; intros cur H.
  - cbn [append]. rewrite split_go_cons, prefix_two.
    cbn [String.length Nat.pred]. rewrite split_go_skip.
    now rewrite append_empty_r.
  - destruct (str_in_cons _ _ _ H) as [Hp Hs].
    assert (Hp' : prefix (String a (String b EmptyString))
                    (String c (head ++ String a (String b rest)))%string
                  = false).
    { cbn [prefix] in *. destruct (ascii_dec a c) as [->|n]; [|reflexivity].
      destruct head as [|c2 head]; cbn [append prefix] in *.
      - destruct (ascii_dec b c) as [e|n]; [now elim Hab | reflexivity].
      - destruct (ascii_dec b c2); [|reflexivity].
        destruct head; discriminate. }
    cbn [append]. rewrite split_go_cons, Hp'.
    rewrite (IH _ Hs). now rewrite append_assoc.
Qed.

Lemma split_first2 (a b : ascii) (head rest : string) :
  a <> b ->
  str_in (String a (String b EmptyString)) head = false ->
  str_in (String a (String b EmptyString)) rest = false ->
  split (String a (String b EmptyString))
        (head ++ String a (String b rest))%string
  = [head; rest].
Proof.
  intros Hab Hh Hr. unfold split.
  rewrite (split_go_first2 a b rest Hab head EmptyString Hh).
  now rewrite (split_go_absent _ rest EmptyString Hr).
Qed.

End Extension.

(* ================================================================== *)
(** * More on the YouTube backend                                      *)
(* ================================================================== *)

Section Validity.
Import Py YouTube Notions.

Ltac pattern_pieces :=
  repeat first
    [ apply stays_before_seq | apply stays_before_opt | apply stays_before_alt
    | apply stays_before_lit; reflexivity
    | apply stays_before_many1; reflexivity
    | apply extends_seq | apply extends_opt | apply extends_alt
    | apply extends_lit | apply extends_many1 ].

Lemma video_pattern_stays_before_ampersand :
  stays_before "&" YOUTUBE_VIDEO_PATTERN.
Proof. unfold YOUTUBE_VIDEO_PATTERN, site. pattern_pieces. Qed.

Lemma video_pattern_extends : extends YOUTUBE_VIDEO_PATTERN.
Proof. unfold YOUTUBE_VIDEO_PATTERN, site. pattern_pieces. Qed.

Lemma playlist_pattern_extends : extends YOUTUBE_PLAYLIST_PATTERN.
Proof. unfold YOUTUBE_PLAYLIST_PATTERN, site. pattern_pieces. Qed.

(** X5.  The cut that the constructor makes at the first ampersand never
    changes what [is_valid] says: the stored query is accepted exactly
    when the query that was given is.  On a query that is not accepted
    [get_info] returns [None], whatever the network would answer. *)
Theorem init_keeps_validity (raw : string) :
  exists self,
    __init__ (Some raw) = Ret self
    /\ is_valid (query self) = is_valid (Some raw)
    /\ (is_valid (Some raw) = false ->
        forall depth net, get_info (S depth) net self = Ret None).
Proof.
  enough (H : exists self, __init__ (Some raw) = Ret self
                /\ is_valid (query self) = is_valid (Some raw)).
  { destruct H as (self & H1 & H2). exists self. split; [exact H1|].
    split; [exact H2|]. intros Hv depth net. cbn [get_info].
    now rewrite H2, Hv. }
  destruct (str_truthy raw) eqn:Ht.
  2: { destruct raw; [|discriminate]. eexists. split; reflexivity. }
  destruct (str_in "&" raw) eqn:Hamp.
  2: { eexists. split; [exact (init_without_ampersand raw Ht Hamp)|].
       reflexivity. }
  destruct (cut_at_first "&" raw Hamp) as (head & rest & -> & Hh).
  eexists. split; [exact (init_with_ampersand head rest Hh)|].
  cbn [query is_valid]. rewrite Ht.
  change (head ++ "&" ++ rest)%string with (head ++ String "&" rest)%string.
  rewrite (cut_keeps_match "&" _ head rest
             video_pattern_stays_before_ampersand video_pattern_extends Hh).
  rewrite (cut_keeps_match "&" _ head rest
             playlist_pattern_stays_before_ampersand playlist_pattern_extends
             Hh).
  destruct head; reflexivity.
Qed.

End Validity.

Section Videos.
Import Py YouTube Notions.

(** ** One video *)

Lemma v_differs : "v"%char <> "="%char.
Proof. discriminate. Qed.

(** [_get_youtube_url] on a URL with one [v=], when oEmbed answers with a
    dict that is not empty. *)
Lemma get_youtube_url_track (net : Net) (head ident : string)
  (d : list (string * pyval)) :
  str_in "v=" head = false -> str_in "v=" ident = false ->
  make_request net (oembed (head ++ "v=" ++ ident)%string) = Ret (VDict d) ->
  d <> [] ->
  _get_youtube_url net (head ++ "v=" ++ ident)%string
  = Ret (Some [mkTrackDict (VStr ident) (item d "title" VNone) 0
                 (item d "author_name" (VStr EmptyString))
                 (item d "thumbnail_url" (VStr EmptyString)) 0 "youtube"]).
Proof.
  intros Hh Hi Hreq Hd. unfold _get_youtube_url. fold (oembed (head ++ "v=" ++ ident)).
  rewrite Hreq. cbn [bind].
  assert (Ht : truthy (VDict d) = true) by (destruct d; [now elim Hd | reflexivity]).
  rewrite Ht. cbn [negb].
  change (head ++ "v=" ++ ident)%string
    with (head ++ String "v" (String "=" ident))%string.
  rewrite (split_first2 "v" "=" head ident v_differs Hh Hi).
  reflexivity.
Qed.

Lemma get_youtube_url_nothing (net : Net) (url : string) (data : pyval) :
  make_request net (oembed url) = Ret data -> truthy data = false ->
  _get_youtube_url net url = Ret None.
Proof.
  intros Hreq Hd. unfold _get_youtube_url. fold (oembed url).
  rewrite Hreq. cbn [bind]. now rewrite Hd.
Qed.

Lemma get_info_video (depth : nat) (net : Net) (url : string) :
  re_match YOUTUBE_VIDEO_PATTERN url = true ->
  get_info (S (S depth)) net (mkYouTubeData (Some url))
  = bind (_get_youtube_url net url) (fun r => finish (option_map FDict r)).
Proof.
  intros Hm. cbn [get_info query is_valid].
  rewrite (video_pattern_needs_text url Hm), Hm. cbn [orb negb].
  cbn [_fetch_data]. rewrite Hm.
  destruct (_get_youtube_url net url); reflexivity.
Qed.

(** X6.  A video URL with one [v=] in it resolves to one track: its id
    is the text after [v=], title, artist and cover are what oEmbed gave
    (absent title: [None]; absent artist or cover: the empty text), and
    duration and year are 0.  When oEmbed gives nothing the result is
    [None]. *)
Theorem get_info_single_video
  (depth : nat) (net : Net) (head ident : string) :
  re_match YOUTUBE_VIDEO_PATTERN (head ++ "v=" ++ ident)%string = true ->
  str_in "&" (head ++ "v=" ++ ident)%string = false ->
  str_in "v=" head = false -> str_in "v=" ident = false ->
  (forall d,
      make_request net (oembed (head ++ "v=" ++ ident)%string) = Ret (VDict d) ->
      d <> [] ->
      bind (__init__ (Some (head ++ "v=" ++ ident)%string))
           (get_info (S (S depth)) net)
      = Ret (Some (mkPlatformTracks [oembed_track ident d])))
  /\ (forall data,
      make_request net (oembed (head ++ "v=" ++ ident)%string) = Ret data ->
      truthy data = false ->
      bind (__init__ (Some (head ++ "v=" ++ ident)%string))
           (get_info (S (S depth)) net)
      = Ret None).
Proof.
  intros Hm Hamp Hh Hi.
  rewrite (init_without_ampersand _ (video_pattern_needs_text _ Hm) Hamp).
  cbn [bind]. rewrite (get_info_video depth net _ Hm). split.
  - intros d Hreq Hd.
    now rewrite (get_youtube_url_track net head ident d Hh Hi Hreq Hd).
  - intros data Hreq Hd.
    now rewrite (get_youtube_url_nothing net _ data Hreq Hd).
Qed.

Lemma get_info_single_video_example :
  bind (__init__ (Some "https://www.youtube.com/watch?v=dQw4w9WgXcQ&t=42"))
       (get_info 2 oembed_answers)
  = Ret (Some (mkPlatformTracks
          [mkMusicTrack (VStr "dQw4w9WgXcQ") (VStr "Short clip") 0
             (VStr "Channel") (VStr EmptyString) 0 "youtube"])).
Proof.
  assert (H := proj1 (get_info_single_video 0 oembed_answers
                        "https://www.youtube.com/watch?" "dQw4w9WgXcQ"
                        eq_refl eq_refl eq_refl eq_refl)
                 _ eq_refl ltac:(discriminate)).
  exact H.
Defined.

(** X7.  [get_track] on an id without [v=] in it returns a track exactly
    when oEmbed answers with a dict that is not empty; the track carries
    the id in [tc], the title, artist and cover of the answer, the album
    [YouTube] and duration 0.  Any other answer, and any exception of the
    request, gives [None]. *)
Theorem get_track_by_id (net : Net) (q : string) :
  str_in "v=" q = false ->
  (forall d,
      make_request net (oembed ("https://youtube.com/watch?v=" ++ q)%string)
      = Ret (VDict d) ->
      d <> [] ->
      get_track net (mkYouTubeData (Some q))
      = Ret (Some (mkTrackInfo "None" "None" (item d "title" VNone)
                     (item d "author_name" (VStr EmptyString)) (VStr q)
                     "YouTube" (item d "thumbnail_url" (VStr EmptyString))
                     "None" 0 0)))
  /\ (forall data,
      make_request net (oembed ("https://youtube.com/watch?v=" ++ q)%string)
      = Ret data ->
      (forall d, d <> [] -> data <> VDict d) ->
      get_track net (mkYouTubeData (Some q)) = Ret None)
  /\ (forall e,
      make_request net (oembed ("https://youtube.com/watch?v=" ++ q)%string)
      = Raise e ->
      is_Exception e = true ->
      get_track net (mkYouTubeData (Some q)) = Ret None).
Proof.
  intros Hq. unfold get_track. cbn [query str_of_query].
  split; [|split].
  - intros d Hreq Hd.
    change ("https://youtube.com/watch?v=" ++ q)%string
      with ("https://youtube.com/watch?" ++ "v=" ++ q)%string in *.
    now rewrite (get_youtube_url_track net "https://youtube.com/watch?" q d
                   eq_refl Hq Hreq Hd).
  - intros data Hreq Hnot. unfold _get_youtube_url.
    fold (oembed ("https://youtube.com/watch?v=" ++ q)).
    rewrite Hreq. cbn [bind].
    destruct (truthy data) eqn:Ht; [|reflexivity]. cbn [negb].
    change ("https://youtube.com/watch?v=" ++ q)%string
      with ("https://youtube.com/watch?" ++ String "v" (String "=" q))%string.
    rewrite (split_first2 "v" "=" "https://youtube.com/watch?" q v_differs
               eq_refl Hq).
    destruct data as [| | | | |d]; try reflexivity.
    destruct d as [|kv d]; [discriminate|].
    now elim (Hnot (kv :: d)).
  - intros e Hreq He. unfold _get_youtube_url.
    fold (oembed ("https://youtube.com/watch?v=" ++ q)).
    rewrite Hreq. cbn [bind try_except]. now rewrite He.
Qed.

Lemma get_track_by_id_example :
  get_track oembed_answers (mkYouTubeData (Some "dQw4w9WgXcQ"))
  = Ret (Some (mkTrackInfo "None" "None" (VStr "Short clip") (VStr "Channel")
                 (VStr "dQw4w9WgXcQ") "YouTube" (VStr EmptyString) "None" 0 0)).
Proof.
  exact (proj1 (get_track_by_id oembed_answers "dQw4w9WgXcQ" eq_refl)
           _ eq_refl ltac:(discriminate)).
Defined.

End Videos.

Section Listings.
Import Py YouTube Notions.

(** ** Search results and playlists *)

Lemma bind_raises {A B} (m : outcome A) (k : A -> outcome B) (e : exn) :
  bind m k = Raise e ->
  m = Raise e \/ exists a, m = Ret a /\ k a = Raise e.
Proof.
  destruct m as [a|e0]; cbn [bind]; intros H.
  - right. exists a. split; [reflexivity | exact H].
  - left. now injection H as ->.
Qed.

Lemma int_unsigned_raises (l : list ascii) (e : exn) :
  int_unsigned l = Raise e -> e = ValueError.
Proof.
  unfold int_unsigned. destruct (int_digits false 0 0 l) as [[v n]|].
  - destruct (int_max_str_digits <? n)%nat; congruence.
  - congruence.
Qed.

Lemma int_of_str_raises (s : string) (e : exn) :
  int_of_str s = Raise e -> e = ValueError.
Proof.
  unfold int_of_str. destruct (strip (list_ascii_of_string s)) as [|c l].
  - congruence.
  - destruct (Ascii.eqb c "-").
    + intros H. apply bind_raises in H as [H|(a & _ & H)];
        [now apply int_unsigned_raises in H | discriminate].
    + destruct (Ascii.eqb c "+"); apply int_unsigned_raises.
Qed.

Lemma index_raises {A} (l : list A) (i : Z) (e : exn) :
  index l i = Raise e -> e = IndexError.
Proof.
  unfold index. destruct (_ || _); [congruence|].
  destruct (nth_error l _); congruence.
Qed.

Lemma duration_raises (v : pyval) (e : exn) :
  _duration_to_seconds v = Raise e -> is_Exception e = true.
Proof.
  unfold _duration_to_seconds. destruct (truthy v); cbn [negb]; [|discriminate].
  destruct v as [| | |s| |]; try (intros [= <-]; reflexivity).
  destruct (split ":" s) as [|a [|b [|c [|x l]]]]; try discriminate.
  - intros H.
    apply bind_raises in H as [H|(? & _ & H)];
      [apply int_of_str_raises in H; now subst|].
    apply bind_raises in H as [H|(? & _ & H)];
      [apply int_of_str_raises in H; now subst | discriminate].
  - intros H.
    apply bind_raises in H as [H|(? & _ & H)];
      [apply int_of_str_raises in H; now subst|].
    apply bind_raises in H as [H|(? & _ & H)];
      [apply int_of_str_raises in H; now subst|].
    apply bind_raises in H as [H|(? & _ & H)];
      [apply int_of_str_raises in H; now subst | discriminate].
Qed.

Lemma get_raises (v : pyval) (k : string) (default : pyval) (e : exn) :
  get v k default = Raise e -> is_Exception e = true.
Proof. destruct v; cbn [get]; intros [= <-]; reflexivity. Qed.

Lemma subscript_int_raises (v : pyval) (i : Z) (e : exn) :
  subscript_int v i = Raise e -> is_Exception e = true.
Proof.
  destruct v; cbn [subscript_int]; try (intros [= <-]; reflexivity);
    intros H; apply index_raises in H; now subst.
Qed.

(** Whatever [_format_track] raises is of class [Exception]. *)
Lemma format_track_raises (v : pyval) (e : exn) :
  _format_track v = Raise e -> is_Exception e = true.
Proof.
  unfold _format_track. intros H.
  repeat match type of H with
         | bind _ _ = Raise _ =>
             apply bind_raises in H as [H|(? & _ & H)];
             [first [ now apply get_raises in H
                    | now apply duration_raises in H
                    | now apply subscript_int_raises in H ]|]
         end.
  discriminate.
Qed.

(** A comprehension with a call that raises, raises what one of its calls
    does. *)
Lemma comprehension_raises {A B} (f : A -> outcome B) (xs : list A) :
  Exists (fun x => returns (f x) = false) xs ->
  exists x e, In x xs /\ f x = Raise e /\ comprehension f xs = Raise e.
Proof.
  induction xs as [|x xs IH]; intros H; [inversion H|].
  cbn [comprehension]. destruct (f x) as [y|e] eqn:Ex.
  - cbn [bind]. inversion H as [? ? Hx|? ? Hxs]; subst.
    + rewrite Ex in Hx. discriminate.
    + destruct (IH Hxs) as (x' & e & Hin & Hf & Hc).
      exists x', e. rewrite Hc. repeat split; auto. now right.
  - exists x, e. repeat split; auto. now left.
Qed.

Lemma not_well_formed_raises (vs : list pyval) :
  Exists (fun v => well_formed v = false) vs ->
  exists e, comprehension _format_track vs = Raise e /\ is_Exception e = true.
Proof.
  intros H.
  assert (H' : Exists (fun v => returns (_format_track v) = false) vs).
  { eapply Exists_impl; [|exact H]. intros v Hv.
    change (parses v = false). now rewrite parses_iff_well_formed. }
  destruct (comprehension_raises _ _ H') as (x & e & _ & Hf & Hc).
  exists e. split; [exact Hc | exact (format_track_raises x e Hf)].
Qed.

Lemma well_formed_format (vs : list pyval) :
  Forall (fun v => well_formed v = true) vs ->
  exists rs, comprehension _format_track vs = Ret rs
             /\ Forall2 listed_as vs (map MusicTrack_of rs).
Proof.
  intros Hwf.
  assert (Hfmt : Forall (fun v => returns (_format_track v) = true) vs).
  { eapply Forall_impl; [|exact Hwf]. intros v Hv.
    change (parses v = true). now rewrite parses_iff_well_formed. }
  destruct (comprehension_returns _format_track vs Hfmt) as (rs & E & F).
  exists rs. split; [exact E|]. clear E Hfmt Hwf.
  induction F as [|v r vs' rs' Hv _ IH]; cbn [map]; constructor;
    [exact (format_track_fields v r Hv) | exact IH].
Qed.

(** [search] on a text that is not a YouTube URL is its free-text branch. *)
Lemma search_free_text (depth : nat) (net : Net) (self : YouTubeData)
  (q : string) :
  query self = Some q -> str_truthy q = true -> is_valid (Some q) = false ->
  search (S depth) net self
  = bind (search_text net q) (fun data => finish (option_map FDict data)).
Proof. intros Hq Ht Hv. cbn [search]. now rewrite Hq, Ht, Hv. Qed.

(** X8.  A free-text search whose results are all well formed returns one
    track per result, in the order of the results, each with the result's
    id and title, year 0 and the platform tag. *)
Theorem search_tracks_in_result_order
  (depth : nat) (net : Net) (self : YouTubeData) (q : string)
  (d : list (string * pyval)) (vs : list pyval) :
  query self = Some q -> str_truthy q = true -> is_valid (Some q) = false ->
  videos_search_next net q = Ret (VDict d) ->
  lookup "result" d = Some (VList vs) ->
  Forall (fun v => well_formed v = true) vs ->
  exists pt, search (S depth) net self = Ret (Some pt)
             /\ Forall2 listed_as vs (tracks pt).
Proof.
  intros Hq Ht Hv Hnext Hres Hwf.
  rewrite (search_free_text depth net self q Hq Ht Hv).
  unfold search_text. rewrite Hnext. cbn [bind contains_str]. rewrite Hres.
  cbn [bind subscript_str]. rewrite Hres. cbn [bind iterate].
  destruct (well_formed_format vs Hwf) as (rs & E & F). rewrite E.
  cbn [bind try_except option_map finish _create_platform_tracks].
  eexists. split; [reflexivity | exact F].
Qed.

Lemma search_tracks_in_result_order_example :
  exists pt,
    search 1 search_answers (mkYouTubeData (Some "lofi beats")) = Ret (Some pt)
    /\ Forall2 listed_as
         [entry "v1" "First" "3:45"; entry "v2" "Second" "1:02:03"]
         (tracks pt).
Proof.
  apply (search_tracks_in_result_order 0 search_answers
           (mkYouTubeData (Some "lofi beats")) "lofi beats" _ _
           eq_refl eq_refl eq_refl eq_refl eq_refl).
  repeat constructor.
Defined.

(** X9.  A free-text search gives [None], and raises nothing, when the
    search library raises, when its answer has no [result] key, and when
    one of the results is malformed: the whole answer is dropped, the
    well-formed results with it. *)
Theorem search_failure_is_none
  (depth : nat) (net : Net) (self : YouTubeData) (q : string) :
  query self = Some q -> str_truthy q = true -> is_valid (Some q) = false ->
  (forall e, videos_search_next net q = Raise e -> is_Exception e = true ->
     search (S depth) net self = Ret None)
  /\ (forall d, videos_search_next net q = Ret (VDict d) ->
      lookup "result" d = None ->
      search (S depth) net self = Ret None)
  /\ (forall d vs, videos_search_next net q = Ret (VDict d) ->
      lookup "result" d = Some (VList vs) ->
      Exists (fun v => well_formed v = false) vs ->
      search (S depth) net self = Ret None).
Proof.
  intros Hq Ht Hv. rewrite (search_free_text depth net self q Hq Ht Hv).
  unfold search_text. split; [|split].
  - intros e Hnext He. rewrite Hnext. cbn [bind try_except]. now rewrite He.
  - intros d Hnext Hres. rewrite Hnext. cbn [bind contains_str].
    now rewrite Hres.
  - intros d vs Hnext Hres Hbad. rewrite Hnext. cbn [bind contains_str].
    rewrite Hres. cbn [bind subscript_str]. rewrite Hres. cbn [bind iterate].
    destruct (not_well_formed_raises vs Hbad) as (e & E & He). rewrite E.
    cbn [bind try_except]. now rewrite He.
Qed.

Lemma search_failure_is_none_example :
  search 1 search_with_bare_entry (mkYouTubeData (Some "lofi beats"))
  = Ret None.
Proof.
  apply (proj2 (proj2 (search_failure_is_none 0 search_with_bare_entry
                  (mkYouTubeData (Some "lofi beats")) "lofi beats"
                  eq_refl eq_refl eq_refl)) _ _ eq_refl eq_refl).
  apply Exists_cons_tl, Exists_cons_hd. reflexivity.
Defined.

(** X10.  On a playlist URL, [get_info] gives [None] when the playlist
    library raises an exception of class [Exception] and when its answer
    is empty; an answer without a [videos] key gives a [PlatformTracks]
    with no track, not [None]; and an exception that is not of class
    [Exception] gets through. *)
Theorem playlist_edge_cases (depth : nat) (net : Net) (url : string) :
  re_match YOUTUBE_PLAYLIST_PATTERN url = true ->
  (forall e, playlist_getVideos net url = Raise e -> is_Exception e = true ->
     get_info (S (S depth)) net (mkYouTubeData (Some url)) = Ret None)
  /\ (forall p, playlist_getVideos net url = Ret p -> truthy p = false ->
      get_info (S (S depth)) net (mkYouTubeData (Some url)) = Ret None)
  /\ (forall d, playlist_getVideos net url = Ret (VDict d) -> d <> [] ->
      lookup "videos" d = None ->
      get_info (S (S depth)) net (mkYouTubeData (Some url))
      = Ret (Some (mkPlatformTracks [])))
  /\ (forall e, playlist_getVideos net url = Raise e -> is_Exception e = false ->
      get_info (S (S depth)) net (mkYouTubeData (Some url)) = Raise e).
Proof.
  intros Hp. rewrite (get_info_playlist depth net url Hp). unfold _get_playlist.
  split; [|split; [|split]].
  - intros e Hget He. rewrite Hget, He. now destruct (is_KeyError e).
  - intros p Hget Hf. now rewrite Hget, Hf.
  - intros d Hget Hd Hno. rewrite Hget.
    assert (Ht : truthy (VDict d) = true)
      by (destruct d; [now elim Hd | reflexivity]).
    rewrite Ht. cbn [get]. now rewrite Hno.
  - intros e Hget He. rewrite Hget, He.
    destruct e; try discriminate. reflexivity.
Qed.

Lemma playlist_edge_cases_example :
  get_info 2 playlist_without_videos
    (mkYouTubeData (Some "https://youtube.com/playlist?list=PL1"))
  = Ret (Some (mkPlatformTracks []))
  /\ get_info 2 oembed_answers
       (mkYouTubeData (Some "https://youtube.com/playlist?list=PL1"))
     = Ret None.
Proof.
  split.
  - apply (proj1 (proj2 (proj2 (playlist_edge_cases 0 playlist_without_videos
                    "https://youtube.com/playlist?list=PL1" eq_refl)))
             _ eq_refl); [discriminate | reflexivity].
  - exact (proj1 (playlist_edge_cases 0 oembed_answers
                    "https://youtube.com/playlist?list=PL1" eq_refl)
             _ eq_refl eq_refl).
Defined.

End Listings.

(* ================================================================== *)
(** * What the backend raises                                          *)
(* ================================================================== *)

Section Escapes.
Import Py YouTube Notions.

Lemma parse_error_is_Exception (e : exn) :
  parse_error e = true -> is_Exception e = true.
Proof. destruct e; first [reflexivity | discriminate]. Qed.

Lemma not_Exception_is_cancelled (e : exn) :
  is_Exception e = false -> e = CancelledError.
Proof. destruct e; first [reflexivity | discriminate]. Qed.

(** ** Reading a payload raises parse errors only *)

Lemma get_parse_error (v : pyval) (k : string) (default : pyval) (e : exn) :
  get v k default = Raise e -> parse_error e = true.
Proof. destruct v; cbn [get]; intros [= <-]; reflexivity. Qed.

Lemma subscript_int_parse_error (v : pyval) (i : Z) (e : exn) :
  subscript_int v i = Raise e -> parse_error e = true.
Proof.
  destruct v; cbn [subscript_int]; try (intros [= <-]; reflexivity);
    intros H; apply index_raises in H; now subst.
Qed.

Lemma subscript_str_parse_error (v : pyval) (k : string) (e : exn) :
  subscript_str v k = Raise e -> parse_error e = true.
Proof.
  destruct v; cbn [subscript_str]; try (intros [= <-]; reflexivity).
  destruct (lookup k d); intros [= <-]; reflexivity.
Qed.

Lemma contains_str_parse_error (k : string) (v : pyval) (e : exn) :
  contains_str k v = Raise e -> parse_error e = true.
Proof. destruct v; cbn [contains_str]; intros [= <-]; reflexivity. Qed.

Lemma iterate_parse_error (v : pyval) (e : exn) :
  iterate v = Raise e -> parse_error e = true.
Proof. destruct v; cbn [iterate]; intros [= <-]; reflexivity. Qed.

Lemma duration_parse_error (v : pyval) (e : exn) :
  _duration_to_seconds v = Raise e -> parse_error e = true.
Proof.
  unfold _duration_to_seconds. destruct (truthy v); cbn [negb]; [|discriminate].
  destruct v as [| | |s| |]; try (intros [= <-]; reflexivity).
  destruct (split ":" s) as [|a [|b [|c [|x l]]]]; try discriminate;
    intros H;
    repeat match type of H with
           | bind _ _ = Raise _ =>
               apply bind_raises in H as [H|(? & _ & H)];
               [apply int_of_str_raises in H; now subst|]
           end;
    discriminate.
Qed.

Lemma format_track_parse_error (v : pyval) (e : exn) :
  _format_track v = Raise e -> parse_error e = true.
Proof.
  unfold _format_track. intros H.
  repeat match type of H with
         | bind _ _ = Raise _ =>
             apply bind_raises in H as [H|(? & _ & H)];
             [first [ now apply get_parse_error in H
                    | now apply duration_parse_error in H
                    | now apply subscript_int_parse_error in H ]|]
         end.
  discriminate.
Qed.

(** A comprehension raises what one of its calls raised. *)
Lemma comprehension_raised {A B} (f : A -> outcome B) (xs : list A) (e : exn) :
  comprehension f xs = Raise e -> exists x, In x xs /\ f x = Raise e.
Proof.
  induction xs as [|x xs IH]; [discriminate|].
  cbn [comprehension]. intros H.
  apply bind_raises in H as [H|(y & _ & H)].
  - exists x. split; [now left | exact H].
  - apply bind_raises in H as [H|(ys & _ & H)]; [|discriminate].
    destruct (IH H) as (x' & Hin & Hf). exists x'. split; [now right | exact Hf].
Qed.

Lemma formatting_parse_error (vs : list pyval) (e : exn) :
  comprehension _format_track vs = Raise e -> parse_error e = true.
Proof.
  intros H. destruct (comprehension_raised _ _ _ H) as (v & _ & Hv).
  exact (format_track_parse_error v e Hv).
Qed.

(** ** What each branch raises *)

(** [_get_youtube_url] raises what the HTTP client raised, or a parse
    error. *)
Lemma get_youtube_url_raises (net : Net) (url : string) (e : exn) :
  _get_youtube_url net url = Raise e ->
  make_request net (oembed url) = Raise e \/ parse_error e = true.
Proof.
  unfold _get_youtube_url. fold (oembed url). intros H.
  apply bind_raises in H as [H|(data & _ & H)]; [now left|]. right.
  destruct (truthy data); cbn [negb] in H; [|discriminate].
  apply bind_raises in H as [H|(? & _ & H)];
    [apply index_raises in H; now subst|].
  repeat match type of H with
         | bind _ _ = Raise _ =>
             apply bind_raises in H as [H|(? & _ & H)];
             [now apply get_parse_error in H|]
         end.
  discriminate.
Qed.

(** [_get_playlist] raises what the playlist library raised when that is
    no [Exception], or a parse error of an entry. *)
Lemma get_playlist_raises (net : Net) (url : string) (e : exn) :
  _get_playlist net url = Raise e ->
  (playlist_getVideos net url = Raise e /\ is_Exception e = false)
  \/ parse_error e = true.
Proof.
  unfold _get_playlist.
  destruct (playlist_getVideos net url) as [playlist|x].
  - intros H. right. destruct (truthy playlist); [|discriminate].
    apply bind_raises in H as [H|(? & _ & H)];
      [now apply get_parse_error in H|].
    apply bind_raises in H as [H|(? & _ & H)];
      [now apply iterate_parse_error in H|].
    apply bind_raises in H as [H|(? & _ & H)];
      [now apply formatting_parse_error in H | discriminate].
  - destruct (is_KeyError x); [discriminate|].
    destruct (is_Exception x) eqn:E; [discriminate|].
    intros [= <-]. now left.
Qed.

(** The guarded part of the free-text search raises what the search
    library raised, or a parse error. *)
Lemma search_text_raises (net : Net) (q : string) (e : exn) :
  search_text net q = Raise e ->
  videos_search_next net q = Raise e /\ is_Exception e = false.
Proof.
  unfold search_text, try_except.
  match goal with |- match ?b with _ => _ end = _ -> _ => destruct b as [r|x] eqn:Hb end;
    [discriminate|].
  destruct (is_Exception x) eqn:E; [discriminate|]. intros [= <-].
  split; [|exact E].
  apply bind_raises in Hb as [Hb|(results & _ & Hb)]; [exact Hb|]. exfalso.
  assert (Hp : parse_error x = true).
  { apply bind_raises in Hb as [Hb|(has & _ & Hb)];
      [now apply contains_str_parse_error in Hb|].
    destruct has; [|discriminate].
    apply bind_raises in Hb as [Hb|(? & _ & Hb)];
      [now apply subscript_str_parse_error in Hb|].
    apply bind_raises in Hb as [Hb|(? & _ & Hb)];
      [now apply iterate_parse_error in Hb|].
    apply bind_raises in Hb as [Hb|(? & _ & Hb)];
      [now apply formatting_parse_error in Hb | discriminate]. }
  rewrite (parse_error_is_Exception x Hp) in E. discriminate.
Qed.

Lemma finish_dict_returns (data : option (list TrackDict)) :
  exists r, finish (option_map FDict data) = Ret r.
Proof. destruct data; eexists; reflexivity. Qed.

(** X1.  [get_track], [download_track] and the free-text branch of
    [search] wrap their work in [try ... except Exception]: no exception
    of that class leaves them.  When the
    collaborator raises, the result is [None] if what it raised is an
    [Exception], and what it raised gets through otherwise; when the
    collaborator answers, whatever it answers, the operation returns: a
    payload that cannot be read raises nothing. *)
Theorem guarded_operations_contained (net : Net) (self : YouTubeData) :
  (contained (get_track net self)
   /\ (forall e,
      make_request net
        (oembed ("https://youtube.com/watch?v=" ++ str_of_query (query self)))
      = Raise e ->
      get_track net self = if is_Exception e then Ret None else Raise e)
   /\ (forall data,
      make_request net
        (oembed ("https://youtube.com/watch?v=" ++ str_of_query (query self)))
      = Ret data ->
      exists r, get_track net self = Ret r))
  /\ (forall track,
      contained (download_track net track)
      /\ (forall e, youtube_download net track = Raise e ->
         download_track net track = if is_Exception e then Ret None else Raise e)
      /\ (forall path, youtube_download net track = Ret path ->
          download_track net track = Ret path))
  /\ (forall depth q,
      query self = Some q -> str_truthy q = true -> is_valid (Some q) = false ->
      contained (search (S depth) net self)
      /\ (forall e, videos_search_next net q = Raise e ->
         search (S depth) net self = if is_Exception e then Ret None else Raise e)
      /\ (forall data, videos_search_next net q = Ret data ->
          exists r, search (S depth) net self = Ret r)).
Proof.
  split; [|split].
  - split; [apply try_except_contained; intros; apply ret_contained|].
    unfold get_track. split.
    + intros e Hreq. unfold _get_youtube_url. fold (oembed
        ("https://youtube.com/watch?v=" ++ str_of_query (query self))).
      rewrite Hreq. cbn [bind try_except]. now destruct (is_Exception e).
    + intros data Hreq.
      match goal with |- exists r, try_except ?b _ = _ => destruct b as [r|x] eqn:Hb end;
        [eexists; reflexivity|].
      cbn [try_except].
      apply bind_raises in Hb as [Hb|(res & _ & Hb)].
      * apply get_youtube_url_raises in Hb as [Hb|Hb]; [congruence|].
        rewrite (parse_error_is_Exception x Hb). eexists; reflexivity.
      * destruct res as [results|]; [|discriminate].
        apply bind_raises in Hb as [Hb|(? & _ & Hb)]; [|discriminate].
        apply index_raises in Hb. subst x. eexists; reflexivity.
  - intros track.
    split; [apply try_except_contained; intros; apply ret_contained|].
    unfold download_track. split.
    + intros e ->. cbn [try_except]. now destruct (is_Exception e).
    + intros path ->. reflexivity.
  - intros depth q Hq Ht Hv.
    rewrite (search_free_text depth net self q Hq Ht Hv). split; [|split].
    + intros e He. apply bind_raises in He as [He|(data & _ & He)].
      * exact (search_text_contained net q e He).
      * destruct (finish_dict_returns data) as (r & Hr). congruence.
    + intros e Hnext. unfold search_text. rewrite Hnext.
      cbn [bind try_except]. now destruct (is_Exception e).
    + intros data Hnext.
      destruct (search_text net q) as [r|x] eqn:Hs.
      * cbn [bind]. apply finish_dict_returns.
      * apply search_text_raises in Hs as (Hs & _). congruence.
Qed.

Lemma guarded_operations_contained_example :
  get_track offline (mkYouTubeData (Some "dQw4w9WgXcQ")) = Ret None
  /\ download_track offline some_track = Ret None
  /\ search 1 offline (mkYouTubeData (Some "lofi beats")) = Ret None.
Proof.
  split; [|split].
  - exact (proj1 (proj2 (proj1 (guarded_operations_contained offline
                                  (mkYouTubeData (Some "dQw4w9WgXcQ")))))
             (LibraryError "ConnectError") eq_refl).
  - exact (proj1 (proj2 (proj1 (proj2 (guarded_operations_contained offline
                                         (mkYouTubeData None))) some_track))
             (LibraryError "ConnectError") eq_refl).
  - exact (proj1 (proj2 (proj2 (proj2 (guarded_operations_contained offline
                                         (mkYouTubeData (Some "lofi beats"))))
                           0%nat "lofi beats" eq_refl eq_refl eq_refl))
             (LibraryError "ConnectError") eq_refl).
Defined.

(** With one frame [_fetch_data] on an accepted query raises what the
    HTTP client raised, what the playlist library raised when that is no
    [Exception], or a parse error: the frames do not run out. *)
Lemma fetch_valid_raises (net : Net) (self : YouTubeData) (q : string)
  (e : exn) :
  is_valid (Some q) = true ->
  bind (_fetch_data 1 net self q) finish = Raise e ->
  parse_error e = true
  \/ (exists url, make_request net url = Raise e)
  \/ (is_Exception e = false /\ exists url, playlist_getVideos net url = Raise e).
Proof.
  cbn [is_valid _fetch_data]. intros Hv H.
  destruct (str_truthy q); [|discriminate].
  destruct (re_match YOUTUBE_VIDEO_PATTERN q).
  - apply bind_raises in H as [H|(r & _ & H)].
    + apply bind_raises in H as [H|(? & _ & H)]; [|discriminate].
      apply get_youtube_url_raises in H as [H|H]; [|now left].
      right. left. eexists. exact H.
    + destruct (finish_dict_returns
                  match r with Some (FDict l) => Some l | _ => None end).
      destruct r as [[l|pt]|]; cbn in H; try discriminate.
      injection H as <-. now left.
  - cbn [orb] in Hv. rewrite Hv in H.
    apply bind_raises in H as [H|(r & _ & H)].
    + apply bind_raises in H as [H|(? & _ & H)]; [|discriminate].
      apply get_playlist_raises in H as [(H & He)|H]; [|now left].
      right. right. split; [exact He|]. eexists. exact H.
    + destruct r as [[l|pt]|]; cbn in H; try discriminate.
      injection H as <-. now left.
Qed.

(** X4.  Two stack frames are enough for [get_info] and for [search]:
    with more of them the result is the same, and with two of them what
    they raise is a parse error or what a collaborator raised, never the
    exhaustion of the stack.  So when the HTTP client raises no
    [RecursionError] neither entry point does: the recursion between
    [_fetch_data] and [search] stops. *)
Theorem entry_points_need_two_frames (depth : nat) (net : Net)
  (self : YouTubeData) :
  get_info (S (S depth)) net self = get_info 2 net self
  /\ search (S (S depth)) net self = search 2 net self
  /\ (forall e,
      get_info 2 net self = Raise e \/ search 2 net self = Raise e ->
      parse_error e = true
      \/ (exists url, make_request net url = Raise e)
      \/ (is_Exception e = false
          /\ exists x, playlist_getVideos net x = Raise e
                       \/ videos_search_next net x = Raise e))
  /\ ((forall url, make_request net url <> Raise RecursionError) ->
      get_info (S (S depth)) net self <> Raise RecursionError
      /\ search (S (S depth)) net self <> Raise RecursionError).
Proof.
  assert (Hinfo : get_info (S (S depth)) net self = get_info 2 net self).
  { cbn [get_info]. destruct (query self) as [q|]; [|reflexivity].
    destruct (is_valid (Some q)) eqn:Hv; [|reflexivity]. cbn [negb].
    now rewrite (proj1 (fetch_valid_is_dict depth net self q Hv)). }
  assert (Hsearch : search (S (S depth)) net self = search 2 net self).
  { cbn [search]. destruct (query self) as [q|]; [|reflexivity].
    destruct (str_truthy q); [|reflexivity]. cbn [negb].
    destruct (is_valid (Some q)) eqn:Hv; [|reflexivity].
    now rewrite (proj1 (fetch_valid_is_dict depth net self q Hv)). }
  assert (Hraise : forall e,
      get_info 2 net self = Raise e \/ search 2 net self = Raise e ->
      parse_error e = true
      \/ (exists url, make_request net url = Raise e)
      \/ (is_Exception e = false
          /\ exists x, playlist_getVideos net x = Raise e
                       \/ videos_search_next net x = Raise e)).
  { intros e [H|H].
    - cbn [get_info] in H. destruct (query self) as [q|] eqn:Hq;
        [|discriminate].
      destruct (is_valid (Some q)) eqn:Hv; [|discriminate]. cbn [negb] in H.
      destruct (fetch_valid_raises net self q e Hv H)
        as [Hp|[Hm|(He & url & Hl)]]; auto.
      right. right. split; [exact He|]. exists url. now left.
    - cbn [search] in H. destruct (query self) as [q|] eqn:Hq;
        [|discriminate].
      destruct (str_truthy q); [|discriminate]. cbn [negb] in H.
      destruct (is_valid (Some q)) eqn:Hv.
      + destruct (fetch_valid_raises net self q e Hv H)
          as [Hp|[Hm|(He & url & Hl)]]; auto.
        right. right. split; [exact He|]. exists url. now left.
      + apply bind_raises in H as [H|(data & _ & H)].
        * apply search_text_raises in H as (H & He).
          right. right. split; [exact He|]. exists q. now right.
        * destruct (finish_dict_returns data) as (r & Hr). congruence. }
  split; [exact Hinfo|]. split; [exact Hsearch|]. split; [exact Hraise|].
  intros Hclient. rewrite Hinfo, Hsearch.
  split; intros H;
    [destruct (Hraise RecursionError (or_introl H)) as [Hp|[(url & Hm)|(He & _)]]
    |destruct (Hraise RecursionError (or_intror H)) as [Hp|[(url & Hm)|(He & _)]]];
    try discriminate; exact (Hclient url Hm).
Qed.

(** C7.  The entries of a playlist are formatted outside the [try] of
    [_get_playlist]: when the source lists an entry that [_format_track]
    does not read, here one whose thumbnail list is empty, resolving the
    playlist returns no [PlatformTracks]; the parse error leaves
    [get_info]. *)
Theorem playlist_with_unread_entry_raises
  (depth : nat) (net : Net) (raw : string) :
  re_match YOUTUBE_PLAYLIST_PATTERN raw = true ->
  exists url,
    __init__ (Some raw) = Ret (mkYouTubeData (Some url))
    /\ forall listing videos,
         playlist_getVideos net url = Ret (VDict listing) ->
         lookup "videos" listing = Some (VList videos) ->
         Exists (fun v => well_formed v = false) videos ->
         exists e,
           bind (__init__ (Some raw)) (get_info (S (S depth)) net) = Raise e
           /\ parse_error e = true.
Proof.
  intros Hraw. destruct (init_keeps_playlist_url raw Hraw) as (url & Hinit & Hp).
  exists url. split; [exact Hinit|].
  intros listing videos Hget Hvid Hbad. rewrite Hinit. cbn [bind].
  rewrite (get_info_playlist depth net url Hp).
  unfold _get_playlist. rewrite Hget.
  assert (Htr : truthy (VDict listing) = true)
    by (destruct listing; [discriminate | reflexivity]).
  rewrite Htr. cbn [get]. rewrite Hvid. cbn [bind iterate].
  destruct (not_well_formed_raises videos Hbad) as (e & He & _).
  exists e. rewrite He. split; [reflexivity|].
  exact (formatting_parse_error videos e He).
Qed.

Lemma playlist_without_thumbnails_raises :
  well_formed bare_entry = false
  /\ (exists e,
       bind (__init__ (Some "https://youtube.com/playlist?list=PL1&index=2"))
            (get_info 2 no_thumbnail) = Raise e
       /\ parse_error e = true)
  /\ bind (__init__ (Some "https://youtube.com/playlist?list=PL1&index=2"))
          (get_info 2 no_thumbnail) = Raise IndexError.
Proof.
  split; [reflexivity|]. split; [|reflexivity].
  destruct (playlist_with_unread_entry_raises 0 no_thumbnail
              "https://youtube.com/playlist?list=PL1&index=2" eq_refl)
    as (url & Hinit & H).
  injection Hinit as <-.
  exact (H _ _ eq_refl eq_refl
           (Exists_cons_tl _
              (Exists_cons_hd (fun v => well_formed v = false)
                 bare_entry [] eq_refl))).
Defined.

End Escapes.

(* ================================================================== *)
(** * The number that [extract_number] finds                           *)
(* ================================================================== *)

Section NumberInText.
Import Py Funcs Numbers.

(** What each piece of the pattern takes from the text. *)

Lemma one_takes (cls : ascii -> bool) (s r : string) :
  In r (one cls s) -> exists c, s = String c r /\ cls c = true.
Proof.
  destruct s as [|c s]; [contradiction|]. cbn [one].
  destruct (cls c) eqn:E; [|contradiction]. intros [<-|[]]. eauto.
Qed.

Lemma many_takes (cls : ascii -> bool) (s r : string) :
  In r (many cls s) ->
  exists g, s = (g ++ r)%string
            /\ forallb cls (list_ascii_of_string g) = true.
Proof.
  revert r. induction s as [|c s IH]; intros r Hin.
  - destruct Hin as [<-|[]]. now exists EmptyString.
  - cbn [many] in Hin. destruct (cls c) eqn:E.
    + apply in_app_or in Hin as [Hin|[<-|[]]].
      * destruct (IH r Hin) as (g & -> & Hg). exists (String c g).
        split; [reflexivity|]. cbn. now rewrite E, Hg.
      * now exists EmptyString.
    + destruct Hin as [<-|[]]. now exists EmptyString.
Qed.

Lemma many1_takes (cls : ascii -> bool) (s r : string) :
  In r (many1 cls s) ->
  exists c g, s = String c (g ++ r)%string /\ cls c = true
              /\ forallb cls (list_ascii_of_string g) = true.
Proof.
  destruct s as [|c s]; [contradiction|]. cbn [many1].
  destruct (cls c) eqn:E; [|contradiction]. intros Hin.
  destruct (many_takes cls s r Hin) as (g & -> & Hg). eauto.
Qed.

Lemma point_only (c : ascii) :
  Ascii.eqb (lower ".") (lower c) = true -> c = "."%char.
Proof.
  destruct c as [[] [] [] [] [] [] [] []]; cbn; intros H;
    first [reflexivity | discriminate].
Qed.

Lemma point_takes (s r : string) :
  In r (lit "." s) -> s = String "." r.
Proof.
  destruct s as [|c s]; [contradiction|]. cbn [lit].
  destruct (Ascii.eqb (lower ".") (lower c)) eqn:E; [|contradiction].
  intros [<-|[]]. now rewrite (point_only c E).
Qed.

(** A text that starts with a digit is matched at its start. *)
Lemma number_at_digit (c : ascii) (s : string) :
  is_digit c = true -> number_pattern (String c s) <> [].
Proof.
  intros Hc Hnil.
  assert (Hin : In s (number_pattern (String c s))).
  { unfold number_pattern, seq, opt.
    apply in_flat_map. exists (String c s). split.
    { apply in_or_app. right. now left. }
    apply in_flat_map. exists (String c s). split.
    { apply many_has_whole. }
    apply in_flat_map. exists (String c s). split.
    { apply in_or_app. right. now left. }
    cbn [many1]. rewrite Hc. apply many_has_whole. }
  rewrite Hnil in Hin. contradiction.
Qed.

Lemma all_digits_forallb (g : string) :
  forallb is_digit (list_ascii_of_string g) = all_digits g.
Proof. induction g as [|c g IH]; cbn; [reflexivity | now rewrite IH]. Qed.

Lemma after_digits_all (g r : string) :
  all_digits g = true -> after_digits (g ++ r)%string = after_digits r.
Proof.
  induction g as [|c g IH]; intros H; [reflexivity|].
  cbn in H. apply andb_true_iff in H as [Hc Hg].
  cbn [append after_digits]. rewrite Hc. now apply IH.
Qed.

Lemma after_digits_none (g : string) :
  all_digits g = true -> after_digits g = EmptyString.
Proof.
  intros H. rewrite <- (append_empty_r g). now rewrite after_digits_all.
Qed.

Lemma all_digits_app (a b : string) :
  all_digits a = true -> all_digits b = true ->
  all_digits (a ++ b)%string = true.
Proof.
  induction a as [|c a IH]; intros Ha Hb; [exact Hb|].
  cbn in *. apply andb_true_iff in Ha as [Hc Ha]. now rewrite Hc, IH.
Qed.

(** Digits, maybe a point, and digits again make an unsigned literal. *)
Lemma unsigned_literal_built (ints frac : string) (c : ascii) (point : bool) :
  all_digits ints = true -> is_digit c = true -> all_digits frac = true ->
  unsigned_literal
    (ints ++ (if point then String "." (String c frac) else String c frac))%string
  = true.
Proof.
  intros Hi Hc Hf. unfold unsigned_literal. destruct point.
  - rewrite (after_digits_all ints _ Hi). cbn [after_digits].
    change (is_digit ".") with false. cbn. now rewrite Hc, Hf.
  - rewrite after_digits_none.
    + destruct ints; reflexivity.
    + apply all_digits_app; [exact Hi|]. cbn. now rewrite Hc, Hf.
Qed.

Lemma sign_is_no_digit (c : ascii) : is_sign c = true -> is_digit c = false.
Proof.
  unfold is_sign. intros H. apply orb_true_iff in H as [H|H];
    apply Ascii.eqb_eq in H; now subst.
Qed.

Lemma float_literal_unsigned (g : string) :
  unsigned_literal g = true -> float_literal g = true.
Proof.
  intros H. destruct g as [|c g]; [discriminate|]. cbn [float_literal].
  destruct (is_sign c) eqn:Es; [|exact H].
  (* an unsigned literal does not start with a sign *)
  unfold unsigned_literal in H. cbn [after_digits] in H.
  rewrite (sign_is_no_digit c Es) in H.
  apply andb_true_iff in H as [H _]. apply andb_true_iff in H as [H _].
  apply Ascii.eqb_eq in H. subst c. discriminate.
Qed.

(** What the pattern takes from a text is a literal that [float] reads. *)
Lemma number_pattern_takes (u r : string) :
  In r (number_pattern u) ->
  exists g, u = (g ++ r)%string /\ float_literal g = true.
Proof.
  unfold number_pattern, seq, opt. intros Hin.
  apply in_flat_map in Hin as (s1 & H1 & Hin).
  apply in_flat_map in Hin as (s2 & H2 & Hin).
  apply in_flat_map in Hin as (s3 & H3 & H4).
  destruct (many_takes _ _ _ H2) as (ints & E1 & Hints).
  rewrite all_digits_forallb in Hints.
  destruct (many1_takes _ _ _ H4) as (c & frac & E3 & Hc & Hfrac).
  rewrite all_digits_forallb in Hfrac.
  assert (Hbody : exists point : bool,
            s1
            = ((ints ++ (if point then String "." (String c frac)
                         else String c frac)) ++ r)%string).
  { rewrite E1. apply in_app_or in H3 as [H3|[<-|[]]].
    - apply point_takes in H3. exists true. rewrite H3, E3.
      rewrite append_assoc. reflexivity.
    - exists false. rewrite E3, append_assoc. reflexivity. }
  destruct Hbody as (point & Hbody).
  set (body := (ints ++ (if point then String "." (String c frac)
                         else String c frac))%string) in *.
  assert (Hlit : unsigned_literal body = true)
    by (apply unsigned_literal_built; assumption).
  apply in_app_or in H1 as [H1|[<-|[]]].
  - destruct (one_takes _ _ _ H1) as (sg & -> & Hsg).
    exists (String sg body). split.
    + cbn [append]. now rewrite <- Hbody.
    + change (is_sign sg = true) in Hsg. cbn [float_literal].
      now rewrite Hsg.
  - exists body. split; [exact Hbody | now apply float_literal_unsigned].
Qed.

Lemma length_append (a b : string) :
  String.length (a ++ b)%string = (String.length a + String.length b)%nat.
Proof. induction a as [|c a IH]; cbn; [reflexivity | now rewrite IH]. Qed.

Lemma take_taken (g r : string) :
  take (String.length (g ++ r)%string - String.length r) (g ++ r)%string = g.
Proof.
  rewrite length_append, Nat.add_sub. unfold take.
  induction g as [|c g IH]; cbn [append String.length substring].
  - now destruct r.
  - now rewrite IH.
Qed.

Lemma number_pattern_first (u r : string) (l : list string) :
  number_pattern u = r :: l ->
  float_literal (take (String.length u - String.length r) u) = true
  /\ occurs_in (take (String.length u - String.length r) u) u.
Proof.
  intros E.
  destruct (number_pattern_takes u r) as (g & -> & Hg);
    [rewrite E; now left|].
  rewrite take_taken. split; [exact Hg|]. now exists EmptyString, r.
Qed.

(** [re.search] for the pattern: a literal that occurs in the text. *)
Lemma number_search_some (s g : string) :
  re_search number_pattern s = Some g ->
  float_literal g = true /\ occurs_in g s.
Proof.
  induction s as [|c s IH]; cbn [re_search].
  - destruct (number_pattern EmptyString) as [|r l] eqn:E; [discriminate|].
    intros [= <-]. exact (number_pattern_first _ _ _ E).
  - destruct (number_pattern (String c s)) as [|r l] eqn:E.
    + intros H. destruct (IH H) as (Hg & before & after & ->).
      split; [exact Hg|]. now exists (String c before), after.
    + intros [= <-]. exact (number_pattern_first _ _ _ E).
Qed.

Lemma float_literal_has_digit (g : string) :
  float_literal g = true -> has_digit g = true.
Proof.
  assert (Hu : forall u, unsigned_literal u = true -> has_digit u = true).
  { unfold unsigned_literal. induction u as [|c u IH]; [discriminate|].
    cbn [after_digits has_digit]. destruct (is_digit c) eqn:Ec;
      [reflexivity|]. cbn [orb]. intros H.
    apply andb_true_iff in H as [H Hall].
    apply andb_true_iff in H as [_ Hne].
    destruct u as [|d u]; [discriminate|]. cbn in Hall |- *.
    apply andb_true_iff in Hall as [Hd _]. now rewrite Hd. }
  destruct g as [|c g]; [discriminate|]. cbn [float_literal].
  destruct (is_sign c); intros H; [|now apply Hu].
  cbn [has_digit]. rewrite (Hu g H). apply orb_true_r.
Qed.

Lemma has_digit_occurs (g s : string) :
  occurs_in g s -> has_digit g = true -> has_digit s = true.
Proof.
  intros (before & after & ->) Hg.
  induction before as [|c b IH]; cbn [append has_digit].
  - induction g as [|c g IHg]; [discriminate|]. cbn [append has_digit] in *.
    destruct (is_digit c); [reflexivity|]. cbn [orb] in *. now apply IHg.
  - rewrite IH. apply orb_true_r.
Qed.

Lemma number_search_none (s : string) :
  re_search number_pattern s = None <-> has_digit s = false.
Proof.
  split.
  - intros H. destruct (has_digit s) eqn:E; [|reflexivity]. exfalso.
    induction s as [|c s IH]; [discriminate|].
    cbn [re_search] in H.
    destruct (number_pattern (String c s)) as [|r l] eqn:Ep; [|discriminate].
    cbn [has_digit] in E. destruct (is_digit c) eqn:Ec.
    + now apply (number_at_digit c s Ec).
    + now apply IH.
  - intros H. destruct (re_search number_pattern s) as [g|] eqn:E;
      [|reflexivity].
    destruct (number_search_some s g E) as (Hg & Hocc).
    rewrite (has_digit_occurs g s Hocc (float_literal_has_digit g Hg)) in H.
    discriminate.
Qed.

(** X11.  [extract_number] finds a number exactly when the text holds a
    digit, wherever the digit is; so in a group chat [/speed] answers with
    its usage text, and with nothing else, exactly when the message holds
    no digit at all. *)
Theorem extract_number_needs_a_digit (text : string) :
  (extract_number text = None <-> has_digit text = false)
  /\ (forall w msg, Funcs.text msg = text -> chat_id msg <= 0 ->
      (change_speed w msg = ([reply SpeedUsage], Ret tt)
       <-> has_digit text = false)).
Proof.
  assert (H : extract_number text = None <-> has_digit text = false).
  { unfold extract_number. rewrite <- number_search_none.
    destruct (re_search number_pattern text); split; congruence. }
  split; [exact H|]. intros w msg <- Hgroup. rewrite <- H.
  unfold change_speed.
  destruct (Z.ltb_spec 0 (chat_id msg)) as [?|_]; [lia|].
  destruct (extract_number (Funcs.text msg)) as [x|]; split;
    try congruence; try reflexivity.
  cbn [ask mbind].
  destruct (is_admin w (chat_id msg) (from_user_id msg)); cbn [negb].
  - cbn [ask mbind].
    match goal with |- (let (_, _) := ?m in _) = _ -> _ => destruct m end.
    discriminate.
  - discriminate.
Qed.

Lemma extract_number_needs_a_digit_example :
  extract_number "/speed fast" = None
  /\ change_speed (playing_world "30") (group_message "/speed fast")
     = ([reply SpeedUsage], Ret tt).
Proof.
  split.
  - exact (proj2 (proj1 (extract_number_needs_a_digit "/speed fast")) eq_refl).
  - apply (proj2 (extract_number_needs_a_digit "/speed fast")
             (playing_world "30") (group_message "/speed fast") eq_refl);
      [cbn; lia | reflexivity].
Defined.

(** X12.  The number that [extract_number] hands to [float] is a text that
    occurs in the message and is a decimal literal: an optional sign,
    then digits, or digits (maybe none), a point and digits. *)
Theorem extract_number_is_a_literal (text g : string) :
  extract_number text = Some (float_of g) ->
  float_literal g = true /\ occurs_in g text.
Proof.
  unfold extract_number.
  destruct (re_search number_pattern text) as [g'|] eqn:E; [|discriminate].
  intros [= <-]. exact (number_search_some text g' E).
Qed.

Lemma extract_number_is_a_literal_example :
  float_literal "-.5" = true /\ occurs_in "-.5" "/speed -.5x".
Proof.
  exact (extract_number_is_a_literal "/speed -.5x" "-.5" eq_refl).
Defined.

End NumberInText.

(* ================================================================== *)
(** * Failures of the calls that the handlers make                     *)
(* ================================================================== *)

(** Runs [is_admin_or_reply] by cases on its two answers. *)
Ltac run_check w msg :=
  let Ha := fresh "Hactive" in
  let Hb := fresh "Hadmin" in
  destruct (Funcs.is_active w (Funcs.chat_id msg)) eqn:Ha;
  [ destruct (Funcs.is_admin w (Funcs.chat_id msg) (Funcs.from_user_id msg))
      eqn:Hb;
    [ rewrite (check_passed w msg Ha Hb)
    | rewrite (check_not_admin w msg Ha Hb) ]
  | rewrite (check_inactive w msg Ha) ].

(** Evaluates the plumbing of a run. *)
Ltac run_simpl :=
  cbn [Funcs.mbind Funcs.ask Funcs.reply_text Funcs.ret Funcs.lift
       Funcs.perform Funcs.try_catch Funcs.trace fst snd
       Funcs.logger_error Funcs.query_engine app negb Funcs.replies In] in *.

Section EngineFailures.
Import Py Funcs Failures.

(** X14.  Skip deletes the command message before it asks for the next
    song, inside the same [try]: the engine is asked to play the next song
    exactly when the check passes and the deletion does not fail. *)
Theorem skip_needs_the_deletion (w : World) (msg : Message) :
  engine_calls (trace (skip_song w msg))
  = if passes_check w msg && is_none (fails w del_msg)
    then [call_play_next (chat_id msg)] else [].
Proof.
  unfold skip_song, passes_check.
  run_check w msg; cbn [andb]; [|reflexivity|reflexivity].
  split_run; reflexivity.
Qed.

(** X15.  Seek asks neither whether the sender is an admin nor whether
    the chat is active: whoever writes in the group can move the stream. *)
Theorem seek_asks_no_permission (w : World) (msg : Message) :
  existsb asks_permission (trace (seek_song w msg)) = false.
Proof.
  unfold seek_song.
  destruct (0 <? chat_id msg); [reflexivity|].
  destruct (opt_truthy (extract_argument w (text msg))); [|reflexivity].
  cbn [negb].
  destruct (int_of_str (str_of (extract_argument w (text msg)))) as [n|e];
    [|reflexivity].
  cbn [lift mbind app].
  destruct (n <? 20); [reflexivity|].
  destruct (get_current_song w (chat_id msg)) as [track|]; [|reflexivity].
  cbn [ask mbind app].
  destruct (played_time w (chat_id msg)) as [t|e]; [|reflexivity].
  cbn [query_engine mbind app].
  destruct (duration track <=? t + n); [reflexivity|].
  split_run; reflexivity.
Qed.

End EngineFailures.

(* ================================================================== *)
(** * Failures when every awaited call may raise                       *)
(* ================================================================== *)

(** Evaluates a run of [Fallible], by cases on every call that may
    raise; a question or a reply does not, in a world that is known to be
    [obliging] by [H]. *)
Ltac awaited_simpl :=
  try unfold Fallible.asking, Fallible.reply_text, Funcs.perform,
    Funcs.reply_text, Funcs.ask, Funcs.logger_error, Funcs.query_engine,
    Funcs.lift, Funcs.ret in *;
  cbn [Funcs.mbind Funcs.try_catch Funcs.trace app negb fst snd] in *.

Ltac awaited_run H :=
  repeat (awaited_simpl;
          match goal with
          | |- context [Funcs.fails ?w ?e] =>
              first [ rewrite (H e eq_refl)
                    | destruct (Funcs.fails w e) as [?x|] eqn:? ]
          | |- context [if Py.is_Exception ?x then _ else _] =>
              destruct (Py.is_Exception x) eqn:?
          end);
  awaited_simpl.

(** A run of [Fallible] in program order, by cases on every call that
    may raise and on what the cache and the admin check answer. *)
Ltac awaited_eval :=
  cbn [Fallible.asking Fallible.reply_text Funcs.perform Funcs.mbind
       Funcs.ask Funcs.reply_text Funcs.ret Funcs.lift
       Funcs.try_catch Funcs.logger_error Funcs.query_engine
       Funcs.trace app negb fst snd] in *.

Ltac awaited_step :=
  awaited_eval;
  match goal with
  | |- context [match Funcs.fails ?w ?e with _ => _ end] =>
      destruct (Funcs.fails w e) as [?x|] eqn:?
  | |- context [if Py.is_Exception ?x then _ else _] =>
      destruct (Py.is_Exception x) eqn:?
  | |- context [if negb ?b then _ else _] => destruct b eqn:?
  end.

Ltac awaited_cases :=
  repeat awaited_step;
  try unfold Fallible.reply_text, Funcs.perform in *;
  repeat awaited_step;
  awaited_eval.

(** Splits a membership in an explicit trace. *)
Ltac in_trace H :=
  cbn [In] in H;
  repeat match type of H with
         | _ \/ _ => destruct H as [H|H]
         | False => destruct H
         end.

Section Awaited.
Import Py Funcs Failures.

(** ** The two embeddings agree where questions and replies succeed *)

Lemma check_obliging (w : World) (msg : Message) :
  Fallible.obliging w ->
  Fallible.is_admin_or_reply w msg = is_admin_or_reply w msg.
Proof.
  intros H. unfold Fallible.is_admin_or_reply, is_admin_or_reply.
  awaited_run H.
  destruct (is_active w (chat_id msg)); awaited_run H; [|reflexivity].
  destruct (is_admin w (chat_id msg) (from_user_id msg)); awaited_run H;
    reflexivity.
Qed.

(** In a world where no question and no reply fails, the handlers of
    [Fallible] run as the ones of [Funcs] do. *)
Lemma fallible_agrees (w : World) (msg : Message) :
  Fallible.obliging w ->
  Fallible.stop_song w msg = stop_song w msg
  /\ Fallible.pause_song w msg = pause_song w msg
  /\ Fallible.resume w msg = resume w msg
  /\ Fallible.mute_song w msg = mute_song w msg
  /\ Fallible.unmute_song w msg = unmute_song w msg
  /\ Fallible.skip_song w msg = skip_song w msg
  /\ Fallible.seek_song w msg = seek_song w msg.
Proof.
  intros H.
  assert (Haction : forall action ok ko,
             Fallible.handle_playback_action w msg action ok ko
             = handle_playback_action w msg action ok ko).
  { intros action ok ko.
    unfold Fallible.handle_playback_action, handle_playback_action.
    rewrite (check_obliging w msg H).
    destruct (is_admin_or_reply w msg) as [t [[chat|]|e]]; cbn [mbind];
      try reflexivity.
    awaited_run H; reflexivity. }
  split; [|split; [exact (Haction _ _ _)|split; [exact (Haction _ _ _)|
    split; [exact (Haction _ _ _)|split; [exact (Haction _ _ _)|split]]]]].
  - unfold Fallible.stop_song, stop_song. rewrite (check_obliging w msg H).
    destruct (is_admin_or_reply w msg) as [t [[chat|]|e]]; cbn [mbind];
      try reflexivity.
    awaited_run H; reflexivity.
  - unfold Fallible.skip_song, skip_song. rewrite (check_obliging w msg H).
    destruct (is_admin_or_reply w msg) as [t [[chat|]|e]]; cbn [mbind];
      try reflexivity.
    awaited_run H; reflexivity.
  - unfold Fallible.seek_song, seek_song.
    destruct (0 <? chat_id msg); [reflexivity|].
    destruct (opt_truthy (extract_argument w (text msg))); cbn [negb];
      [|awaited_run H; reflexivity].
    destruct (int_of_str (str_of (extract_argument w (text msg)))) as [n|e];
      [|reflexivity].
    cbn [lift mbind app].
    destruct (n <? 20); [awaited_run H; reflexivity|].
    destruct (get_current_song w (chat_id msg)) as [track|];
      [|awaited_run H; reflexivity].
    destruct (played_time w (chat_id msg)) as [t|e];
      [|awaited_run H; reflexivity].
    awaited_run H; destruct (duration track <=? t + n); awaited_run H;
      reflexivity.
Qed.

(** X13.  Stop, pause, resume, mute, unmute and skip, with every awaited
    call free to raise.  An [Exception] raised inside the [try] block,
    by the engine call, the deletion or the success reply, is logged; a
    logged failure is followed by the failure reply, the last call of the
    run, and the handler returns exactly when that reply is sent.  An
    [Exception] leaves a handler only from a call outside the [try]
    block: a question, a rejection reply or the failure reply.  When only
    calls inside the [try] block fail, and with [Exception]s, the
    handler returns normally. *)
Theorem playback_failures_are_reported
  (w : World) (msg : Message) (command : World -> Message -> M unit) :
  In command Fallible.guarded_commands ->
  (Fallible.only_guarded_fail w -> snd (command w msg) = Ret tt)
  /\ (forall ev e,
      Fallible.guarded ev = true -> In ev (trace (command w msg)) ->
      fails w ev = Some e -> is_Exception e = true ->
      In (log_error e) (trace (command w msg)))
  /\ (forall e, In (log_error e) (trace (command w msg)) ->
      is_Exception e = true
      /\ exists t fail_msg,
           trace (command w msg)
           = t ++ [log_error e; reply (Failed fail_msg e)]
           /\ snd (command w msg)
              = match fails w (reply (Failed fail_msg e)) with
                | Some x => Raise x
                | None => Ret tt
                end)
  /\ (forall e, snd (command w msg) = Raise e ->
      exists ev,
        Fallible.last_event (trace (command w msg)) = Some ev
        /\ fails w ev = Some e
        /\ (is_Exception e = true -> Fallible.guarded ev = false)).
Proof.
  intros Hin. cbn [Fallible.guarded_commands In] in Hin.
  destruct Hin as [<-|[<-|[<-|[<-|[<-|[<-|[]]]]]]];
    unfold Fallible.stop_song, Fallible.pause_song, Fallible.resume,
      Fallible.mute_song, Fallible.unmute_song, Fallible.skip_song,
      Fallible.handle_playback_action, Fallible.is_admin_or_reply;
    awaited_cases.
  all: split; [|split; [|split]].
  all: first
    [ (* the handler returns *)
      solve [ intros Hall; first [reflexivity | exfalso];
              match goal with
              | Hf : fails _ _ = Some _ |- _ =>
                  destruct (Hall _ _ Hf) as [Hg Hx];
                  first [discriminate Hg | congruence]
              end ]
    | (* a failure inside the try block is logged *)
      solve [ intros ev e Hg Hev Hf He; in_trace Hev; subst ev;
              first [ discriminate Hg | congruence
                    | match goal with
                      | Hx : fails _ ?a = Some ?y,
                        Hf' : fails _ ?a = Some e |- _ =>
                          assert (e = y) by congruence; subst e
                      end; cbn [In]; auto 10 ] ]
    | (* what leaves the handler *)
      solve [ intros e Hraise; try discriminate; injection Hraise as ->;
              eexists; split; [reflexivity|]; split; [eassumption|];
              intros He; first [reflexivity | congruence] ]
    | (* a logged failure is reported *)
      solve [ intros e Hlog; in_trace Hlog; try discriminate;
              injection Hlog as ->; (split; [assumption|]);
              match goal with
              | |- exists t fm, ?l = _ /\ _ =>
                  exists (removelast (removelast l)); eexists;
                  split; [reflexivity|]
              end;
              match goal with
              | Hr : fails _ (reply (Failed _ _)) = _ |- _ => rewrite Hr
              end; reflexivity ] ].
Qed.

Lemma playback_failures_are_reported_example :
  Fallible.pause_song (broken_engine (LibraryError "NotInCallError"))
                      (group_message "/pause")
  = ([ask_is_active (-1001); ask_is_admin (-1001) 42;
      engine (call_pause (-1001));
      log_error (LibraryError "NotInCallError");
      reply (Failed "Failed to pause the song"
                    (LibraryError "NotInCallError"))], Ret tt)
  /\ Fallible.pause_song Fallible.no_replies (group_message "/pause")
     = ([ask_is_active (-1001); ask_is_admin (-1001) 42;
         engine (call_pause (-1001));
         reply (Done "⏸️ <b>Stream Paused</b> 🥺" "@alice");
         log_error (LibraryError "RPCError");
         reply (Failed "Failed to pause the song" (LibraryError "RPCError"))],
        Raise (LibraryError "RPCError"))
  /\ exists ev,
       Fallible.last_event
         (trace (Fallible.pause_song Fallible.no_replies
                                     (group_message "/pause"))) = Some ev
       /\ fails Fallible.no_replies ev = Some (LibraryError "RPCError")
       /\ (is_Exception (LibraryError "RPCError") = true ->
           Fallible.guarded ev = false).
Proof.
  split; [reflexivity|]. split; [reflexivity|].
  exact (proj2 (proj2 (proj2
           (playback_failures_are_reported Fallible.no_replies
              (group_message "/pause") Fallible.pause_song
              (or_intror (or_introl eq_refl)))))
           (LibraryError "RPCError") eq_refl).
Defined.

(** X16.  What leaves [seek_song] as an exception, with every awaited
    call free to raise: the failure of [int] on the argument, the failure
    of [call.played_time], or what the last call of the run raised; and
    when that is an [Exception], the last call is one outside the [try]
    block: the question for the current song, a rejection reply or the
    failure reply.  In such a run no reply has gone through. *)
Theorem seek_failures_that_escape (w : World) (msg : Message) (e : exn) :
  snd (Fallible.seek_song w msg) = Raise e ->
  (forall r, In (reply r) (trace (Fallible.seek_song w msg)) ->
     fails w (reply r) <> None)
  /\ (argument_int w msg = Raise e
      \/ played_time w (chat_id msg) = Raise e
      \/ exists ev,
           Fallible.last_event (trace (Fallible.seek_song w msg)) = Some ev
           /\ fails w ev = Some e
           /\ (is_Exception e = true -> Fallible.guarded ev = false)).
Proof.
  unfold Fallible.seek_song, argument_int.
  destruct (0 <? chat_id msg); [discriminate|].
  destruct (opt_truthy (extract_argument w (text msg))); cbn [negb].
  2:{ awaited_cases; intros Hraise; try discriminate; injection Hraise as ->.
      split.
      - intros r Hr; in_trace Hr; injection Hr as <-; congruence.
      - right. right. eexists. split; [reflexivity|].
        split; [eassumption | reflexivity]. }
  destruct (int_of_str (str_of (extract_argument w (text msg)))) as [n|x].
  2:{ cbn. intros [= ->]. split; [intros r []|]. now left. }
  cbn [lift mbind app].
  destruct (n <? 20).
  { awaited_cases; intros Hraise; try discriminate; injection Hraise as ->.
    split.
    - intros r Hr; in_trace Hr; injection Hr as <-; congruence.
    - right. right. eexists. split; [reflexivity|].
      split; [eassumption | reflexivity]. }
  destruct (get_current_song w (chat_id msg)) as [track|];
    destruct (played_time w (chat_id msg)) as [t|x];
    try destruct (duration track <=? t + n) eqn:Hpast;
    awaited_cases; try rewrite Hpast; awaited_cases;
    intros Hraise; try discriminate; injection Hraise as ->;
    (split;
     [ intros r Hr; in_trace Hr; try discriminate; injection Hr as <-;
       congruence
     | first [ right; left; reflexivity
             | right; right; eexists; split; [reflexivity|];
               split; [eassumption|];
               intros He; first [reflexivity | congruence] ] ]).
Qed.

Lemma seek_failures_that_escape_example :
  Fallible.seek_song lost_call (group_message "/seek 30")
  = ([ask_current_song (-1001); engine (call_played_time (-1001))],
     Raise (LibraryError "NotInCallError"))
  /\ Fallible.seek_song Fallible.no_replies (group_message "/seek 30")
  = ([ask_current_song (-1001); engine (call_played_time (-1001));
      engine (call_seek_stream (-1001) "/tmp/song.mp3" 90 180);
      reply (Seeked 90 "@alice"); log_error (LibraryError "RPCError");
      reply (WentWrong (LibraryError "RPCError"))],
     Raise (LibraryError "RPCError"))
  /\ forall r,
       In (reply r)
          (trace (Fallible.seek_song Fallible.no_replies
                                     (group_message "/seek 30"))) ->
       fails Fallible.no_replies (reply r) <> None.
Proof.
  split; [reflexivity|]. split; [reflexivity|].
  exact (proj1 (seek_failures_that_escape Fallible.no_replies
                  (group_message "/seek 30")
                  (LibraryError "RPCError") eq_refl)).
Defined.

End Awaited.

(* ================================================================== *)
(** * The settings and the queue                                       *)
(* ================================================================== *)

(** Evaluates the plumbing of a run of [Controls]. *)
Ltac desk_simpl :=
  cbn [Controls.and_then Controls.asked Controls.act Controls.note
       Controls.of_outcome Controls.attempt Controls.effects Controls.done
       Controls.calls Controls.asks_leave Controls.asks_admin
       fst snd app negb existsb orb In] in *.

(** Splits every call of the run that may raise. *)
Ltac desk_run :=
  repeat (desk_simpl;
          match goal with
          | |- context [match Controls.raises ?d ?e with _ => _ end] =>
              destruct (Controls.raises d e) as [?x|] eqn:?
          | |- context [if Py.is_Exception ?x then _ else _] =>
              destruct (Py.is_Exception x) eqn:?
          end);
  desk_simpl.

(** Settles a question about the members of an explicit list of effects. *)
Ltac among :=
  repeat match goal with
         | H : _ \/ _ |- _ => destruct H as [H|H]
         | H : False |- _ => destruct H
         | H : _ /\ _ |- _ => destruct H
         end;
  try discriminate.

Section Settings.
Import Py Funcs Failures Controls.

(** X17.  [/setPlayType] writes to the database only in a group chat and
    only the values 0 and 1, and it does so for whoever asks: neither the
    admin check nor the cache is asked. *)
Theorem play_type_written_for_0_and_1 (d : Desk) (msg : Message) :
  (forall chat n,
     In (db_set_play_type chat n) (effects (set_play_type d msg)) <->
     chat = chat_id msg /\ chat <= 0
     /\ argument_int (world d) msg = Ret n /\ (n = 0 \/ n = 1))
  /\ existsb asks_leave (effects (set_play_type d msg)) = false.
Proof.
  unfold set_play_type, argument_int.
  destruct (Z.ltb_spec 0 (chat_id msg)) as [Hpos|Hgroup].
  { split; [|reflexivity]. intros chat n. split; [intros []|].
    intros (-> & H & _). lia. }
  pose proof (argument_int_truthy (world d) msg) as Htruthy.
  unfold argument_int in Htruthy.
  destruct (opt_truthy (extract_argument (world d) (text msg))) eqn:Hargs.
  2:{ desk_run; (split; [|reflexivity]); intros chat n;
      (split; [intros H; among|]);
      intros (_ & _ & H & _); discriminate (Htruthy n H). }
  clear Htruthy. cbn [negb].
  destruct (int_of_str (str_of (extract_argument (world d) (text msg))))
    as [v|e].
  2:{ split; [|reflexivity]. intros chat n. split; [intros []|].
      intros (_ & _ & H & _). discriminate. }
  desk_simpl.
  destruct (v =? 0) eqn:E0; [apply Z.eqb_eq in E0|apply Z.eqb_neq in E0];
    [|destruct (v =? 1) eqn:E1; [apply Z.eqb_eq in E1|apply Z.eqb_neq in E1]];
    desk_run;
    (split; [|reflexivity]); intros chat n;
    (split;
     [ intros H; among;
       try (injection H as <- <-; repeat split; auto; lia)
     | intros (-> & _ & [= <-] & Hn); auto; lia ]).
Qed.

(** X18.  [/loop] hands the count to the cache exactly when the message
    comes from an admin of a group chat that is active and its argument is
    an integer, whatever the integer: no bound is checked.  In a group chat
    the admin check is the first thing asked, before the activity of the
    chat. *)
Theorem loop_count_is_set_unchecked (d : Desk) (msg : Message) :
  (forall chat n,
     In (cache_set_loop_count chat n) (effects (modify_loop d msg)) <->
     chat = chat_id msg /\ chat <= 0
     /\ is_admin (world d) chat (from_user_id msg) = true
     /\ is_active (world d) chat = true
     /\ argument_int (world d) msg = Ret n)
  /\ (chat_id msg <= 0 ->
      exists rest,
        effects (modify_loop d msg)
        = did (ask_is_admin (chat_id msg) (from_user_id msg)) :: rest).
Proof.
  unfold modify_loop, argument_int.
  destruct (Z.ltb_spec 0 (chat_id msg)) as [Hpos|Hgroup].
  { split; [|intros H; lia]. intros chat n. split; [intros []|].
    intros (-> & H & _). lia. }
  pose proof (argument_int_truthy (world d) msg) as Htruthy.
  unfold argument_int in Htruthy.
  destruct (is_admin (world d) (chat_id msg) (from_user_id msg)) eqn:Hadmin.
  2:{ desk_run; (split; [|intros _; eexists; reflexivity]); intros chat n;
      (split; [intros H; among|]);
      intros (-> & _ & H & _); congruence. }
  destruct (is_active (world d) (chat_id msg)) eqn:Hactive.
  2:{ desk_run; (split; [|intros _; eexists; reflexivity]); intros chat n;
      (split; [intros H; among|]);
      intros (-> & _ & _ & H & _); congruence. }
  destruct (opt_truthy (extract_argument (world d) (text msg))) eqn:Hargs.
  2:{ desk_run; (split; [|intros _; eexists; reflexivity]); intros chat n;
      (split; [intros H; among|]);
      intros (_ & _ & _ & _ & H); discriminate (Htruthy n H). }
  clear Htruthy.
  destruct (int_of_str (str_of (extract_argument (world d) (text msg))))
    as [v|e].
  2:{ desk_run; (split; [|intros _; eexists; reflexivity]); intros chat n;
      (split; [intros H; among|]);
      intros (_ & _ & _ & _ & H); discriminate. }
  desk_run;
    (split; [|intros _; eexists; reflexivity]); intros chat n;
    (split;
     [ intros H; among;
       try (injection H as <- <-; repeat split; auto)
     | intros (-> & _ & _ & _ & [= <-]); auto ]).
Qed.

(** X19.  [/clear] empties the queue of the cache exactly when an admin
    of an active group chat asks and the queue has a track; it never
    calls the voice engine, so what is playing goes on. *)
Theorem clear_leaves_the_stream (d : Desk) (msg : Message) :
  (forall chat,
     In (cache_clear_chat chat) (effects (clear_queue d msg)) <->
     chat = chat_id msg /\ chat <= 0
     /\ is_admin (world d) chat (from_user_id msg) = true
     /\ is_active (world d) chat = true
     /\ get_queue (world d) chat <> [])
  /\ calls (effects (clear_queue d msg)) = [].
Proof.
  unfold clear_queue.
  destruct (Z.ltb_spec 0 (chat_id msg)) as [Hpos|Hgroup].
  { split; [|reflexivity]. intros chat. split; [intros []|].
    intros (-> & H & _). lia. }
  destruct (is_admin (world d) (chat_id msg) (from_user_id msg)) eqn:Hadmin.
  2:{ desk_run; (split; [|reflexivity]); intros chat;
      (split; [intros H; among|]);
      intros (-> & _ & H & _); congruence. }
  destruct (is_active (world d) (chat_id msg)) eqn:Hactive.
  2:{ desk_run; (split; [|reflexivity]); intros chat;
      (split; [intros H; among|]);
      intros (-> & _ & _ & H & _); congruence. }
  destruct (get_queue (world d) (chat_id msg)) as [|track rest] eqn:Hqueue.
  { desk_run; (split; [|reflexivity]); intros chat;
      (split; [intros H; among|]);
      intros (-> & _ & _ & _ & H); congruence. }
  desk_run;
    (split; [|reflexivity]); intros chat;
    (split;
     [ intros H; among;
       try (injection H as <-; repeat split; auto; congruence)
     | intros (-> & _); auto ]).
Qed.

End Settings.

(* ================================================================== *)
(** * The buttons                                                      *)
(* ================================================================== *)

Section Buttons.
Import Py Funcs Failures Controls.

(** The run of [callback_query], one case for each branch of the code. *)
Ltac by_button q :=
  unfold callback_query, button_call;
  destruct (String.eqb (data q) "play_skip") eqn:Hskip;
  [|destruct (String.eqb (data q) "play_stop") eqn:Hstop;
    [|destruct (String.eqb (data q) "play_pause") eqn:Hpause;
      [|destruct (String.eqb (data q) "play_resume") eqn:Hresume]]].

(** Nothing in the last branch touches the cache, the admin check or the
    engine. *)
Lemma play_song_effects (d : Desk) (q : CallbackQuery)
  (platform song_id : string) :
  Forall (fun e => match e with
                   | did _ | cache_clear_chat _ | del_message => False
                   | _ => True
                   end)
         (effects (play_song d q platform song_id)).
Proof.
  unfold play_song.
  destruct (opt_truthy (_get_platform_url d platform song_id));
    cbn [negb].
  - destruct (get_info d (str_of (_get_platform_url d platform song_id)))
      as [[song|]|e]; desk_run; repeat constructor.
  - desk_run; repeat constructor.
Qed.

Lemma last_branch_effects (d : Desk) (q : CallbackQuery) :
  Forall (fun e => match e with
                   | did _ | cache_clear_chat _ | del_message => False
                   | _ => True
                   end)
         (effects (note (log_info (data q)) ;;;
                   pieces <- of_outcome (unpack3 (split_max "_" 2 (data q))) ;;
                   play_song d q (fst pieces) (snd pieces))%run).
Proof.
  destruct (unpack3 (split_max "_" 2 (data q))) as [[platform song_id]|e].
  - pose proof (play_song_effects d q platform song_id) as H.
    cbn [of_outcome and_then note fst snd app].
    destruct (play_song d q platform song_id) as [t o]. cbn in *.
    now constructor.
  - cbn. repeat constructor.
Qed.

(** X20.  Whoever presses a button is obeyed: [callback_query] never asks
    whether the user is an admin.  The four buttons call the voice engine
    themselves only on an active chat, each with its own call.  Any other
    data goes the way of [play_music], and there neither the activity of
    the chat nor the admin check is asked: the song is handed to
    [play_music] exactly when the data comes apart in three, the two
    notices are sent, the platform is known and the song is found. *)
Theorem buttons_ask_no_admin (d : Desk) (q : CallbackQuery) :
  existsb asks_admin (effects (callback_query d q)) = false
  /\ (forall c, In c (calls (effects (callback_query d q))) ->
      is_active (world d) (message_chat_id q) = true
      /\ button_call (data q) (message_chat_id q) = Some c)
  /\ (button_call (data q) (message_chat_id q) = None ->
      existsb asks_leave (effects (callback_query d q)) = false)
  /\ (forall song user,
      In (play_music song user) (effects (callback_query d q)) <->
      button_call (data q) (message_chat_id q) = None
      /\ user = first_name q
      /\ exists platform song_id,
           unpack3 (split_max "_" 2 (data q)) = Ret (platform, song_id)
           /\ raises d (answer (PlayingFor user)) = None
           /\ raises d (edit_text message_message (Searching user) None) = None
           /\ opt_truthy (_get_platform_url d platform song_id) = true
           /\ get_info d (str_of (_get_platform_url d platform song_id))
              = Ret (Some song)).
Proof.
  by_button q.
  5:{ pose proof (last_branch_effects d q) as H.
      split; [|split; [|split]].
      - set (t := effects _) in *. clearbody t.
        induction H as [|e t He _ IH]; [reflexivity|].
        cbn [existsb]. rewrite IH. now destruct e as [ev| | | | | | | | | | |].
      - set (t := effects _) in *. clearbody t.
        intros c. induction H as [|e t He _ IH]; [intros []|].
        destruct e as [ev| | | | | | | | | | |]; try contradiction;
          cbn [calls]; exact IH.
      - intros _. set (t := effects _) in *. clearbody t.
        induction H as [|e t He _ IH]; [reflexivity|].
        cbn [existsb]. rewrite IH. now destruct e as [ev| | | | | | | | | | |].
      - clear H. intros song user.
        destruct (unpack3 (split_max "_" 2 (data q)))
          as [[platform song_id]|e].
        2:{ cbn. split; [intros [H|[]]; discriminate|].
            intros (_ & _ & p & s & H & _). discriminate. }
        cbn [of_outcome and_then note fst snd app]. unfold play_song.
        destruct (opt_truthy (_get_platform_url d platform song_id))
          eqn:Hurl; cbn [negb];
          [destruct (get_info d (str_of (_get_platform_url d platform song_id)))
             as [[found|]|e] eqn:Hinfo|];
          desk_run;
          (split;
           [ intros H; among;
             try (injection H as <- <-;
                  split; [reflexivity|]; split; [reflexivity|];
                  exists platform, song_id; auto 10)
           | intros (_ & -> & p & s & Hp & Ha & He & Hu & Hi);
             injection Hp as <- <-;
             first [ congruence
                   | replace song with found by congruence;
                     cbn [In]; auto 10 ] ]). }
  all: destruct (is_active (world d) (message_chat_id q)) eqn:Hactive;
    unfold send_response;
    destruct (opt_truthy (caption q));
    desk_run;
    (split;
     [ reflexivity
     | split;
       [ intros c Hc; among; subst; auto
       | split;
         [ intros H; discriminate
         | intros song user;
           (split; [intros H; among | intros (H & _); discriminate]) ] ] ]).
Qed.

Lemma buttons_ask_no_admin_example :
  is_active quiet_world (-1001) = false
  /\ In (play_music (YouTube.mkPlatformTracks []) "Alice")
        (effects (callback_query (front_desk quiet_world)
                                 (button "play_youtube_dQw4w9WgXcQ" None))).
Proof.
  split; [reflexivity|].
  apply (proj2 (proj2 (proj2 (proj2
           (buttons_ask_no_admin (front_desk quiet_world)
              (button "play_youtube_dQw4w9WgXcQ" None))))
           (YouTube.mkPlatformTracks []) "Alice")).
  split; [reflexivity|]. split; [reflexivity|].
  exists "youtube", "dQw4w9WgXcQ". repeat split; reflexivity.
Defined.

(** X21.  The stop button empties the queue before it ends the stream,
    in one [try]: the queue is emptied whenever the chat is active, and
    the engine is asked to end the stream exactly when, besides, emptying
    the queue did not fail. *)
Theorem stop_button_clears_first (d : Desk) (q : CallbackQuery) :
  data q = "play_stop" ->
  (In (cache_clear_chat (message_chat_id q)) (effects (callback_query d q))
   <-> is_active (world d) (message_chat_id q) = true)
  /\ calls (effects (callback_query d q))
     = if is_active (world d) (message_chat_id q)
          && is_none (raises d (cache_clear_chat (message_chat_id q)))
       then [call_end (message_chat_id q)] else [].
Proof.
  intros Hdata. unfold callback_query. rewrite Hdata.
  cbn [String.eqb Ascii.eqb Bool.eqb].
  destruct (is_active (world d) (message_chat_id q)) eqn:Hactive;
    unfold send_response;
    destruct (opt_truthy (caption q));
    desk_run; cbn [andb is_none];
    (split; [split; [intros H; among; auto | intros H; auto 6]
            | reflexivity]);
    discriminate.
Qed.

Lemma stop_button_clears_first_example :
  callback_query (stuck_cache (playing_world "30")) (button "play_stop" None)
  = ([did (ask_is_active (-1001)); cache_clear_chat (-1001);
      log_warning (LibraryError "CacheError"); answer StopError], Ret tt)
  /\ calls (effects (callback_query (stuck_cache (playing_world "30"))
                                    (button "play_stop" None))) = [].
Proof.
  split; [reflexivity|].
  exact (proj2 (stop_button_clears_first (stuck_cache (playing_world "30"))
                  (button "play_stop" None) eq_refl)).
Defined.

(** X22.  Of all that [callback_query] does, only a skip that went
    through deletes the message under the buttons, and only when that
    message has no caption: with a caption [send_response] returns right
    after the edit. *)
Theorem only_a_skip_deletes_the_message (d : Desk) (q : CallbackQuery) :
  In del_message (effects (callback_query d q)) <->
  data q = "play_skip"
  /\ is_active (world d) (message_chat_id q) = true
  /\ raises d (did (engine (call_play_next (message_chat_id q)))) = None
  /\ opt_truthy (caption q) = false
  /\ raises d (edit_text message_message Skipped None) = None.
Proof.
  by_button q.
  5:{ split.
      - intros H. pose proof (last_branch_effects d q) as Hall.
        rewrite Forall_forall in Hall. destruct (Hall _ H).
      - intros (H & _). rewrite H in Hskip. discriminate. }
  all: try apply String.eqb_eq in Hskip.
  all: try apply String.eqb_eq in Hstop.
  all: try apply String.eqb_eq in Hpause.
  all: try apply String.eqb_eq in Hresume.
  all: destruct (is_active (world d) (message_chat_id q)) eqn:Hactive;
    unfold send_response;
    destruct (opt_truthy (caption q)) eqn:Hcaption;
    desk_run;
    (split; [intros H; among; auto | intros (H1 & H2 & H3 & H4 & H5)]);
    try congruence; auto.
Qed.

(** ** Taking [data] apart *)

Lemma count_append (a : ascii) (s t : string) :
  count a (s ++ t)%string = (count a s + count a t)%nat.
Proof.
  induction s as [|c s IH]; [reflexivity|].
  cbn [append count]. rewrite IH. lia.
Qed.

(** [split] with [maxsplit] gives one piece more than it cuts. *)
Lemma split_max_go_length (a : ascii) (s : string) :
  forall n cur,
    List.length (split_max_go (String a EmptyString) n O cur s)
    = S (Nat.min n (count a s)).
Proof.
  induction s as [|c s IH]; intros n cur.
  - cbn. now rewrite Nat.min_0_r.
  - destruct n as [|m]; [reflexivity|].
    cbn [split_max_go]. rewrite prefix_one. cbn [count].
    rewrite (Ascii.eqb_sym c a).
    destruct (Ascii.eqb a c); cbn [String.length Nat.pred List.length].
    + rewrite IH. reflexivity.
    + rewrite IH. reflexivity.
Qed.

Lemma split_max_go_first (a : ascii) (rest : string) (n : nat) :
  forall head cur, count a head = O ->
  split_max_go (String a EmptyString) (S n) O cur (head ++ String a rest)%string
  = (cur ++ head)%string :: split_max_go (String a EmptyString) n O EmptyString rest.
Proof.
  induction head as [|c head IH]; intros cur H.
  - cbn [append split_max_go]. rewrite prefix_one, Ascii.eqb_refl.
    now rewrite append_empty_r.
  - cbn [count] in H. destruct (Ascii.eqb c a) eqn:E; [discriminate|].
    cbn [append split_max_go]. rewrite prefix_one, (Ascii.eqb_sym a c), E.
    rewrite (IH _ H). now rewrite append_assoc.
Qed.

Lemma split_max_go_rest (sep rest : string) :
  split_max_go sep O O EmptyString rest = [rest].
Proof. now destruct rest. Qed.

Lemma unpack3_short (pieces : list string) :
  (List.length pieces <= 2)%nat -> unpack3 pieces = Raise ValueError.
Proof.
  destruct pieces as [|a [|b [|c [|x l]]]]; cbn; intros H;
    first [reflexivity | lia].
Qed.

(** X23.  Data that is none of the four buttons and has fewer than two
    underscores cannot be taken apart: the handler logs it and raises
    [ValueError] before it answers. *)
Theorem data_without_two_underscores_raises (d : Desk) (q : CallbackQuery) :
  button_call (data q) (message_chat_id q) = None ->
  (count "_" (data q) < 2)%nat ->
  callback_query d q = ([log_info (data q)], Raise ValueError).
Proof.
  by_button q; try discriminate. intros _ Hcount.
  rewrite unpack3_short; [reflexivity|].
  unfold split_max. rewrite split_max_go_length. lia.
Qed.

Lemma data_without_two_underscores_raises_example :
  callback_query (front_desk (playing_world "30")) (button "play_next" None)
  = ([log_info "play_next"], Raise ValueError).
Proof.
  apply (data_without_two_underscores_raises
           (front_desk (playing_world "30")) (button "play_next" None));
    [reflexivity | cbn; lia].
Defined.

(** X24.  Data made of a tag, a platform and a song id, joined by
    underscores, is taken apart at its first two underscores: the song id
    keeps the underscores that it has, and the song is looked up under
    that platform and that id. *)
Theorem song_id_keeps_its_underscores
  (d : Desk) (q : CallbackQuery) (tag platform song_id : string) :
  count "_" tag = O -> count "_" platform = O ->
  data q = (tag ++ "_" ++ platform ++ "_" ++ song_id)%string ->
  callback_query d q
  = (note (log_info (data q)) ;;; play_song d q platform song_id)%run.
Proof.
  intros Htag Hplatform Hdata.
  assert (Hcount : (2 <= count "_" (data q))%nat).
  { rewrite Hdata, count_append. cbn [append count Ascii.eqb Bool.eqb].
    rewrite count_append. cbn [append count Ascii.eqb Bool.eqb]. lia. }
  by_button q;
    try (apply String.eqb_eq in Hskip; rewrite Hskip in Hcount);
    try (apply String.eqb_eq in Hstop; rewrite Hstop in Hcount);
    try (apply String.eqb_eq in Hpause; rewrite Hpause in Hcount);
    try (apply String.eqb_eq in Hresume; rewrite Hresume in Hcount);
    try (cbn in Hcount; lia).
  assert (Hsplit : split_max "_" 2 (data q) = [tag; platform; song_id]).
  { rewrite Hdata. unfold split_max.
    change (tag ++ "_" ++ platform ++ "_" ++ song_id)%string
      with (tag ++ String "_" (platform ++ String "_" song_id))%string.
    rewrite (split_max_go_first "_" _ 1 tag EmptyString Htag).
    rewrite (split_max_go_first "_" _ 0 platform EmptyString Hplatform).
    now rewrite split_max_go_rest. }
  rewrite Hsplit. cbn [unpack3 of_outcome and_then note fst snd app].
  now destruct (play_song d q platform song_id).
Qed.

Lemma song_id_keeps_its_underscores_example :
  callback_query (front_desk (playing_world "30"))
                 (button "play_youtube_dQw4_w9WgXcQ" (Some "Now playing"))
  = ([log_info "play_youtube_dQw4_w9WgXcQ"; answer (PlayingFor "Alice");
      edit_text message_message (Searching "Alice") None;
      wrapper_get_info "https://youtube.com/watch?v=dQw4_w9WgXcQ";
      play_music (YouTube.mkPlatformTracks []) "Alice"], Ret tt).
Proof.
  exact (eq_trans
           (song_id_keeps_its_underscores (front_desk (playing_world "30"))
              (button "play_youtube_dQw4_w9WgXcQ" (Some "Now playing"))
              "play" "youtube" "dQw4_w9WgXcQ" eq_refl eq_refl eq_refl)
           eq_refl).
Defined.

End Buttons.
